(** * The trivia endpoint of kitakyushu-chibit-trivia

    A shallow embedding of the route handler that turns a keyword into a
    short piece of trivia (rate limiter, prompt builders, Gemini client,
    retry orchestrator, response assembly), followed by the properties
    its specification states about it.

    JavaScript strings are sequences of UTF-16 code units and [.length]
    counts code units, so a string is a [list N] here.  The provider, the
    clock and the request are inputs; the rate-limit map and the sequence
    of provider exchanges are threaded explicitly. *)

From Stdlib Require Import ZArith NArith List String Ascii Bool Lia.
From Stdlib Require Import DecimalString.
From stdpp Require Import base decidable option list countable gmap.
Import ListNotations.

Local Open Scope Z_scope.
Set Warnings "-register-all".

(** ** JavaScript strings *)

Module JsString.

Abbreviation jsstring := (list N).

  (** Literals are written as in the source file (UTF-8) and decoded to
      code points, then to UTF-16 code units. *)
Fixpoint utf8_decode (bs : list N) : list N :=
    let cont b := N.land b 63 in
    match bs with
    | [] => []
    | b0 :: r =>
      if (b0 <? 128)%N then b0 :: utf8_decode r
      else if (b0 <? 224)%N then
        match r with
        | b1 :: r1 => N.lor (N.shiftl (N.land b0 31) 6) (cont b1) :: utf8_decode r1
        | _ => []
        end
      else if (b0 <? 240)%N then
        match r with
        | b1 :: b2 :: r2 =>
          N.lor (N.shiftl (N.land b0 15) 12)
                (N.lor (N.shiftl (cont b1) 6) (cont b2)) :: utf8_decode r2
        | _ => []
        end
      else
        match r with
        | b1 :: b2 :: b3 :: r3 =>
          N.lor (N.shiftl (N.land b0 7) 18)
                (N.lor (N.shiftl (cont b1) 12)
                       (N.lor (N.shiftl (cont b2) 6) (cont b3))) :: utf8_decode r3
        | _ => []
        end
    end.

Definition utf16_units (cp : N) : list N :=
    if (cp <? 65536)%N then [cp]
    else let v := (cp - 65536)%N in
         [(55296 + N.shiftr v 10)%N; (56320 + N.land v 1023)%N].

Definition js (s : string) : jsstring :=
    flat_map utf16_units (utf8_decode (List.map N_of_ascii (list_ascii_of_string s))).

  (** WhiteSpace and LineTerminator code units, as removed by [trim]. *)
Definition isWhite (c : N) : bool :=
    ((9 <=? c) && (c <=? 13) || (c =? 32) || (c =? 160) || (c =? 5760)
     || (8192 <=? c) && (c <=? 8202) || (c =? 8232) || (c =? 8233)
     || (c =? 8239) || (c =? 8287) || (c =? 12288) || (c =? 65279))%N.

Fixpoint trimStart (s : jsstring) : jsstring :=
    match s with
    | c :: r => if isWhite c then trimStart r else s
    | [] => []
    end.

Definition trimEnd (s : jsstring) : jsstring := rev (trimStart (rev s)).

Definition trim (s : jsstring) : jsstring := trimEnd (trimStart s).

  (** [s.split(",")[0]]: the part before the first comma. *)
Fixpoint beforeComma (s : jsstring) : jsstring :=
    match s with
    | c :: r => if (c =? 44)%N then [] else c :: beforeComma r
    | [] => []
    end.

  (** [`${n}`] for a non-negative integer. *)
Definition ofNat (n : nat) : jsstring :=
    js (NilZero.string_of_uint (Nat.to_uint n)).

Definition ofZ (z : Z) : jsstring :=
    if z <? 0 then js "-" ++ ofNat (Z.abs_nat z) else ofNat (Z.to_nat z).

Definition eqb (a b : jsstring) : bool := bool_decide (a = b).

End JsString.
Import JsString.

(** ** JSON-derived JavaScript values *)

Inductive JsValue :=
| JUndefined
| JNull
| JBool (b : bool)
| JNum (n : Z)
| JStr (s : jsstring)
| JArr (items : list JsValue)
| JObj (fields : list (jsstring * JsValue)).

Module Js.

  (** ToBoolean. *)
Definition truthy (v : JsValue) : bool :=
    match v with
    | JUndefined | JNull => false
    | JBool b => b
    | JNum n => negb (n =? 0)
    | JStr s => match s with [] => false | _ => true end
    | JArr _ | JObj _ => true
    end.

  (** Own property of a parsed object; a later duplicate key wins. *)
Fixpoint field (k : jsstring) (fs : list (jsstring * JsValue)) : JsValue :=
    match fs with
    | [] => JUndefined
    | (k', v) :: r =>
      match field k r with
      | JUndefined => if eqb k k' then v else JUndefined
      | w => w
      end
    end.

  (** [v.k] for a name [k] that is neither a prototype property nor an
      index; [None] is the TypeError raised on [null] and [undefined]. *)
Definition get (v : JsValue) (k : jsstring) : option JsValue :=
    match v with
    | JUndefined | JNull => None
    | JObj fs => Some (field k fs)
    | _ => Some JUndefined
    end.

  (** [v?.k] *)
Definition getOpt (v : JsValue) (k : jsstring) : JsValue :=
    match get v k with Some w => w | None => JUndefined end.

  (** [v.length] on a value that is neither [null] nor [undefined]. *)
Definition length (v : JsValue) : JsValue :=
    match v with
    | JArr l => JNum (Z.of_nat (List.length l))
    | JStr s => JNum (Z.of_nat (List.length s))
    | JObj fs => field (js "length") fs
    | _ => JUndefined
    end.

  (** [v[0]] on a value that is neither [null] nor [undefined]. *)
Definition first (v : JsValue) : JsValue :=
    match v with
    | JArr (x :: _) => x
    | JStr (c :: _) => JStr [c]
    | JObj fs => field (js "0") fs
    | _ => JUndefined
    end.

  (** [v === 0] *)
Definition isZero (v : JsValue) : bool :=
    match v with JNum 0 => true | _ => false end.

  (** [v === true] *)
Definition isTrue (v : JsValue) : bool :=
    match v with JBool true => true | _ => false end.

  (** [v === "..."] *)
Definition isStr (v : JsValue) (s : jsstring) : bool :=
    match v with JStr t => eqb t s | _ => false end.

  (** The values a [for ... of] visits; [None] when [v] is not iterable.
      A string yields its characters, which are string primitives. *)
Definition iterate (v : JsValue) : option (list JsValue) :=
    match v with
    | JArr l => Some l
    | JStr s => Some (List.map (fun c => JStr [c]) s)
    | _ => None
    end.

End Js.

(** ** Rate limiting (in memory, keyed by client address) *)

Definition RATE_LIMIT_PER_MINUTE : nat := 10.

Abbreviation RateLimitMap := (gmap jsstring (list Z)).

(** [isRateLimited(ip)], with [now] the value [Date.now()] returns.  The
    array pushed to is the one already stored under [ip], so the final
    [set] stores the same array again. *)
Definition isRateLimited (ip : jsstring) (now : Z) (rateLimitMap : RateLimitMap)
  : bool * RateLimitMap :=
  let windowMs := 60000 in
  let timestamps := default [] (rateLimitMap !! ip) in
  let recent := List.filter (fun t => now - t <? windowMs) timestamps in
  let rateLimitMap := <[ip := recent]> rateLimitMap in
  if (RATE_LIMIT_PER_MINUTE <=? List.length recent)%nat then (true, rateLimitMap)
  else
    let recent := recent ++ [now] in
    (false, <[ip := recent]> rateLimitMap).

(** The body of the five-minute [setInterval] sweep, applied to every
    entry of the map. *)
Definition sweepEntry (now : Z) (timestamps : list Z) : option (list Z) :=
  let recent := List.filter (fun t => now - t <? 60000) timestamps in
  match recent with
  | [] => None
  | _ => Some recent
  end.

Definition sweep (now : Z) (rateLimitMap : RateLimitMap) : RateLimitMap :=
  omap (sweepEntry now) rateLimitMap.

(** ** Prompts *)

Definition SYSTEM_PROMPT : jsstring := js
"あなたは「北九州に必ず紐づける短文トリビア」作家です。
入力された単語を起点に、北九州の文化・地理・産業・歴史・食・観光のいずれかへ強引に結びつけて、日本語で1段落のトリビアを作ってください。

【絶対条件】
・70文字以上100文字以内（厳守。句読点含む）
・改行なし、箇条書き禁止、プレーンテキストのみ
・必ず文末を「。」で終わらせて完結させること
・北九州の具体的な地名・名物・歴史に言及すること
・不確実な内容は「〜らしい」「〜とも言われる」で濁してOK
・医療助言・違法行為・差別・暴力・個人情報は避ける

【出力例】
入力「カレー」→「カレーの隠し味に醤油を入れる家庭は多いが、北九州の小倉では焼きうどん発祥の地として知られ、うどん出汁にカレーを合わせた一杯が地元民に密かに愛されているらしい。」".

Definition buildUserPrompt (keyword : jsstring) : jsstring :=
  js "単語：「" ++ keyword ++ js "」

上記の単語から北九州に紐づくトリビアを1つ書いてください。
必ず70〜100文字で、文末は「。」で完結させてください。途中で切らないでください。".

Definition getRetryPrompt (currentLength : nat) : jsstring :=
  if (currentLength <? 70)%nat then
    js "今の出力は" ++ ofNat currentLength ++
    js "文字で短すぎます。具体的なエピソードを追加して70文字以上にしてください。100文字は超えないでください。文末は「。」で完結させること。"
  else
    js "今の出力は" ++ ofNat currentLength ++
    js "文字で長すぎます。余計な言葉を削って100文字以内に収めてください。70文字は下回らないでください。文末は「。」で完結させること。".

(** ** Character count validation: 70-100 *)

Definition isValidLength (text : jsstring) : bool :=
  let len := List.length text in
  ((70 <=? len) && (len <=? 100))%nat.

(** ** Reading a Gemini response *)

(** The loop over [parts]; [None] is a thrown TypeError (a [null] part). *)
Fixpoint collectTextParts (parts : list JsValue) (textParts : list jsstring)
  : option (list jsstring) :=
  match parts with
  | [] => Some textParts
  | part :: rest =>
    match Js.get part (js "thought") with
    | None => None
    | Some thought =>
      if Js.isTrue thought then collectTextParts rest textParts
      else
        match Js.getOpt part (js "text") with
        | JStr text =>
          if (0 <? List.length (trim text))%nat
          then collectTextParts rest (textParts ++ [trim text])
          else collectTextParts rest textParts
        | _ => collectTextParts rest textParts
        end
    end
  end.

(** The [try] block of [extractText]: [None] when it throws, otherwise
    the value returned ([string | null]). *)
Definition extractText_try (data : JsValue) : option (option jsstring) :=
  let candidates := Js.getOpt data (js "candidates") in
  if negb (Js.truthy candidates) || Js.isZero (Js.length candidates) then Some None
  else
    let candidate := Js.first candidates in
    let content := Js.getOpt candidate (js "content") in
    if negb (Js.truthy content) then Some None
    else
      let parts := Js.getOpt content (js "parts") in
      if negb (Js.truthy parts) || Js.isZero (Js.length parts) then Some None
      else
        match Js.iterate parts with
        | None => None
        | Some items =>
          match collectTextParts items [] with
          | None => None
          | Some textParts =>
            if (0 <? List.length textParts)%nat
            then Some (Some (trim (concat textParts)))
            else Some None
          end
        end.

Definition extractText (data : JsValue) : option jsstring :=
  match extractText_try data with
  | Some r => r
  | None => None
  end.

(** [getFinishReason]: nothing in its [try] block can throw.  The cast
    [as string] is erased at run time, so the result is whatever value
    the response carries. *)
Definition getFinishReason (data : JsValue) : JsValue :=
  let candidates := Js.getOpt data (js "candidates") in
  if negb (Js.truthy candidates) || Js.isZero (Js.length candidates)
  then JStr (js "UNKNOWN")
  else
    let r := Js.getOpt (Js.first candidates) (js "finishReason") in
    if Js.truthy r then r else JStr (js "UNKNOWN").

(** ** Model configurations *)

Record ModelConfig := {
  name : jsstring;
  maxOutputTokens : Z;
  thinkingConfig : option Z  (* [{ thinkingBudget }] when present *)
}.

Definition MODEL_CONFIGS : list ModelConfig :=
  [ {| name := js "gemini-2.0-flash"; maxOutputTokens := 500;
       thinkingConfig := None |};
    {| name := js "gemini-2.5-flash"; maxOutputTokens := 8192;
       thinkingConfig := Some 0 |};
    {| name := js "gemini-2.0-flash-lite"; maxOutputTokens := 500;
       thinkingConfig := None |} ].

(** ** The Gemini client *)

Inductive Role := user | model.

Record Message := { role : Role; parts : jsstring }.

(** What [callGemini] sends.  The temperature is the constant 0.7 and is
    left out. *)
Record GeminiRequest := {
  url : jsstring;
  systemInstruction : jsstring;
  contents : list Message;
  generationConfig : Z * option Z  (* maxOutputTokens, thinkingConfig *)
}.

(** Values that can be thrown.  [Error m] is [new Error(m)]; the others
    are raised by the runtime, whose message texts are its own. *)
Inductive JsError :=
| Error (message : jsstring)
| FetchFailed (message : jsstring)  (* network failure or the 20 s timeout *)
| JsonSyntaxError                   (* a body that is not JSON *)
| TypeError.                        (* property of null, or a call of a non-function *)

Record HttpResponse := {
  status : Z;
  bodyText : jsstring;
  bodyJson : option JsValue  (* [None]: [response.json()] rejects *)
}.

Definition ok (response : HttpResponse) : bool :=
  (200 <=? status response) && (status response <=? 299).

Inductive FetchOutcome :=
| Rejected (e : JsError)
| Responded (response : HttpResponse).

Record GeminiResult := {
  text : option jsstring;
  finishReason : JsValue;
  rawData : option JsValue
}.

Definition geminiRequest (modelConfig : ModelConfig) (apiKey : jsstring)
           (messages : list Message) : GeminiRequest :=
  {| url := js "https://generativelanguage.googleapis.com/v1beta/models/"
            ++ name modelConfig ++ js ":generateContent?key=" ++ apiKey;
     systemInstruction := SYSTEM_PROMPT;
     contents := messages;
     generationConfig := (maxOutputTokens modelConfig, thinkingConfig modelConfig) |}.

(** The part of [callGemini] after [fetch] settles. *)
Definition callGemini_settle (outcome : FetchOutcome) : GeminiResult + JsError :=
  match outcome with
  | Rejected e => inr e
  | Responded response =>
    if negb (ok response) then
      if status response =? 404 then
        inl {| text := None; finishReason := JStr (js "NOT_FOUND"); rawData := None |}
      else
        let errText := bodyText response in
        inr (Error (js "HTTP " ++ ofZ (status response) ++ js ": " ++ firstn 200 errText))
    else
      match bodyJson response with
      | None => inr JsonSyntaxError
      | Some data =>
        inl {| text := extractText data;
               finishReason := getFinishReason data;
               rawData := Some data |}
      end
  end.

(** The provider answers the [n]-th request of a run (counted from 0). *)
Definition Provider := nat -> GeminiRequest -> FetchOutcome.

Record Exchange := { sent : GeminiRequest; received : FetchOutcome }.

Definition callGemini (provider : Provider) (modelConfig : ModelConfig)
           (apiKey : jsstring) (messages : list Message) (trace : list Exchange)
  : (GeminiResult + JsError) * list Exchange :=
  let request := geminiRequest modelConfig apiKey messages in
  let outcome := provider (List.length trace) request in
  (callGemini_settle outcome, trace ++ [{| sent := request; received := outcome |}]).

(** ** The retry orchestrator *)

Record Vars := {
  lastError : option JsError;
  generatedTrivia : option jsstring;
  bestCandidate : option jsstring;
  retries : nat;
  usedModel : jsstring
}.

(** [!s] for [s : string | null]. *)
Definition absent (s : option jsstring) : bool :=
  match s with
  | None | Some [] => true
  | Some _ => false
  end.

(** [if (!bestCandidate || candidate.length > bestCandidate.length)
    bestCandidate = candidate]. *)
Definition track (candidate : jsstring) (v : Vars) : Vars :=
  let longer :=
    match bestCandidate v with
    | Some best => (List.length best <? List.length candidate)%nat
    | None => false
    end in
  if absent (bestCandidate v) || longer
  then {| lastError := lastError v; generatedTrivia := generatedTrivia v;
          bestCandidate := Some candidate; retries := retries v;
          usedModel := usedModel v |}
  else v.

Definition countRetry (v : Vars) : Vars :=
  {| lastError := lastError v; generatedTrivia := generatedTrivia v;
     bestCandidate := bestCandidate v; retries := S (retries v);
     usedModel := usedModel v |}.

Definition catch (e : JsError) (v : Vars) : Vars :=
  {| lastError := Some e; generatedTrivia := generatedTrivia v;
     bestCandidate := bestCandidate v; retries := retries v;
     usedModel := usedModel v |}.

Definition accept (candidate : jsstring) (modelConfig : ModelConfig) (v : Vars) : Vars :=
  {| lastError := lastError v; generatedTrivia := Some candidate;
     bestCandidate := bestCandidate v; retries := retries v;
     usedModel := name modelConfig |}.

Definition fallback (best : jsstring) (v : Vars) : Vars :=
  {| lastError := lastError v; generatedTrivia := Some best;
     bestCandidate := bestCandidate v; retries := retries v;
     usedModel := js "fallback" |}.

Section Orchestrator.

Variable provider : Provider.
Variable API_KEY : jsstring.

  (** The character count retry loop,
      [for (attempt = 0; attempt < 3 && !isValidLength(candidate); attempt++)],
      with [remaining = 3 - attempt].  It ends with the candidate it
      leaves behind, or with the error [callGemini] threw. *)
Fixpoint retryLoop (remaining : nat) (modelConfig : ModelConfig)
           (messages : list Message) (candidate : jsstring)
           (v : Vars) (trace : list Exchange)
    : (jsstring + JsError) * Vars * list Exchange :=
    match remaining with
    | O => (inl candidate, v, trace)
    | S remaining' =>
      if isValidLength candidate then (inl candidate, v, trace)
      else
        let v := countRetry v in
        let retryPrompt := getRetryPrompt (List.length candidate) in
        let messages :=
          messages ++ [ {| role := model; parts := candidate |};
                        {| role := user; parts := retryPrompt |} ] in
        match callGemini provider modelConfig API_KEY messages trace with
        | (inr e, trace) => (inr e, v, trace)
        | (inl retryResult, trace) =>
          if absent (text retryResult)
             || Js.isStr (finishReason retryResult) (js "MAX_TOKENS")
          then (inl candidate, v, trace)
          else
            let candidate := default [] (text retryResult) in
            retryLoop remaining' modelConfig messages candidate (track candidate v) trace
        end
    end.

  (** How the [try] block of one iteration ends. *)
Inductive Completion :=
  | Continue              (* [continue]: next configuration *)
  | BreakOuter            (* [break outerLoop] *)
  | Throw (e : JsError).  (* caught by the [catch] of the iteration *)

Definition tryBlock (modelConfig : ModelConfig) (userPrompt : jsstring)
             (v : Vars) (trace : list Exchange)
    : Completion * Vars * list Exchange :=
    let messages := [ {| role := user; parts := userPrompt |} ] in
    match callGemini provider modelConfig API_KEY messages trace with
    | (inr e, trace) => (Throw e, v, trace)
    | (inl result, trace) =>
      if absent (text result) then
        if Js.isStr (finishReason result) (js "NOT_FOUND")
        then (Continue, v, trace)
        else (Throw (Error (js "生成結果が空でした。")), v, trace)
      else
        let candidate := default [] (text result) in
        if Js.isStr (finishReason result) (js "MAX_TOKENS") then
          (Throw (Error (js "レスポンスが途中で切れました (MAX_TOKENS)。")),
           track candidate v, trace)
        else
          let v := track candidate v in
          match retryLoop 3 modelConfig messages candidate v trace with
          | (inr e, v, trace) => (Throw e, v, trace)
          | (inl candidate, v, trace) =>
            if isValidLength candidate
            then (BreakOuter, accept candidate modelConfig v, trace)
            else
              (Throw (Error (js "文字数が範囲外です（"
                              ++ ofNat (List.length candidate) ++ js "文字）。")),
               v, trace)
          end
    end.

  (** One iteration of [outerLoop], [try] and [catch] together; the
      boolean tells whether the loop was left by [break outerLoop]. *)
Definition iteration (modelConfig : ModelConfig) (userPrompt : jsstring)
             (v : Vars) (trace : list Exchange) : bool * Vars * list Exchange :=
    match tryBlock modelConfig userPrompt v trace with
    | (Continue, v, trace) => (false, v, trace)
    | (BreakOuter, v, trace) => (true, v, trace)
    | (Throw e, v, trace) => (false, catch e v, trace)
    end.

Fixpoint outerLoop (configs : list ModelConfig) (userPrompt : jsstring)
           (v : Vars) (trace : list Exchange) : Vars * list Exchange :=
    match configs with
    | [] => (v, trace)
    | modelConfig :: rest =>
      match iteration modelConfig userPrompt v trace with
      | (true, v, trace) => (v, trace)
      | (false, v, trace) => outerLoop rest userPrompt v trace
      end
    end.

  (** Fallback: use the best candidate if available (even if out of range). *)
Definition useFallback (v : Vars) : Vars :=
    match bestCandidate v with
    | Some best =>
      if absent (generatedTrivia v) && negb (absent (bestCandidate v))
         && (10 <=? List.length best)%nat
      then fallback best v
      else v
    | None => v
    end.

Definition initialVars : Vars :=
    {| lastError := None; generatedTrivia := None; bestCandidate := None;
       retries := 0%nat; usedModel := [] |}.

  (** From [let lastError = null] to the fallback, over the given list
      of configurations. *)
Definition generate (configs : list ModelConfig) (keyword : jsstring)
    : Vars * list Exchange :=
    let userPrompt := buildUserPrompt keyword in
    let '(v, trace) := outerLoop configs userPrompt initialVars [] in
    (useFallback v, trace).

End Orchestrator.

(** ** The route handler *)

Inductive ApiResponse :=
| ErrorJson (httpStatus : Z) (code message : jsstring) (details : option JsError)
| TriviaJson (trivia keyword mode : jsstring) (retries : nat)
             (model : jsstring) (createdAt : Z).

Record Request := {
  forwardedFor : option jsstring;  (* [req.headers.get("x-forwarded-for")] *)
  json : option JsValue            (* [None]: [req.json()] rejects *)
}.

(** What a call of [POST] leaves behind: the response, the rate-limit
    map, the exchanges with the provider in order, and the keyword
    handed to [logKeyword], if any. *)
Record Outcome := {
  response : ApiResponse;
  rateLimitMapAfter : RateLimitMap;
  exchanges : list Exchange;
  logged : option jsstring
}.

Definition httpStatusOf (r : ApiResponse) : Z :=
  match r with
  | ErrorJson httpStatus _ _ _ => httpStatus
  | TriviaJson _ _ _ _ _ _ => 200
  end.

(** The [catch] of the handler's outer [try]. *)
Definition serverError (error : JsError) : ApiResponse :=
  ErrorJson 500 (js "generation_failed") (js "サーバーエラーが発生しました。") (Some error).

(** The handler from the validation of the keyword on. *)
Definition respond (provider : Provider) (API_KEY : jsstring) (createdAt : Z)
           (configs : list ModelConfig) (keyword : jsstring)
  : ApiResponse * list Exchange * option jsstring :=
  if absent (Some keyword) then
    (ErrorJson 400 (js "validation_error") (js "単語を入れてください。") None, [], None)
  else if (30 <? List.length keyword)%nat then
    (ErrorJson 400 (js "validation_error") (js "30文字以内で入力してください。") None, [], None)
  else
    let '(v, trace) := generate provider API_KEY configs keyword in
    if absent (generatedTrivia v) then
      (ErrorJson 500 (js "generation_failed")
                 (js "トリビアの生成に失敗しました。もう一度お試しください。")
                 (lastError v), trace, None)
    else
      (TriviaJson (default [] (generatedTrivia v)) keyword (js "kitakyushu")
                  (retries v) (usedModel v) createdAt,
       trace, Some keyword).

(** [API_KEY_RAW ? API_KEY_RAW.trim() : ""] *)
Definition apiKey (API_KEY_RAW : option jsstring) : jsstring :=
  if absent API_KEY_RAW then [] else trim (default [] API_KEY_RAW).

(** [forwarded ? forwarded.split(",")[0].trim() : "unknown"] *)
Definition clientAddress (req : Request) : jsstring :=
  let forwarded := forwardedFor req in
  if absent forwarded then js "unknown"
  else trim (beforeComma (default [] forwarded)).

(** [const body = await req.json();
     const keyword: string = (body.keyword || "").trim();] *)
Definition readKeyword (req : Request) : jsstring + JsError :=
  match json req with
  | None => inr JsonSyntaxError
  | Some body =>
    match Js.get body (js "keyword") with
    | None => inr TypeError
    | Some k =>
      match (if Js.truthy k then k else JStr []) with
      | JStr s => inl (trim s)
      | _ => inr TypeError
      end
    end
  end.

(** [POST(req)].  [API_KEY_RAW] is [process.env.GEMINI_API_KEY], [now]
    the reading of [Date.now()] in the rate limiter and [createdAt] the
    instant of [new Date()] in the response (its rendering as an ISO
    string is left out). *)
Definition POST (API_KEY_RAW : option jsstring) (provider : Provider)
           (now createdAt : Z) (req : Request) (rateLimitMap : RateLimitMap)
  : Outcome :=
  let API_KEY := apiKey API_KEY_RAW in
  if absent (Some API_KEY) then
    {| response := ErrorJson 500 (js "config_error") (js "APIキーが設定されていません。") None;
       rateLimitMapAfter := rateLimitMap; exchanges := []; logged := None |}
  else
    let ip := clientAddress req in
    let '(limited, rateLimitMap) := isRateLimited ip now rateLimitMap in
    if limited then
      {| response := ErrorJson 429 (js "rate_limited")
                       (js "ちょっと落ち着いて、もう一口。（1分あたりの上限に達しました）") None;
         rateLimitMapAfter := rateLimitMap; exchanges := []; logged := None |}
    else
      match readKeyword req with
      | inr error =>
        {| response := serverError error; rateLimitMapAfter := rateLimitMap;
           exchanges := []; logged := None |}
      | inl keyword =>
        let '(r, trace, lg) :=
          respond provider API_KEY createdAt MODEL_CONFIGS keyword in
        {| response := r; rateLimitMapAfter := rateLimitMap;
           exchanges := trace; logged := lg |}
      end.

(** * The page, [src/app/page.tsx] *)

Module Page.

Record TriviaItem := { keyword : jsstring; trivia : jsstring; createdAt : Z }.

Definition MAX_HISTORY : nat := 10.


(** [[item, ...history.filter((h) => !(h.keyword === item.keyword &&
    h.trivia === item.trivia))].slice(0, MAX_HISTORY)] *)
Definition newHistory (item : TriviaItem) (history : list TriviaItem)
  : list TriviaItem :=
  firstn MAX_HISTORY
         (item :: List.filter
                    (fun h => negb (eqb (keyword h) (keyword item)
                                    && eqb (trivia h) (trivia item)))
                    history).

(** What a call of [generateTrivia] leaves on the page. *)
Inductive Shown :=
| Failure (message : jsstring)                               (* [setError] *)
| Success (item : TriviaItem) (history : list TriviaItem).   (* [setTrivia], [setHistory] *)

(** [generateTrivia] with [typed] in the input field: the body it posts,
    if any, and what it shows.  [fetch] is the route handler behind
    [/api/trivia], [None] when the call or the reading of the answer
    throws; the handler sends an error body exactly when the status is
    not 2xx, so that [!res.ok] is the test for an error body. *)
Definition generateTrivia (fetch : JsValue -> option ApiResponse)
           (typed : jsstring) (now : Z) (history : list TriviaItem)
  : option JsValue * Shown :=
  let trimmed := trim typed in
  if absent (Some trimmed) then (None, Failure (js "単語を入れてください。"))
  else if (30 <? List.length trimmed)%nat
  then (None, Failure (js "30文字以内で入力してください。"))
  else
    let body := JObj [ (js "keyword", JStr trimmed); (js "nonce", JStr (ofZ now)) ] in
    match fetch body with
    | None => (Some body, Failure (js "通信エラーが発生しました。もう一度お試しください。"))
    | Some (ErrorJson _ _ message _) =>
      (Some body,
       Failure (if absent (Some message) then js "エラーが発生しました。" else message))
    | Some (TriviaJson trivia keyword _ _ _ createdAt) =>
      let item := {| keyword := keyword; trivia := trivia; createdAt := createdAt |} in
      (Some body, Success item (newHistory item history))
    end.

End Page.

(** * The admin routes *)

(** [Buffer.from(s).toString("base64")] *)
Module Buffer.

  (** The code points of a string; a surrogate without its partner is
      read as U+FFFD. *)
Fixpoint codePoints (s : jsstring) : list N :=
    let isHigh c := ((55296 <=? c) && (c <=? 56319))%N in
    let isLow c := ((56320 <=? c) && (c <=? 57343))%N in
    match s with
    | [] => []
    | c :: r =>
      if isHigh c then
        match r with
        | d :: r' =>
          if isLow d
          then (65536 + (c - 55296) * 1024 + (d - 56320))%N :: codePoints r'
          else 65533%N :: codePoints r
        | [] => [65533%N]
        end
      else if isLow c then 65533%N :: codePoints r
      else c :: codePoints r
    end.

Definition utf8_encode (cp : N) : list N :=
    if (cp <? 128)%N then [cp]
    else if (cp <? 2048)%N then [(192 + cp / 64)%N; (128 + cp mod 64)%N]
    else if (cp <? 65536)%N
    then [(224 + cp / 4096)%N; (128 + (cp / 64) mod 64)%N; (128 + cp mod 64)%N]
    else [(240 + cp / 262144)%N; (128 + (cp / 4096) mod 64)%N;
          (128 + (cp / 64) mod 64)%N; (128 + cp mod 64)%N].

  (** [Buffer.from(s)] *)
Definition from (s : jsstring) : list N := flat_map utf8_encode (codePoints s).

  (** The Base64 digit of a number below 64. *)
Definition digit (i : N) : N :=
    if (i <? 26)%N then (65 + i)%N
    else if (i <? 52)%N then (71 + i)%N
    else if (i <? 62)%N then (i - 4)%N
    else if (i =? 62)%N then 43%N
    else 47%N.

  (** [buffer.toString("base64")] *)
Fixpoint base64 (bytes : list N) : jsstring :=
    match bytes with
    | [] => []
    | [a] => [digit (a / 4); digit ((a mod 4) * 16); 61; 61]%N
    | [a; b] =>
      [digit (a / 4); digit ((a mod 4) * 16 + b / 16); digit ((b mod 16) * 4); 61]%N
    | a :: b :: c :: rest =>
      (digit (a / 4) :: digit ((a mod 4) * 16 + b / 16)
             :: digit ((b mod 16) * 4 + c / 64) :: digit (c mod 64)
             :: base64 rest)%N
    end.

End Buffer.

(** ** [src/app/api/admin/login/route.ts] *)

Module Login.

Record Cookie := {
  name : jsstring;
  value : jsstring;
  httpOnly : bool;
  secure : bool;
  sameSite : jsstring;
  maxAge : Z;
  path : jsstring
}.

Record Response := {
  status : Z;
  body : JsValue;
  cookie : option Cookie
}.

  (** [POST(req)].  [json] is what [req.json()] resolves to, [None] when
      it rejects; [ADMIN_PASSWORD] and [NODE_ENV] are the variables of the
      environment and [now] the reading of [Date.now()]. *)
Definition POST (ADMIN_PASSWORD NODE_ENV : option jsstring) (now : Z)
           (json : option JsValue) : Response :=
    let invalid :=
        {| status := 400; body := JObj [ (js "error", JStr (js "Invalid request")) ];
           cookie := None |} in
    match json with
    | None => invalid
    | Some data =>
      match Js.get data (js "password") with
      | None => invalid
      | Some password =>
        let adminPassword := ADMIN_PASSWORD in
        if absent adminPassword then
          {| status := 500;
             body := JObj [ (js "error", JStr (js "ADMIN_PASSWORD not configured")) ];
             cookie := None |}
        else if negb (Js.isStr password (default [] adminPassword)) then
          {| status := 401; body := JObj [ (js "error", JStr (js "Invalid password")) ];
             cookie := None |}
        else
          let token :=
              Buffer.base64
                (Buffer.from (js "admin:" ++ default [] adminPassword
                                 ++ js ":" ++ ofZ now)) in
          {| status := 200; body := JObj [ (js "success", JBool true) ];
             cookie :=
               Some {| name := js "admin_token"; value := token; httpOnly := true;
                       secure := match NODE_ENV with
                                 | Some env => eqb env (js "production")
                                 | None => false
                                 end;
                       sameSite := js "strict"; maxAge := 60 * 60 * 24;
                       path := js "/" |} |}
      end
    end.

End Login.

(** ** The admin statistics route *)

Module Stats.

  (** [isAuthenticated(req)], on the value of the cookie [admin_token],
      if the request has one. *)
Definition isAuthenticated (token : option jsstring) : bool := negb (absent token).

Inductive Response :=
| Unauthorized                                   (* 401 *)
| Statistics (ranking trend genres : JsValue)    (* 200 *)
             (period : jsstring) (currentGenre : option jsstring)
| Failed.                                        (* 500 *)

  (** [GET(req)].  [periodParam] and [genreParam] are what
      [searchParams.get] returns; [fetchStats period genre] is what the
      three readers resolve to, [None] when one of them rejects. *)
Definition GET (token periodParam genreParam : option jsstring)
           (fetchStats : jsstring -> option jsstring
                         -> option (JsValue * JsValue * JsValue))
    : Response :=
    if negb (isAuthenticated token) then Unauthorized
    else
      let period := if absent periodParam then js "all" else default [] periodParam in
      let genre := if absent genreParam then None else genreParam in
      match fetchStats period genre with
      | Some (ranking, trend, genres) =>
        Statistics ranking trend genres period (if absent genre then None else genre)
      | None => Failed
      end.

End Stats.

(** ** The admin page *)

Module AdminPage.

Inductive Shown :=
| Authenticated                        (* [setAuthenticated(true)] *)
| LoginError (message : jsstring).     (* [setLoginError] *)

  (** [handleLogin] with [password] in the field; [fetch] is the login
      route, [None] when the call throws. *)
Definition handleLogin (fetch : JsValue -> option Login.Response)
           (password : jsstring) : Shown :=
    match fetch (JObj [ (js "password", JStr password) ]) with
    | None => LoginError (js "接続エラーが発生しました")
    | Some res =>
      if (200 <=? Login.status res) && (Login.status res <=? 299)
      then Authenticated
      else LoginError (js "パスワードが違います")
    end.

End AdminPage.

(** * The keyword log, [src/lib/redis.ts] *)

Module Redis.

Record Env := {
  UPSTASH_REDIS_REST_URL : option jsstring;
  KV_REST_API_URL : option jsstring;
  UPSTASH_REDIS_REST_TOKEN : option jsstring;
  KV_REST_API_TOKEN : option jsstring
}.

  (** Whether [getRedis] returns a client, on its first call. *)
Definition getRedis (env : Env) : bool :=
    let url := if absent (UPSTASH_REDIS_REST_URL env) then KV_REST_API_URL env
               else UPSTASH_REDIS_REST_URL env in
    let token := if absent (UPSTASH_REDIS_REST_TOKEN env) then KV_REST_API_TOKEN env
                 else UPSTASH_REDIS_REST_TOKEN env in
    negb (absent url || absent token).

  (** The commands of a pipeline. *)
Inductive Command :=
| zincrby (key : jsstring) (increment : Z) (member : jsstring)
| expire (key : jsstring) (seconds : Z)
| incr (key : jsstring)
| hset (key field value : jsstring).

  (** [logKeyword(keyword)]: the pipeline it executes.  [classifyGenre]
      is the function of that name imported from [./genre], and [date]
      what [todayKey()] returns. *)
Definition logKeyword (env : Env) (classifyGenre : jsstring -> jsstring)
           (date : jsstring) (keyword : jsstring) : list Command :=
    if negb (getRedis env) then []
    else
      let normalized := trim keyword in
      if absent (Some normalized) then []
      else
        let genre := classifyGenre normalized in
        [ zincrby (js "keywords:all") 1 normalized;
          zincrby (js "keywords:daily:" ++ date) 1 normalized;
          expire (js "keywords:daily:" ++ date) (60 * 60 * 24 * 31);
          zincrby (js "keywords:genre:" ++ genre) 1 normalized;
          incr (js "stats:daily:" ++ date);
          expire (js "stats:daily:" ++ date) (60 * 60 * 24 * 31);
          hset (js "keywords:genres") normalized genre ].

Record Scored := { member : jsstring; score : JsValue }.

  (** [parseZrangeResult(raw)]; [String] and [Number] are the
      conversions of those names. *)
Fixpoint parseZrangeResult (String : JsValue -> jsstring)
           (Number : JsValue -> JsValue) (raw : list JsValue) : list Scored :=
    match raw with
    | [] => []
    | m :: rest =>
      match rest with
      | [] => [ {| member := String m; score := Number JUndefined |} ]
      | sc :: rest' =>
        {| member := String m; score := Number sc |}
          :: parseZrangeResult String Number rest'
      end
    end.

End Redis.

(** * Vocabulary of the properties *)

(** ** Exchanges, attempts and runs *)

Section Shape.

Variable provider : Provider.
Variable API_KEY : jsstring.

(** What [callGemini] made of the answer of an exchange. *)
Definition settled (x : Exchange) : GeminiResult + JsError :=
  callGemini_settle (received x).

(** The exchange came back with a usable text that was not cut off. *)
Definition yields (x : Exchange) (c : jsstring) : Prop :=
  exists r, settled x = inl r /\ text r = Some c /\ c <> []
            /\ Js.isStr (finishReason r) (js "MAX_TOKENS") = false.

(** [y] is a correction of [x]: [x] gave an out-of-range candidate, and
    [y] carries the conversation of [x] extended by that candidate as a
    model turn and the correction prompt as a user turn. *)
Definition corrects (x y : Exchange) : Prop :=
  exists c, yields x c /\ isValidLength c = false /\
    contents (sent y) =
    contents (sent x) ++ [ {| role := model; parts := c |};
                           {| role := user; parts := getRetryPrompt (List.length c) |} ].

(** Each exchange of [l] corrects the one before it, starting from [x]. *)
Fixpoint chain (x : Exchange) (l : list Exchange) : Prop :=
  match l with
  | [] => True
  | y :: l' => corrects x y /\ chain y l'
  end.

(** The exchange came back without a usable text, or cut off. *)
Definition fruitless (x : Exchange) : Prop :=
  exists r, settled x = inl r
            /\ absent (text r) || Js.isStr (finishReason r) (js "MAX_TOKENS") = true.

(** The request of the exchange was built for the configuration. *)
Definition sentTo (modelConfig : ModelConfig) (x : Exchange) : Prop :=
  sent x = geminiRequest modelConfig API_KEY (contents (sent x)).

(** The trace is what the provider answered, request by request. *)
Definition answered (trace : list Exchange) : Prop :=
  forall i x, nth_error trace i = Some x -> received x = provider i (sent x).

(** The exchanges of a run, grouped by the configuration they went to. *)
Record Attempt := {
  config : ModelConfig;
  opening : Exchange;
  corrections : list Exchange
}.

(** The exchanges of an attempt, in order. *)
Definition attemptTrace (a : Attempt) : list Exchange :=
  opening a :: corrections a.

(** An attempt opens with the one-turn conversation and goes on with at
    most three corrections, chained, all for the same configuration. *)
Definition wellFormed (userPrompt : jsstring) (a : Attempt) : Prop :=
  sent (opening a)
  = geminiRequest (config a) API_KEY [ {| role := user; parts := userPrompt |} ]
  /\ chain (opening a) (corrections a)
  /\ (List.length (corrections a) <= 3)%nat
  /\ Forall (sentTo (config a)) (corrections a).

(** The number of corrections of all the attempts together. *)
Definition correctionCount (attempts : list Attempt) : nat :=
  list_sum (List.map (fun a => List.length (corrections a)) attempts).

(** The last exchange of the attempt gave the candidate [c]. *)
Definition produced (a : Attempt) (c : jsstring) : Prop :=
  yields (List.last (corrections a) (opening a)) c.

End Shape.

(** The corrections of a run are its exchanges that carry more than one turn. *)
Definition isCorrection (x : Exchange) : bool :=
  (1 <? List.length (contents (sent x)))%nat.

(** The request that opens the attempt of a configuration. *)
Definition openingRequest (modelConfig : ModelConfig) (API_KEY keyword : jsstring)
  : GeminiRequest :=
  geminiRequest modelConfig API_KEY [ {| role := user; parts := buildUserPrompt keyword |} ].


(** The answer came back cut off (finish reason MAX_TOKENS). *)
Definition truncated (outcome : FetchOutcome) : Prop :=
  exists r, callGemini_settle outcome = inl r
            /\ Js.isStr (finishReason r) (js "MAX_TOKENS") = true.

(** The usable text of an answer, if it has one. *)
Definition usableText (outcome : FetchOutcome) : option jsstring :=
  match callGemini_settle outcome with
  | inl r => if absent (text r) then None else text r
  | inr _ => None
  end.

(** [t] is strictly longer than the current fallback, or there is none. *)
Definition beats (t : jsstring) (best : option jsstring) : Prop :=
  match best with
  | Some (c :: b) => (List.length (c :: b) < List.length t)%nat
  | _ => True
  end.

(** The error thrown when the opening answer is cut off. *)
Definition truncatedError : JsError :=
  Error (js "レスポンスが途中で切れました (MAX_TOKENS)。").

(** ** The rate limiter over time *)

(** The timestamps of the window that ends at [now]. *)
Definition recentAt (now : Z) (timestamps : list Z) : list Z :=
  List.filter (fun t => now - t <? 60000) timestamps.

(** How many of the timestamps lie in the 60 seconds that start at [t1]. *)
Definition liveSince (t1 : Z) (timestamps : list Z) : nat :=
  List.length (List.filter (fun t => (t1 <=? t) && (t <? t1 + 60000)) timestamps).

(** The decisions for a sequence of calls by one client, at the given
    clock readings ([true] is a rejection). *)
Fixpoint admissions (ip : jsstring) (times : list Z) (rateLimitMap : RateLimitMap)
  : list bool * RateLimitMap :=
  match times with
  | [] => ([], rateLimitMap)
  | now :: rest =>
    let '(limited, rateLimitMap) := isRateLimited ip now rateLimitMap in
    let '(decisions, rateLimitMap) := admissions ip rest rateLimitMap in
    (limited :: decisions, rateLimitMap)
  end.

(** ** Requests and responses *)

(** The request passes the key check, the rate limiter and the
    validation, with [keyword] as its trimmed keyword. *)
Definition reachesGeneration (API_KEY_RAW : option jsstring) (now : Z)
           (req : Request) (m : RateLimitMap) (keyword : jsstring) : Prop :=
  apiKey API_KEY_RAW <> []
  /\ fst (isRateLimited (clientAddress req) now m) = false
  /\ readKeyword req = inl keyword
  /\ keyword <> []
  /\ (List.length keyword <= 30)%nat.

(** The error that ends a run without a text. *)
Definition generationFailed (details : option JsError) : ApiResponse :=
  ErrorJson 500 (js "generation_failed")
            (js "トリビアの生成に失敗しました。もう一度お試しください。") details.




(** ** Example providers, requests and maps *)

(** A 200 response whose first candidate has one text part and the given
    finish reason. *)
Definition answer (t : jsstring) (reason : jsstring) : FetchOutcome :=
  Responded
    {| status := 200; bodyText := [];
       bodyJson :=
         Some (JObj [ (js "candidates",
                       JArr [ JObj [ (js "content",
                                      JObj [ (js "parts",
                                              JArr [ JObj [ (js "text", JStr t) ] ]) ]);
                                     (js "finishReason", JStr reason) ] ]) ]) |}.

(** The answer of a provider that does not know the model. *)
Definition notFound : FetchOutcome :=
  Responded {| status := 404; bodyText := js "model not found"; bodyJson := None |}.

(** [n] times the letter a. *)
Definition letters (n : nat) : jsstring := repeat 97%N n.

(** A provider that cannot be reached. *)
Definition silent : Provider := fun _ _ => Rejected (FetchFailed []).

(** A provider that always returns twelve letters. *)
Definition stubborn : Provider := fun _ _ => answer (letters 12) (js "STOP").

(** Twelve letters to the first four requests, eighty to the fifth. *)
Definition lateSuccess : Provider :=
  fun n _ => if (n <? 4)%nat then answer (letters 12) (js "STOP")
             else answer (letters 80) (js "STOP").

(** Sixty letters first, eighty-five afterwards. *)
Definition improving : Provider :=
  fun n _ => match n with
             | O => answer (letters 60) (js "STOP")
             | _ => answer (letters 85) (js "STOP")
             end.

(** Every opening answer is cut off after twelve letters. *)
Definition cutOff : Provider := fun _ _ => answer (letters 12) (js "MAX_TOKENS").

(** A well-formed request from a forwarded address. *)
Definition ramenRequest : Request :=
  {| forwardedFor := Some (js "203.0.113.7, 10.0.0.1");
     json := Some (JObj [ (js "keyword", JStr (js " ラーメン ")) ]) |}.

(** A request whose keyword is blank, from a client without address. *)
Definition blankRequest : Request :=
  {| forwardedFor := None;
     json := Some (JObj [ (js "keyword", JStr (js "   ")) ]) |}.

(** The client without address is at its limit. *)
Definition crowded : RateLimitMap :=
  {[ js "unknown" := [0; 1; 2; 3; 4; 5; 6; 7; 8; 9] ]}.

(** ** Responses of the provider, by their parts *)

(** [{ candidates: [ { content: { parts } } ] }] *)
Definition responseWith (parts : list JsValue) : JsValue :=
  JObj [ (js "candidates",
          JArr [ JObj [ (js "content", JObj [ (js "parts", JArr parts) ]) ] ]) ].

(** A part [{ text }], or [{ thought: true, text }] for the model's
    reasoning. *)
Definition part (p : bool * jsstring) : JsValue :=
  if fst p then JObj [ (js "thought", JBool true); (js "text", JStr (snd p)) ]
  else JObj [ (js "text", JStr (snd p)) ].

(** The texts that count: trimmed, of the parts that are not thoughts,
    the blank ones left out. *)
Definition visibleTexts (ps : list (bool * jsstring)) : list jsstring :=
  List.filter (fun t => (0 <? List.length t)%nat)
              (List.map (fun p => trim (snd p))
                        (List.filter (fun p => negb (fst p)) ps)).

(** No white space at either end. *)
Definition tidy (s : jsstring) : Prop :=
  trimStart s = s /\ trimStart (rev s) = rev s.

(** ** The rate limiter under arbitrary use *)

(** What can happen to the rate-limit map: a check for a client, or the
    periodic sweep, each at some reading of the clock. *)
Inductive LimiterEvent :=
| Checked (ip : jsstring) (now : Z)
| Swept (now : Z).

Fixpoint afterEvents (events : list LimiterEvent) (rateLimitMap : RateLimitMap)
  : RateLimitMap :=
  match events with
  | [] => rateLimitMap
  | Checked ip now :: rest => afterEvents rest (snd (isRateLimited ip now rateLimitMap))
  | Swept now :: rest => afterEvents rest (sweep now rateLimitMap)
  end.

(** How many of the decisions are admissions. *)
Definition admitted (decisions : list bool) : nat :=
  List.length (List.filter negb decisions).

(** ** Reading responses of the handler *)

(** The [code] of an error body. *)
Definition errorCode (r : ApiResponse) : option jsstring :=
  match r with
  | ErrorJson _ code _ _ => Some code
  | TriviaJson _ _ _ _ _ _ => None
  end.

(** The keyword a success echoes. *)
Definition echoedKeyword (r : ApiResponse) : option jsstring :=
  match r with
  | TriviaJson _ keyword _ _ _ _ => Some keyword
  | ErrorJson _ _ _ _ => None
  end.

(** The string has a character that is not white space. *)
Definition hasInk (s : jsstring) : Prop :=
  exists c, In c s /\ isWhite c = false.

(** ** Conversations *)

(** The conversations the orchestrator sends: the opening prompt as a
    user turn, then pairs of an out-of-range candidate as a model turn
    and the correction prompt for its length as a user turn. *)
Inductive dialogue (userPrompt : jsstring) : list Message -> Prop :=
| dialogue_open :
    dialogue userPrompt [ {| role := user; parts := userPrompt |} ]
| dialogue_more (messages : list Message) (candidate : jsstring) :
    dialogue userPrompt messages ->
    isValidLength candidate = false ->
    dialogue userPrompt
             (messages ++ [ {| role := model; parts := candidate |};
                            {| role := user;
                               parts := getRetryPrompt (List.length candidate) |} ]).

(** ** Candidates of a run *)

(** The candidate the orchestrator takes from an exchange: the text of
    an opening answer, cut off or not, and the text of a correction that
    was not cut off. *)
Definition candidateOf (x : Exchange) : option jsstring :=
  match settled x with
  | inl r =>
    if absent (text r) then None
    else if isCorrection x && Js.isStr (finishReason r) (js "MAX_TOKENS") then None
    else text r
  | inr _ => None
  end.

(** Between two readings [best] and [best'] of [bestCandidate] the
    exchanges [new] took place: the later reading is the earlier one or
    a candidate of [new], and it is at least as long as all of them. *)
Definition keepsBest (best best' : option jsstring) (new : list Exchange) : Prop :=
  (forall t, best' = Some t ->
             best = Some t \/ exists x, In x new /\ candidateOf x = Some t)
  /\ (forall x t, In x new -> candidateOf x = Some t ->
                  exists t', best' = Some t' /\ (List.length t <= List.length t')%nat)
  /\ (forall t, best = Some t ->
                exists t', best' = Some t' /\ (List.length t <= List.length t')%nat).

(** The opening answer made the orchestrator go on to the next
    configuration: no text, finish reason NOT_FOUND. *)
Definition passedOver (x : Exchange) : Prop :=
  exists r, settled x = inl r /\ absent (text r) = true
            /\ Js.isStr (finishReason r) (js "NOT_FOUND") = true.

(** A provider that always returns five letters. *)
Definition terse : Provider := fun _ _ => answer (letters 5) (js "STOP").

(** A provider that always returns eighty letters. *)
Definition ready : Provider := fun _ _ => answer (letters 80) (js "STOP").

(** ** The page and the handler together *)

(** The route handler as the page reaches it. *)
Definition handler (API_KEY_RAW : option jsstring) (provider : Provider)
           (now createdAt : Z) (forwarded : option jsstring) (m : RateLimitMap)
  : JsValue -> option ApiResponse :=
  fun body =>
    Some (response (POST API_KEY_RAW provider now createdAt
                         {| forwardedFor := forwarded; json := Some body |} m)).

(** The keyword and text of the entries of a history. *)
Definition entries (history : list Page.TriviaItem) : list (jsstring * jsstring) :=
  List.map (fun h => (Page.keyword h, Page.trivia h)) history.

(** The history after the items were shown one after the other. *)
Fixpoint historyAfter (items history : list Page.TriviaItem) : list Page.TriviaItem :=
  match items with
  | [] => history
  | item :: rest => historyAfter rest (Page.newHistory item history)
  end.

(** ** Reading a Base64 text *)

(** The number a Base64 digit stands for. *)
Definition digitValue (c : N) : N :=
  if ((65 <=? c) && (c <=? 90))%N then (c - 65)%N
  else if ((97 <=? c) && (c <=? 122))%N then (c - 71)%N
  else if ((48 <=? c) && (c <=? 57))%N then (c + 4)%N
  else if (c =? 43)%N then 62%N
  else 63%N.

(** The bytes a padded Base64 text stands for. *)
Fixpoint base64_decode (s : jsstring) : list N :=
  match s with
  | c1 :: c2 :: c3 :: c4 :: rest =>
    let i1 := digitValue c1 in
    let i2 := digitValue c2 in
    let i3 := digitValue c3 in
    let i4 := digitValue c4 in
    if (c3 =? 61)%N then [(i1 * 4 + i2 / 16)%N]
    else if (c4 =? 61)%N then [(i1 * 4 + i2 / 16)%N; ((i2 mod 16) * 16 + i3 / 4)%N]
    else ((i1 * 4 + i2 / 16) :: ((i2 mod 16) * 16 + i3 / 4) :: ((i3 mod 4) * 64 + i4)
            :: base64_decode rest)%N
  | _ => []
  end.

(** The text the login route encodes. *)
Definition tokenText (password : jsstring) (now : Z) : jsstring :=
  js "admin:" ++ password ++ js ":" ++ ofZ now.

(** ** The admin page and the login route *)

(** The login route as the admin page reaches it. *)
Definition loginRoute (ADMIN_PASSWORD NODE_ENV : option jsstring) (now : Z)
  : JsValue -> option Login.Response :=
  fun body => Some (Login.POST ADMIN_PASSWORD NODE_ENV now (Some body)).

(** ** Replies of the sorted-set reader *)

(** A reply with scores: member, score, member, score, ... *)
Definition flatReply (pairs : list (JsValue * JsValue)) : list JsValue :=
  flat_map (fun p => [fst p; snd p]) pairs.

(** * Properties *)

(** ** Shape of the exchanges of one configuration *)

Section Exchanges.

Variable provider : Provider.
Variable API_KEY : jsstring.

Local Abbreviation sentTo := (sentTo API_KEY).
Local Abbreviation answered := (answered provider).
Local Abbreviation wellFormed := (wellFormed API_KEY).

Lemma absent_false (s : option jsstring) :
  absent s = false -> exists c, s = Some c /\ c <> [].
Proof.
  destruct s as [[|a c]|]; simpl; try discriminate.
  intros _. exists (a :: c). split; [reflexivity | discriminate].
Qed.

Lemma absent_some (c : jsstring) : c <> [] -> absent (Some c) = false.
Proof. destruct c; [congruence | reflexivity]. Qed.

Lemma fruitless_no_yield (x : Exchange) :
  fruitless x -> forall c, ~ yields x c.
Proof.
  intros (r & Hr & Hstop) c (r' & Hr' & Htext & Hne & Hmax).
  rewrite Hr in Hr'. injection Hr' as <-.
  rewrite Htext, (absent_some c Hne), Hmax in Hstop. discriminate.
Qed.

Lemma valid_nonempty (c : jsstring) : isValidLength c = true -> c <> [].
Proof. intros H ->. discriminate H. Qed.

Lemma isValidLength_range (c : jsstring) :
  isValidLength c = true <-> (70 <= List.length c <= 100)%nat.
Proof.
  unfold isValidLength. rewrite andb_true_iff, !Nat.leb_le. reflexivity.
Qed.

Lemma callGemini_eq (modelConfig : ModelConfig) (messages : list Message)
      (trace : list Exchange) :
  callGemini provider modelConfig API_KEY messages trace =
  (callGemini_settle (provider (List.length trace)
                               (geminiRequest modelConfig API_KEY messages)),
   trace ++ [ {| sent := geminiRequest modelConfig API_KEY messages;
                 received := provider (List.length trace)
                                      (geminiRequest modelConfig API_KEY messages) |} ]).
Proof. reflexivity. Qed.

Lemma answered_snoc (trace : list Exchange) (x : Exchange) :
  answered trace -> received x = provider (List.length trace) (sent x) ->
  answered (trace ++ [x]).
Proof.
  intros Ht Hx i y Hi.
  destruct (Nat.lt_ge_cases i (List.length trace)) as [Hlt|Hge].
  - rewrite nth_error_app1 in Hi by exact Hlt. eauto.
  - rewrite nth_error_app2 in Hi by exact Hge.
    destruct (i - List.length trace)%nat as [|k] eqn:Hk; simpl in Hi.
    + injection Hi as <-. replace i with (List.length trace) by lia. exact Hx.
    + destruct k; discriminate Hi.
Qed.

Lemma last_cons_default {A} (x d : A) (l : list A) :
  List.last (x :: l) d = List.last l x.
Proof.
  revert x d. induction l as [|y l IH]; intros x d; [reflexivity|].
  change (List.last (y :: l) d = List.last (y :: l) x).
  rewrite (IH y d), (IH y x). reflexivity.
Qed.

Lemma track_fields (c : jsstring) (v : Vars) :
  lastError (track c v) = lastError v
  /\ generatedTrivia (track c v) = generatedTrivia v
  /\ retries (track c v) = retries v
  /\ usedModel (track c v) = usedModel v.
Proof. unfold track. destruct (_ || _); simpl; auto. Qed.

(** What the retry loop leaves behind, in terms of the exchanges it adds. *)
Lemma retryLoop_spec (remaining : nat) (modelConfig : ModelConfig) :
  forall (messages : list Message) (candidate : jsstring) (v : Vars)
         (trace : list Exchange) (x0 : Exchange) res v' trace',
    contents (sent x0) = messages ->
    yields x0 candidate ->
    retryLoop provider API_KEY remaining modelConfig messages candidate v trace
    = (res, v', trace') ->
    exists new,
      trace' = trace ++ new
      /\ (answered trace -> answered trace')
      /\ chain x0 new
      /\ (List.length new <= remaining)%nat
      /\ Forall (sentTo modelConfig) new
      /\ retries v' = (retries v + List.length new)%nat
      /\ lastError v' = lastError v
      /\ generatedTrivia v' = generatedTrivia v
      /\ usedModel v' = usedModel v
      /\ match res with
         | inl c =>
           yields (List.last new x0) c
           \/ (isValidLength c = false /\
               exists new0 w, new = new0 ++ [w]
                              /\ (forall c', ~ yields w c')
                              /\ yields (List.last new0 x0) c)
         | inr e => exists new0 w, new = new0 ++ [w] /\ settled w = inr e
         end.
Proof.
  induction remaining as [|n IH]; intros messages candidate v trace x0 res v' trace'
    Hmsg Hy Hrun; cbn [retryLoop] in Hrun.
  - injection Hrun as <- <- <-. exists []. rewrite app_nil_r. simpl.
    repeat split; auto.
  - destruct (isValidLength candidate) eqn:Hvalid.
    { injection Hrun as <- <- <-. exists []. rewrite app_nil_r. simpl.
      repeat split; auto with arith. }
    rewrite callGemini_eq in Hrun.
    set (messages' := messages ++ _) in Hrun.
    set (request := geminiRequest modelConfig API_KEY messages') in Hrun.
    set (x := {| sent := request; received := provider (List.length trace) request |}) in Hrun.
    assert (Hx : corrects x0 x).
    { exists candidate. repeat split; auto. simpl. rewrite Hmsg. reflexivity. }
    assert (Hans' : answered trace -> answered (trace ++ [x]))
      by (intros Hans; apply answered_snoc; auto).
    assert (Hto : sentTo modelConfig x) by reflexivity.
    destruct (callGemini_settle _) as [r|e] eqn:Hsettle.
    + destruct (absent (text r) || Js.isStr (finishReason r) (js "MAX_TOKENS")) eqn:Hstop.
      * injection Hrun as <- <- <-. exists [x]. simpl.
        repeat split; auto; try lia.
        right. split; [exact Hvalid|]. exists [], x. repeat split; auto.
        intros c' (r' & Hr' & Htext & Hne & Hfin).
        unfold settled in Hr'. simpl in Hr'. rewrite Hsettle in Hr'.
        injection Hr' as <-. apply orb_true_iff in Hstop as [Habs|Hmax].
        -- rewrite Htext, absent_some in Habs by exact Hne. discriminate.
        -- congruence.
      * apply orb_false_iff in Hstop as [Habs Hmax].
        destruct (absent_false _ Habs) as (c & Hc & Hne).
        rewrite Hc in Hrun. simpl in Hrun.
        assert (Hyx : yields x c).
        { exists r. repeat split; auto. }
        destruct (IH _ _ _ _ x _ _ _ eq_refl Hyx Hrun)
          as (new & -> & Hans'' & Hchain & Hlen & Hall & Hret & Herr & Hgen & Hused & Hres).
        destruct (track_fields c (countRetry v)) as (Te & Tg & Tr & Tu).
        exists (x :: new). rewrite <- app_assoc in *. simpl app in *.
        rewrite last_cons_default.
        repeat split; auto; try (simpl; lia);
          try (rewrite Hret, Tr; simpl; lia);
          try (rewrite Herr; exact Te);
          try (rewrite Hgen; exact Tg);
          try (rewrite Hused; exact Tu).
        destruct res as [c'|e].
        -- destruct Hres as [Hlast|(Hinv & new0 & w & -> & Hno & Hlast)].
           ++ left. exact Hlast.
           ++ right. split; [exact Hinv|]. exists (x :: new0), w.
              rewrite last_cons_default. repeat split; auto.
        -- destruct Hres as (new0 & w & -> & Hw). exists (x :: new0), w. auto.
    + injection Hrun as <- <- <-. exists [x]. simpl.
      repeat split; auto; try lia.
      exists [], x. split; [reflexivity | exact Hsettle].
Qed.

(** One iteration of the loop over the configurations: a first exchange
    with the one-turn conversation, then a chain of at most three
    corrections, all sent to the same configuration. *)
Lemma iteration_spec (modelConfig : ModelConfig) (userPrompt : jsstring)
      (v : Vars) (trace : list Exchange) (b : bool) (v' : Vars)
      (trace' : list Exchange) :
  iteration provider API_KEY modelConfig userPrompt v trace = (b, v', trace') ->
  exists x new,
    trace' = trace ++ x :: new
    /\ (answered trace -> answered trace')
    /\ sent x = geminiRequest modelConfig API_KEY [ {| role := user; parts := userPrompt |} ]
    /\ chain x new
    /\ (List.length new <= 3)%nat
    /\ Forall (sentTo modelConfig) new
    /\ retries v' = (retries v + List.length new)%nat
    /\ (if b then
          exists c, generatedTrivia v' = Some c /\ isValidLength c = true
                    /\ usedModel v' = name modelConfig
                    /\ yields (List.last new x) c
        else generatedTrivia v' = generatedTrivia v /\ usedModel v' = usedModel v)
    /\ (forall new0 w,
          new = new0 ++ [w] -> fruitless w ->
          exists c, yields (List.last new0 x) c /\ isValidLength c = false
                    /\ b = false /\
                    lastError v' =
                    Some (Error (js "文字数が範囲外です（"
                                 ++ ofNat (List.length c) ++ js "文字）。"))).
Proof.
  intros Hrun. unfold iteration, tryBlock in Hrun.
  rewrite callGemini_eq in Hrun.
  set (messages := [ {| role := user; parts := userPrompt |} ]) in *.
  set (request := geminiRequest modelConfig API_KEY messages) in *.
  set (x := {| sent := request; received := provider (List.length trace) request |}) in *.
  assert (Hans' : answered trace -> answered (trace ++ [x]))
    by (intros Hans; apply answered_snoc; auto).
  assert (Hnil : forall (new0 : list Exchange) w, [] <> new0 ++ [w])
    by (intros [|? ?] ?; discriminate).
  destruct (callGemini_settle _) as [r|e] eqn:Hsettle.
  2:{ injection Hrun as <- <- <-. exists x, []. simpl.
      repeat split; auto. intros new0 w Hnew. destruct (Hnil _ _ Hnew). }
  destruct (absent (text r)) eqn:Habs.
  { destruct (Js.isStr (finishReason r) (js "NOT_FOUND"));
      injection Hrun as <- <- <-; exists x, []; simpl;
      repeat split; auto; intros new0 w Hnew; destruct (Hnil _ _ Hnew). }
  destruct (absent_false _ Habs) as (c & Hc & Hne).
  rewrite Hc in Hrun. simpl default in Hrun.
  destruct (Js.isStr (finishReason r) (js "MAX_TOKENS")) eqn:Hmax.
  { injection Hrun as <- <- <-. exists x, []. simpl.
    destruct (track_fields c v) as (_ & Tg & Tr & Tu).
    repeat split; auto; try (rewrite ?Nat.add_0_r; congruence);
      intros new0 w Hnew; destruct (Hnil _ _ Hnew). }
  assert (Hyx : yields x c) by (exists r; repeat split; auto).
  destruct (retryLoop _ _ _ _ _ _ _ _) as [[res v1] trace1] eqn:Hloop.
  destruct (retryLoop_spec _ _ _ _ _ _ x _ _ _ eq_refl Hyx Hloop)
    as (new & -> & Hans1 & Hchain & Hlen & Hall & Hret & Herr & Hgen & Hused & Hres).
  destruct (track_fields c v) as (Te & Tg & Tr & Tu).
  rewrite <- app_assoc in *. simpl app in *.
  destruct res as [c1|e].
  - destruct (isValidLength c1) eqn:Hvalid; injection Hrun as <- <- <-;
      exists x, new; simpl; repeat split; auto; try congruence.
    + exists c1. repeat split; auto.
      destruct Hres as [Hlast|(Hinv & _)]; [exact Hlast | congruence].
    + intros new0 w -> Hfr;
      pose proof (fruitless_no_yield _ Hfr) as Hno; destruct Hfr as (r' & Hw & _). exfalso.
      destruct Hres as [Hlast|(Hinv & _)]; [|congruence].
      rewrite last_last in Hlast. exact (Hno _ Hlast).
    + intros new0 w -> Hfr;
      pose proof (fruitless_no_yield _ Hfr) as Hno; destruct Hfr as (r' & Hw & _).
      destruct Hres as [Hlast|(_ & new0' & w' & Heq & _ & Hlast)].
      * rewrite last_last in Hlast. destruct (Hno _ Hlast).
      * apply app_inj_tail in Heq as [<- <-]. exists c1. auto.
  - injection Hrun as <- <- <-. exists x, new. simpl.
    repeat split; auto; try congruence.
    intros new0 w -> Hfr;
      pose proof (fruitless_no_yield _ Hfr) as Hno; destruct Hfr as (r' & Hw & _). destruct Hres as (new0' & w' & Heq & Hw').
    apply app_inj_tail in Heq as [<- <-]. congruence.
Qed.

(** ** Shape of a whole run *)

Lemma correctionCount_snoc (attempts : list Attempt) (a : Attempt) :
  correctionCount (attempts ++ [a])
  = (correctionCount attempts + List.length (corrections a))%nat.
Proof.
  unfold correctionCount. rewrite List.map_app, list_sum_app. simpl. lia.
Qed.

Lemma outerLoop_spec (userPrompt : jsstring) (configs : list ModelConfig) :
  forall (v : Vars) (trace : list Exchange) v' trace',
    outerLoop provider API_KEY configs userPrompt v trace = (v', trace') ->
    exists (attempts : list Attempt) (rest : list ModelConfig),
      trace' = trace ++ flat_map attemptTrace attempts
      /\ (answered trace -> answered trace')
      /\ configs = List.map config attempts ++ rest
      /\ Forall (wellFormed userPrompt) attempts
      /\ retries v' = (retries v + correctionCount attempts)%nat
      /\ ((rest = [] /\ generatedTrivia v' = generatedTrivia v
                     /\ usedModel v' = usedModel v)
          \/ (exists earlier a c,
                 attempts = earlier ++ [a]
                 /\ generatedTrivia v' = Some c
                 /\ isValidLength c = true
                 /\ usedModel v' = name (config a)
                 /\ produced a c)).
Proof.
  induction configs as [|modelConfig configs IH]; intros v trace v' trace' Hrun;
    cbn [outerLoop] in Hrun.
  - injection Hrun as <- <-. exists [], []. simpl. rewrite app_nil_r.
    repeat split; auto.
  - destruct (iteration _ _ _ _ _ _) as [[b v1] trace1] eqn:Hit.
    destruct (iteration_spec _ _ _ _ _ _ _ Hit)
      as (x & new & -> & Hans1 & Hsent & Hchain & Hlen & Hall & Hret & Hb & _).
    set (a := {| config := modelConfig; opening := x; corrections := new |}).
    assert (Ha : wellFormed userPrompt a) by (repeat split; assumption).
    destruct b.
    + injection Hrun as <- <-. exists [a], configs. simpl. rewrite app_nil_r.
      repeat split; auto.
      * unfold correctionCount. simpl. lia.
      * right. destruct Hb as (c & Hgen & Hvalid & Hused & Hlast).
        exists [], a, c. repeat split; auto.
    + destruct (IH _ _ _ _ Hrun)
        as (attempts & rest & -> & Hans2 & -> & Hwf & Hret2 & Hend).
      exists (a :: attempts), rest. simpl. rewrite <- app_assoc in *. simpl.
      destruct Hb as [Hgen Hused].
      repeat split; auto.
      * rewrite Hret2, Hret. unfold correctionCount. simpl. lia.
      * destruct Hend as [(-> & Hg & Hu)|(earlier & a' & c & -> & Hg & Hvalid & Hu & Hlast)].
        -- left. repeat split; congruence.
        -- right. exists (a :: earlier), a', c. repeat split; auto.
Qed.

End Exchanges.

(** ** The rate limiter *)

(** [isRateLimited] without the redundant second [set]. *)
Lemma isRateLimited_eq (ip : jsstring) (now : Z) (m : RateLimitMap) :
  isRateLimited ip now m =
  let recent := recentAt now (default [] (m !! ip)) in
  if (10 <=? List.length recent)%nat then (true, <[ip := recent]> m)
  else (false, <[ip := recent ++ [now]]> m).
Proof.
  unfold isRateLimited, recentAt, RATE_LIMIT_PER_MINUTE. cbv zeta.
  destruct (_ <=? _)%nat; [reflexivity|].
  rewrite insert_insert_eq. reflexivity.
Qed.

(** One admission check, seen through the entry of the client. *)
Lemma admission_entry (ip : jsstring) (m : RateLimitMap) (now : Z) :
  fst (isRateLimited ip now m)
  = (10 <=? List.length (recentAt now (default [] (m !! ip))))%nat
  /\ snd (isRateLimited ip now m) !! ip
     = Some (if (10 <=? List.length (recentAt now (default [] (m !! ip))))%nat
             then recentAt now (default [] (m !! ip))
             else recentAt now (default [] (m !! ip)) ++ [now]).
Proof.
  rewrite isRateLimited_eq. cbv zeta.
  destruct (10 <=? _)%nat; simpl; split; auto; apply lookup_insert_eq.
Qed.



Lemma recentAt_length (now : Z) (l : list Z) :
  (List.length (recentAt now l) <= List.length l)%nat.
Proof.
  unfold recentAt. induction l as [|t l IH]; simpl; [lia|].
  destruct (_ <? _); simpl; lia.
Qed.




Lemma liveSince_recentAt (t1 now : Z) (l : list Z) :
  t1 <= now < t1 + 60000 -> liveSince t1 (recentAt now l) = liveSince t1 l.
Proof.
  intros Hnow. unfold liveSince, recentAt. induction l as [|t l IH]; [reflexivity|].
  simpl. destruct (Z.ltb_spec (now - t) 60000); simpl.
  - destruct (_ && _); simpl; congruence.
  - destruct (Z.leb_spec t1 t); simpl; [lia | exact IH].
Qed.

Lemma liveSince_le (t1 : Z) (l : list Z) : (liveSince t1 l <= List.length l)%nat.
Proof.
  unfold liveSince. induction l as [|t l IH]; simpl; [lia|].
  destruct (_ && _); simpl; lia.
Qed.

Lemma liveSince_snoc (t1 t : Z) (l : list Z) :
  t1 <= t < t1 + 60000 -> liveSince t1 (l ++ [t]) = S (liveSince t1 l).
Proof.
  intros Ht. unfold liveSince. rewrite List.filter_app, length_app. simpl.
  destruct (Z.leb_spec t1 t); [|lia]. destruct (Z.ltb_spec t (t1 + 60000)); [|lia].
  simpl. lia.
Qed.


Lemma recentAt_recentAt (swept now : Z) (l : list Z) :
  swept <= now -> recentAt now (recentAt swept l) = recentAt now l.
Proof.
  intros Hle. unfold recentAt. induction l as [|t l IH]; [reflexivity|]. simpl.
  destruct (Z.ltb_spec (swept - t) 60000); simpl; rewrite IH; [reflexivity|].
  destruct (Z.ltb_spec (now - t) 60000); [lia | reflexivity].
Qed.

Lemma sweep_entry (swept : Z) (m : RateLimitMap) (ip : jsstring) :
  default [] (sweep swept m !! ip) = recentAt swept (default [] (m !! ip)).
Proof.
  unfold sweep. rewrite lookup_omap. destruct (m !! ip) as [l|]; [|reflexivity].
  simpl. unfold sweepEntry. fold (recentAt swept l).
  destruct (recentAt swept l); reflexivity.
Qed.

(** The five-minute sweep only forgets what the next check would drop
    anyway: it changes no later decision. *)
Lemma sweep_keeps_decisions (swept now : Z) (m : RateLimitMap) (ip : jsstring) :
  swept <= now ->
  fst (isRateLimited ip now (sweep swept m)) = fst (isRateLimited ip now m).
Proof.
  intros Hle.
  destruct (admission_entry ip (sweep swept m) now) as [-> _].
  destruct (admission_entry ip m now) as [-> _].
  rewrite sweep_entry, recentAt_recentAt by assumption. reflexivity.
Qed.

(** With a key and a client at its limit, the answer is the 429. *)
Lemma POST_rate_limited (API_KEY_RAW : option jsstring) (provider : Provider)
      (now createdAt : Z) (req : Request) (m : RateLimitMap) :
  apiKey API_KEY_RAW <> [] ->
  fst (isRateLimited (clientAddress req) now m) = true ->
  POST API_KEY_RAW provider now createdAt req m =
  {| response := ErrorJson 429 (js "rate_limited")
                   (js "ちょっと落ち着いて、もう一口。（1分あたりの上限に達しました）") None;
     rateLimitMapAfter := snd (isRateLimited (clientAddress req) now m);
     exchanges := []; logged := None |}.
Proof.
  intros Hkey Hlim. unfold POST. rewrite (absent_some _ Hkey).
  destruct (isRateLimited _ _ _) as [limited m']. simpl in *. subst limited.
  reflexivity.
Qed.



(** ** The finish reason *)




(** ** The handler, check by check *)

(** Without a key nothing else happens. *)
Lemma POST_no_key (API_KEY_RAW : option jsstring) (provider : Provider)
      (now createdAt : Z) (req : Request) (m : RateLimitMap) :
  apiKey API_KEY_RAW = [] ->
  POST API_KEY_RAW provider now createdAt req m =
  {| response := ErrorJson 500 (js "config_error") (js "APIキーが設定されていません。") None;
     rateLimitMapAfter := m; exchanges := []; logged := None |}.
Proof. intros Hkey. unfold POST. rewrite Hkey. reflexivity. Qed.

(** With a key and an admitted client, the body decides. *)
Lemma POST_admitted (API_KEY_RAW : option jsstring) (provider : Provider)
      (now createdAt : Z) (req : Request) (m : RateLimitMap) :
  apiKey API_KEY_RAW <> [] ->
  fst (isRateLimited (clientAddress req) now m) = false ->
  POST API_KEY_RAW provider now createdAt req m =
  match readKeyword req with
  | inr error =>
    {| response := serverError error;
       rateLimitMapAfter := snd (isRateLimited (clientAddress req) now m);
       exchanges := []; logged := None |}
  | inl keyword =>
    let '(r, trace, lg) :=
      respond provider (apiKey API_KEY_RAW) createdAt MODEL_CONFIGS keyword in
    {| response := r;
       rateLimitMapAfter := snd (isRateLimited (clientAddress req) now m);
       exchanges := trace; logged := lg |}
  end.
Proof.
  intros Hkey Hlim. unfold POST. rewrite (absent_some _ Hkey).
  destruct (isRateLimited _ _ _) as [limited m']. simpl in *. subst limited.
  reflexivity.
Qed.

Lemma respond_invalid (provider : Provider) (API_KEY : jsstring) (createdAt : Z)
      (configs : list ModelConfig) (keyword : jsstring) :
  keyword = [] \/ (30 < List.length keyword)%nat ->
  exists message,
    respond provider API_KEY createdAt configs keyword
    = (ErrorJson 400 (js "validation_error") message None, [], None).
Proof.
  intros [-> | Hlong]; unfold respond.
  - eexists. reflexivity.
  - destruct keyword as [|c keyword]; [simpl in Hlong; lia|]. simpl absent.
    cbv iota. destruct (Nat.ltb_spec 30 (List.length (c :: keyword))); [|lia].
    eexists. reflexivity.
Qed.

Lemma respond_valid (provider : Provider) (API_KEY : jsstring) (createdAt : Z)
      (configs : list ModelConfig) (keyword : jsstring) :
  keyword <> [] -> (List.length keyword <= 30)%nat ->
  respond provider API_KEY createdAt configs keyword =
  let '(v, trace) := generate provider API_KEY configs keyword in
  if absent (generatedTrivia v) then
    (ErrorJson 500 (js "generation_failed")
               (js "トリビアの生成に失敗しました。もう一度お試しください。")
               (lastError v), trace, None)
  else
    (TriviaJson (default [] (generatedTrivia v)) keyword (js "kitakyushu")
                (retries v) (usedModel v) createdAt,
     trace, Some keyword).
Proof.
  intros Hne Hlen. unfold respond. rewrite (absent_some _ Hne).
  destruct (Nat.ltb_spec 30 (List.length keyword)); [lia | reflexivity].
Qed.

(** The provider is not reached unless the keyword passes validation. *)
Lemma POST_invalid_no_exchange (API_KEY_RAW : option jsstring) (provider : Provider)
      (now createdAt : Z) (req : Request) (m : RateLimitMap) (keyword : jsstring) :
  readKeyword req = inl keyword ->
  keyword = [] \/ (30 < List.length keyword)%nat ->
  exchanges (POST API_KEY_RAW provider now createdAt req m) = []
  /\ logged (POST API_KEY_RAW provider now createdAt req m) = None.
Proof.
  intros Hread Hbad. unfold POST.
  destruct (absent (Some (apiKey API_KEY_RAW))); [auto|].
  destruct (isRateLimited _ _ _) as [[|] m']; [auto|].
  rewrite Hread.
  destruct (respond_invalid provider (apiKey API_KEY_RAW) createdAt MODEL_CONFIGS
                            keyword Hbad) as (message & ->).
  auto.
Qed.

(** C6, as stated, fails: the keyword is empty after trimming, yet the
    answer is the rate-limit error, not a validation error. *)
Lemma empty_keyword_not_validation_error :
  readKeyword blankRequest = inl []
  /\ response (POST (Some (js "key")) silent 100 100 blankRequest crowded)
     = ErrorJson 429 (js "rate_limited")
         (js "ちょっと落ち着いて、もう一口。（1分あたりの上限に達しました）") None
  /\ httpStatusOf (response (POST (Some (js "key")) silent 100 100 blankRequest crowded))
     <> 400.
Proof. vm_compute. repeat split. discriminate. Qed.

(** C6, amended. When the keyword is empty after trimming or longer than
    30 characters, the provider is never invoked; and when moreover the
    API key is configured and the rate limiter admits the client, the
    answer is [validation_error] with status 400. *)
Theorem invalid_keyword_rejected (API_KEY_RAW : option jsstring) (provider : Provider)
        (now createdAt : Z) (req : Request) (m : RateLimitMap) (keyword : jsstring) :
  readKeyword req = inl keyword ->
  keyword = [] \/ (30 < List.length keyword)%nat ->
  exchanges (POST API_KEY_RAW provider now createdAt req m) = []
  /\ (apiKey API_KEY_RAW <> [] ->
      fst (isRateLimited (clientAddress req) now m) = false ->
      exists message,
        response (POST API_KEY_RAW provider now createdAt req m)
        = ErrorJson 400 (js "validation_error") message None).
Proof.
  intros Hread Hbad. split.
  - eapply POST_invalid_no_exchange; eassumption.
  - intros Hkey Hlim. rewrite POST_admitted by assumption. rewrite Hread.
    destruct (respond_invalid provider (apiKey API_KEY_RAW) createdAt MODEL_CONFIGS
                              keyword Hbad) as (message & ->).
    exists message. reflexivity.
Qed.

Lemma invalid_keyword_rejected_witness :
  exchanges (POST (Some (js "key")) silent 100 100 blankRequest ∅) = []
  /\ exists message,
      response (POST (Some (js "key")) silent 100 100 blankRequest ∅)
      = ErrorJson 400 (js "validation_error") message None.
Proof.
  destruct (invalid_keyword_rejected (Some (js "key")) silent 100 100 blankRequest ∅ [])
    as [Hnone Hresp].
  - reflexivity.
  - left. reflexivity.
  - split; [exact Hnone|]. apply Hresp.
    + vm_compute. discriminate.
    + reflexivity.
Defined.

(** C9. With the API key configured, the admission check comes before
    the body is read and the keyword validated: whatever the body, the
    rate-limit map after the call is the one the check leaves; a client
    at its limit gets [rate_limited] (429) even when its keyword is
    invalid; and a client under its limit that sends an invalid keyword
    gets [validation_error] (400) while the time of the call is recorded
    among its timestamps. *)
Theorem admission_precedes_validation (API_KEY_RAW : option jsstring)
        (provider : Provider) (now createdAt : Z) (req : Request) (m : RateLimitMap) :
  apiKey API_KEY_RAW <> [] ->
  rateLimitMapAfter (POST API_KEY_RAW provider now createdAt req m)
  = snd (isRateLimited (clientAddress req) now m)
  /\ (fst (isRateLimited (clientAddress req) now m) = true ->
      response (POST API_KEY_RAW provider now createdAt req m)
      = ErrorJson 429 (js "rate_limited")
          (js "ちょっと落ち着いて、もう一口。（1分あたりの上限に達しました）") None)
  /\ (fst (isRateLimited (clientAddress req) now m) = false ->
      forall keyword,
        readKeyword req = inl keyword ->
        keyword = [] \/ (30 < List.length keyword)%nat ->
        (exists message,
            response (POST API_KEY_RAW provider now createdAt req m)
            = ErrorJson 400 (js "validation_error") message None)
        /\ rateLimitMapAfter (POST API_KEY_RAW provider now createdAt req m)
           !! clientAddress req
           = Some (recentAt now (default [] (m !! clientAddress req)) ++ [now])).
Proof.
  intros Hkey.
  destruct (fst (isRateLimited (clientAddress req) now m)) eqn:Hlim.
  - rewrite POST_rate_limited by assumption. simpl.
    split; [reflexivity|]. split; [reflexivity | discriminate].
  - rewrite POST_admitted by assumption. split; [|split; [discriminate|]].
    + destruct (readKeyword req) as [keyword|error]; [|reflexivity].
      destruct (respond _ _ _ _ _) as [[r trace] lg]. reflexivity.
    + intros _ keyword Hread Hbad. rewrite Hread.
      destruct (respond_invalid provider (apiKey API_KEY_RAW) createdAt MODEL_CONFIGS
                                keyword Hbad) as (message & ->).
      simpl. split; [exists message; reflexivity|].
      destruct (admission_entry (clientAddress req) m now) as (Hfst & Hsnd).
      rewrite Hsnd. rewrite Hfst in Hlim. rewrite Hlim. reflexivity.
Qed.

Lemma admission_precedes_validation_witness :
  response (POST (Some (js "key")) silent 100 100 blankRequest crowded)
  = ErrorJson 429 (js "rate_limited")
      (js "ちょっと落ち着いて、もう一口。（1分あたりの上限に達しました）") None
  /\ rateLimitMapAfter (POST (Some (js "key")) silent 100 100 blankRequest ∅)
     !! js "unknown" = Some [100].
Proof.
  assert (Hkey : apiKey (Some (js "key")) <> []) by (vm_compute; discriminate).
  split.
  - destruct (admission_precedes_validation (Some (js "key")) silent 100 100
                                            blankRequest crowded Hkey)
      as (_ & Hlimited & _).
    apply Hlimited. reflexivity.
  - destruct (admission_precedes_validation (Some (js "key")) silent 100 100
                                            blankRequest ∅ Hkey)
      as (_ & _ & Hadmitted).
    destruct (Hadmitted eq_refl [] eq_refl (or_introl eq_refl)) as [_ Hentry].
    exact Hentry.
Defined.

(** ** From the request to the orchestrator and back *)

(** A request that reaches generation is answered from the run alone. *)
Lemma POST_generation (API_KEY_RAW : option jsstring) (provider : Provider)
      (now createdAt : Z) (req : Request) (m : RateLimitMap) (keyword : jsstring) :
  reachesGeneration API_KEY_RAW now req m keyword ->
  POST API_KEY_RAW provider now createdAt req m =
  let '(v, trace) := generate provider (apiKey API_KEY_RAW) MODEL_CONFIGS keyword in
  {| response :=
       if absent (generatedTrivia v) then generationFailed (lastError v)
       else TriviaJson (default [] (generatedTrivia v)) keyword (js "kitakyushu")
                       (retries v) (usedModel v) createdAt;
     rateLimitMapAfter := snd (isRateLimited (clientAddress req) now m);
     exchanges := trace;
     logged := if absent (generatedTrivia v) then None else Some keyword |}.
Proof.
  intros (Hkey & Hlim & Hread & Hne & Hlen).
  rewrite POST_admitted by assumption. rewrite Hread.
  rewrite respond_valid by assumption.
  destruct (generate _ _ _ _) as [v trace].
  destruct (absent (generatedTrivia v)); reflexivity.
Qed.

(** A success can only come out of the orchestrator. *)
Lemma POST_success_inv (API_KEY_RAW : option jsstring) (provider : Provider)
      (now createdAt : Z) (req : Request) (m : RateLimitMap)
      trivia keyword mode n usedName created :
  response (POST API_KEY_RAW provider now createdAt req m)
  = TriviaJson trivia keyword mode n usedName created ->
  reachesGeneration API_KEY_RAW now req m keyword
  /\ exists v,
      generate provider (apiKey API_KEY_RAW) MODEL_CONFIGS keyword
      = (v, exchanges (POST API_KEY_RAW provider now createdAt req m))
      /\ generatedTrivia v = Some trivia /\ trivia <> []
      /\ n = retries v /\ usedName = usedModel v.
Proof.
  intros Hresp. unfold POST in *.
  destruct (absent (Some (apiKey API_KEY_RAW))) eqn:Hkey; [discriminate Hresp|].
  destruct (isRateLimited _ _ _) as [[|] m'] eqn:Hlim; [discriminate Hresp|].
  destruct (readKeyword req) as [kw|error] eqn:Hread; [|discriminate Hresp].
  unfold respond in *.
  destruct (absent (Some kw)) eqn:Hkw; [discriminate Hresp|].
  destruct (30 <? List.length kw)%nat eqn:Hlen; [discriminate Hresp|].
  destruct (generate _ _ _ _) as [v trace] eqn:Hgen.
  destruct (absent (generatedTrivia v)) eqn:Habs; [discriminate Hresp|].
  simpl in Hresp. injection Hresp as <- <- <- <- <- <-.
  destruct (absent_false _ Hkey) as (k & [= <-] & Hk).
  destruct (absent_false _ Hkw) as (k' & [= <-] & Hk').
  destruct (absent_false _ Habs) as (c & Hc & Hcne).
  apply Nat.ltb_ge in Hlen.
  split; [repeat split; auto; rewrite Hlim; reflexivity|].
  exists v. simpl. rewrite Hc. repeat split; auto.
Qed.

Lemma answered_nil (provider : Provider) : answered provider [].
Proof. intros [|i] x H; discriminate H. Qed.

Lemma useFallback_cases (v : Vars) :
  (useFallback v = v
   /\ (generatedTrivia v = None -> forall best, bestCandidate v = Some best ->
       (List.length best < 10)%nat))
  \/ (exists best,
         bestCandidate v = Some best /\ (10 <= List.length best)%nat
         /\ absent (generatedTrivia v) = true
         /\ useFallback v = fallback best v).
Proof.
  unfold useFallback. destruct (bestCandidate v) as [best|] eqn:Hbest.
  2:{ left. split; [reflexivity|]. intros _ b H. discriminate H. }
  destruct (absent (generatedTrivia v)) eqn:Hgen; cbn [andb].
  2:{ left. split; [reflexivity|]. intros Hnone. rewrite Hnone in Hgen. discriminate. }
  destruct (absent (Some best)) eqn:Hb; cbn [negb andb].
  { left. split; [reflexivity|]. intros _ b [= <-].
    destruct best; [simpl; lia | discriminate Hb]. }
  destruct (Nat.leb_spec 10 (List.length best)).
  - right. exists best. auto.
  - left. split; [reflexivity|]. intros _ b [= <-]. assumption.
Qed.

(** The orchestrator as a whole: the exchanges fall into one attempt per
    configuration tried, in order; the counter is the number of
    corrections of all of them; and the run ends with an in-range
    candidate of the last attempt, or with all configurations used up
    and then either nothing or a fallback of at least ten characters. *)
Lemma generate_spec (provider : Provider) (API_KEY : jsstring)
      (configs : list ModelConfig) (keyword : jsstring) (v : Vars)
      (trace : list Exchange) :
  generate provider API_KEY configs keyword = (v, trace) ->
  exists (attempts : list Attempt) (rest : list ModelConfig),
    trace = flat_map attemptTrace attempts
    /\ answered provider trace
    /\ configs = List.map config attempts ++ rest
    /\ Forall (wellFormed API_KEY (buildUserPrompt keyword)) attempts
    /\ retries v = correctionCount attempts
    /\ ((exists earlier a c,
            attempts = earlier ++ [a]
            /\ generatedTrivia v = Some c
            /\ isValidLength c = true
            /\ usedModel v = name (config a)
            /\ produced a c)
        \/ (rest = []
            /\ (generatedTrivia v = None
                \/ exists best, generatedTrivia v = Some best
                                /\ (10 <= List.length best)%nat
                                /\ usedModel v = js "fallback"))).
Proof.
  unfold generate.
  destruct (outerLoop _ _ _ _ _ _) as [v1 trace1] eqn:Hloop. intros [= <- <-].
  destruct (outerLoop_spec _ _ _ _ _ _ _ _ Hloop)
    as (attempts & rest & -> & Hans & -> & Hwf & Hret & Hend).
  specialize (Hans (answered_nil provider)).
  exists attempts, rest. simpl in *.
  destruct Hend as [(-> & Hgen & Hused)|(earlier & a & c & -> & Hgen & Hvalid & Hused & Hprod)].
  - destruct (useFallback_cases v1) as [[-> _]|(best & Hbest & Hlen & _ & ->)].
    + repeat split; auto.
    + simpl. repeat split; auto. right. split; [reflexivity|]. right.
      exists best. auto.
  - destruct (useFallback_cases v1) as [[-> _]|(best & _ & _ & Habs & _)].
    + repeat split; auto. left. exists earlier, a, c. auto.
    + rewrite Hgen, (absent_some c (valid_nonempty c Hvalid)) in Habs. discriminate.
Qed.

Lemma attemptTrace_last (a : Attempt) :
  exists before,
    attemptTrace a = before ++ [List.last (corrections a) (opening a)].
Proof.
  unfold attemptTrace. exists (removelast (opening a :: corrections a)).
  rewrite <- (last_cons_default (opening a) (opening a)).
  apply app_removelast_last. discriminate.
Qed.

Lemma wellFormed_last_sentTo (API_KEY userPrompt : jsstring) (a : Attempt) :
  wellFormed API_KEY userPrompt a ->
  sentTo API_KEY (config a) (List.last (corrections a) (opening a)).
Proof.
  intros (Hopen & _ & _ & Hall).
  assert (Hfirst : sentTo API_KEY (config a) (opening a)).
  { unfold sentTo. rewrite Hopen. reflexivity. }
  destruct (corrections a) as [|y l] eqn:Hc; [exact Hfirst|].
  rewrite (app_removelast_last (opening a) (l := y :: l)) in Hall by discriminate.
  apply Forall_app in Hall as [_ Hlast].
  inversion Hlast; assumption.
Qed.

Lemma ramenRequest_reaches :
  reachesGeneration (Some (js "key")) 1000 ramenRequest ∅ (js "ラーメン").
Proof. vm_compute. repeat split; discriminate || lia. Qed.

(** ** Successful responses *)

(** C1. A successful response either carries a text of 70 to 100
    characters together with the name of a configured model, whose
    exchange (the last one of the run) returned that text, or it is tagged
    [fallback] and carries a text of at least 10 characters; so a text
    that is not tagged [fallback] is always in range.  A success implies
    that the keyword was non-empty and at most 30 characters long after
    trimming. *)
Theorem successful_response_length (API_KEY_RAW : option jsstring)
        (provider : Provider) (now createdAt : Z) (req : Request) (m : RateLimitMap)
        trivia keyword mode n usedName created :
  response (POST API_KEY_RAW provider now createdAt req m)
  = TriviaJson trivia keyword mode n usedName created ->
  (((70 <= List.length trivia <= 100)%nat
    /\ exists modelConfig before x,
        In modelConfig MODEL_CONFIGS
        /\ usedName = name modelConfig
        /\ exchanges (POST API_KEY_RAW provider now createdAt req m) = before ++ [x]
        /\ sentTo (apiKey API_KEY_RAW) modelConfig x
        /\ yields x trivia)
   \/ (usedName = js "fallback" /\ (10 <= List.length trivia)%nat))
  /\ (usedName <> js "fallback" -> (70 <= List.length trivia <= 100)%nat)
  /\ (readKeyword req = inl keyword /\ keyword <> []
      /\ (List.length keyword <= 30)%nat).
Proof.
  intros Hresp.
  destruct (POST_success_inv _ _ _ _ _ _ _ _ _ _ _ _ Hresp)
    as ((_ & _ & Hread & Hne & Hlen) & v & Hgen & Htrivia & _ & _ & ->).
  destruct (generate_spec _ _ _ _ _ _ Hgen)
    as (attempts & rest & Htrace & _ & Hconfigs & Hwf & _ & Hend).
  assert (Hcases :
    ((70 <= List.length trivia <= 100)%nat
     /\ exists modelConfig before x,
         In modelConfig MODEL_CONFIGS
         /\ usedModel v = name modelConfig
         /\ exchanges (POST API_KEY_RAW provider now createdAt req m) = before ++ [x]
         /\ sentTo (apiKey API_KEY_RAW) modelConfig x
         /\ yields x trivia)
    \/ (usedModel v = js "fallback" /\ (10 <= List.length trivia)%nat)).
  { destruct Hend as [(earlier & a & c & -> & Hc & Hvalid & Hused & Hprod)
                     |(_ & [Hnone|(best & Hbest & Hten & Hused)])].
    - left. rewrite Htrivia in Hc. injection Hc as <-.
      split; [apply isValidLength_range; exact Hvalid|].
      destruct (attemptTrace_last a) as (before & Hlast).
      exists (config a), (flat_map attemptTrace earlier ++ before),
             (List.last (corrections a) (opening a)).
      repeat split.
      + rewrite Hconfigs, List.map_app. apply in_or_app. left.
        apply in_or_app. right. left. reflexivity.
      + exact Hused.
      + rewrite Htrace, flat_map_app. cbn [flat_map]. rewrite app_nil_r, Hlast.
        apply app_assoc.
      + apply (wellFormed_last_sentTo _ (buildUserPrompt keyword)).
        apply Forall_app in Hwf as [_ Hwf]. inversion Hwf; assumption.
      + exact Hprod.
    - congruence.
    - right. rewrite Htrivia in Hbest. injection Hbest as <-. auto. }
  split; [exact Hcases|]. split; [|auto].
  intros Hnot. destruct Hcases as [[Hrange _]|[Hfb _]]; [exact Hrange | contradiction].
Qed.

Lemma successful_response_length_witness :
  (((70 <= List.length (letters 80) <= 100)%nat
    /\ exists modelConfig before x,
        In modelConfig MODEL_CONFIGS
        /\ js "gemini-2.0-flash" = name modelConfig
        /\ exchanges (POST (Some (js "key")) (fun _ _ => answer (letters 80) (js "STOP"))
                           1000 2000 ramenRequest ∅) = before ++ [x]
        /\ sentTo (apiKey (Some (js "key"))) modelConfig x
        /\ yields x (letters 80))
   \/ (js "gemini-2.0-flash" = js "fallback" /\ (10 <= List.length (letters 80))%nat))
  /\ (js "gemini-2.0-flash" <> js "fallback" -> (70 <= List.length (letters 80) <= 100)%nat)
  /\ (readKeyword ramenRequest = inl (js "ラーメン") /\ js "ラーメン" <> []
      /\ (List.length (js "ラーメン") <= 30)%nat).
Proof.
  apply (successful_response_length (Some (js "key"))
           (fun _ _ => answer (letters 80) (js "STOP")) 1000 2000 ramenRequest ∅
           (letters 80) (js "ラーメン") (js "kitakyushu") 0%nat (js "gemini-2.0-flash") 2000).
  vm_compute. reflexivity.
Defined.

(** ** Bounds on the corrections *)

Lemma attempts_length (attempts : list Attempt) :
  List.length (flat_map attemptTrace attempts)
  = (List.length attempts + correctionCount attempts)%nat.
Proof.
  unfold correctionCount. induction attempts as [|a attempts IH]; [reflexivity|].
  cbn [flat_map List.map list_sum]. rewrite length_app, IH.
  unfold attemptTrace. simpl. lia.
Qed.

Lemma correctionCount_bound (API_KEY userPrompt : jsstring) (attempts : list Attempt) :
  Forall (wellFormed API_KEY userPrompt) attempts ->
  (correctionCount attempts <= 3 * List.length attempts)%nat.
Proof.
  unfold correctionCount. induction 1 as [|a attempts (_ & _ & Hle & _) _ IH];
    simpl in *; lia.
Qed.

(** The conversation only grows along a chain of corrections. *)
Lemma chain_longer (x : Exchange) (new : list Exchange) :
  chain x new ->
  Forall (fun y => (List.length (contents (sent x)) < List.length (contents (sent y)))%nat)
         new.
Proof.
  revert x. induction new as [|y new IH]; intros x Hchain; constructor.
  - destruct Hchain as [(c & _ & _ & ->) _]. rewrite length_app. simpl. lia.
  - destruct Hchain as [(c & _ & _ & Heq) Hrest].
    apply IH in Hrest. eapply Forall_impl; [exact Hrest|].
    intros z Hz. rewrite Heq, length_app in Hz. simpl in *. lia.
Qed.

Lemma corrections_counted (API_KEY userPrompt : jsstring) (attempts : list Attempt) :
  Forall (wellFormed API_KEY userPrompt) attempts ->
  List.length (List.filter isCorrection (flat_map attemptTrace attempts))
  = correctionCount attempts.
Proof.
  unfold correctionCount.
  induction 1 as [|a attempts (Hopen & Hchain & _ & _) _ IH]; [reflexivity|].
  cbn [flat_map List.map list_sum]. rewrite List.filter_app, length_app, IH.
  f_equal. unfold attemptTrace. cbn [List.filter].
  unfold isCorrection at 1. rewrite Hopen. simpl.
  apply chain_longer in Hchain. rewrite Hopen in Hchain. simpl in Hchain.
  clear -Hchain. induction Hchain as [|y l Hy _ IH]; [reflexivity|].
  simpl. unfold isCorrection at 1.
  destruct (Nat.ltb_spec 1 (List.length (contents (sent y)))); [|lia].
  simpl. rewrite IH. reflexivity.
Qed.

(** C4. For one configuration the orchestrator sends the opening request
    and then at most three corrections, all to that configuration; the
    counter grows by the number of corrections; every correction follows
    an exchange that returned an untruncated candidate whose length is
    outside 70..100, and carries that exchange's conversation extended by
    the candidate as a model turn and the correction prompt as a user
    turn; and when a correction comes back without text or truncated, it
    is the last one and the candidate from before it is the one kept (it
    is the one the out-of-range failure reports).  Over a whole run the
    counter is at most three times the number of configurations, and the
    number of provider calls at most four times that number. *)
Theorem correction_budget (provider : Provider) (API_KEY : jsstring) :
  (forall modelConfig userPrompt v trace b v' trace',
      iteration provider API_KEY modelConfig userPrompt v trace = (b, v', trace') ->
      exists x new,
        trace' = trace ++ x :: new
        /\ sent x = geminiRequest modelConfig API_KEY
                                  [ {| role := user; parts := userPrompt |} ]
        /\ Forall (sentTo API_KEY modelConfig) new
        /\ (List.length new <= 3)%nat
        /\ retries v' = (retries v + List.length new)%nat
        /\ chain x new
        /\ (forall new0 w,
              new = new0 ++ [w] -> fruitless w ->
              exists c, yields (List.last new0 x) c /\ isValidLength c = false
                        /\ b = false
                        /\ lastError v' =
                           Some (Error (js "文字数が範囲外です（"
                                        ++ ofNat (List.length c) ++ js "文字）。"))))
  /\ (forall configs keyword v trace,
         generate provider API_KEY configs keyword = (v, trace) ->
         (retries v <= 3 * List.length configs)%nat
         /\ (List.length trace <= 4 * List.length configs)%nat
         /\ List.length (List.filter isCorrection trace) = retries v).
Proof.
  split.
  - intros modelConfig userPrompt v trace b v' trace' Hrun.
    destruct (iteration_spec _ _ _ _ _ _ _ _ _ Hrun)
      as (x & new & Htrace & _ & Hsent & Hchain & Hlen & Hall & Hret & _ & Hstop).
    exists x, new. repeat split; assumption.
  - intros configs keyword v trace Hgen.
    destruct (generate_spec _ _ _ _ _ _ Hgen)
      as (attempts & rest & -> & _ & -> & Hwf & Hret & _).
    pose proof (correctionCount_bound _ _ _ Hwf) as Hbound.
    rewrite attempts_length, (corrections_counted _ _ _ Hwf), Hret.
    rewrite length_app, length_map. lia.
Qed.

Lemma correction_budget_witness :
  (retries (fst (generate stubborn (js "key") MODEL_CONFIGS (js "ラーメン")))
   <= 3 * List.length MODEL_CONFIGS)%nat
  /\ (List.length (snd (generate stubborn (js "key") MODEL_CONFIGS (js "ラーメン")))
      <= 4 * List.length MODEL_CONFIGS)%nat
  /\ List.length (List.filter isCorrection
                    (snd (generate stubborn (js "key") MODEL_CONFIGS (js "ラーメン"))))
     = retries (fst (generate stubborn (js "key") MODEL_CONFIGS (js "ラーメン"))).
Proof.
  exact (proj2 (correction_budget stubborn (js "key")) MODEL_CONFIGS (js "ラーメン")
               _ _ (surjective_pairing _)).
Defined.

(** The bounds are reached: nine corrections and twelve calls. *)
Example stubborn_run :
  retries (fst (generate stubborn (js "key") MODEL_CONFIGS (js "ラーメン"))) = 9%nat
  /\ List.length (snd (generate stubborn (js "key") MODEL_CONFIGS (js "ラーメン"))) = 12%nat.
Proof. vm_compute. split; reflexivity. Qed.

(** ** The counter in the response *)

(** C10. The [retries] of a successful response is the number of
    corrections of all the attempts of the run, the ones before the
    accepted configuration included: it is the number of exchanges of the
    run that are corrections.  For instance, when the first configuration
    uses its three corrections in vain and the second answers in range at
    once, the response names the second configuration and reports 3. *)
Theorem retries_cumulative :
  (forall API_KEY_RAW provider now createdAt req m trivia keyword mode n usedName created,
      response (POST API_KEY_RAW provider now createdAt req m)
      = TriviaJson trivia keyword mode n usedName created ->
      exists attempts rest,
        exchanges (POST API_KEY_RAW provider now createdAt req m)
        = flat_map attemptTrace attempts
        /\ MODEL_CONFIGS = List.map config attempts ++ rest
        /\ Forall (wellFormed (apiKey API_KEY_RAW) (buildUserPrompt keyword)) attempts
        /\ n = correctionCount attempts
        /\ n = List.length (List.filter isCorrection
                 (exchanges (POST API_KEY_RAW provider now createdAt req m))))
  /\ (response (POST (Some (js "key")) lateSuccess 1000 2000 ramenRequest ∅)
      = TriviaJson (letters 80) (js "ラーメン") (js "kitakyushu") 3
                   (js "gemini-2.5-flash") 2000
      /\ List.map (fun x => (url (sent x), List.length (contents (sent x))))
                  (exchanges (POST (Some (js "key")) lateSuccess 1000 2000 ramenRequest ∅))
         = [ (js "https://generativelanguage.googleapis.com/v1beta/models/gemini-2.0-flash:generateContent?key=key",
              1%nat);
             (js "https://generativelanguage.googleapis.com/v1beta/models/gemini-2.0-flash:generateContent?key=key",
              3%nat);
             (js "https://generativelanguage.googleapis.com/v1beta/models/gemini-2.0-flash:generateContent?key=key",
              5%nat);
             (js "https://generativelanguage.googleapis.com/v1beta/models/gemini-2.0-flash:generateContent?key=key",
              7%nat);
             (js "https://generativelanguage.googleapis.com/v1beta/models/gemini-2.5-flash:generateContent?key=key",
              1%nat) ]).
Proof.
  split.
  - intros API_KEY_RAW provider now createdAt req m trivia keyword mode n usedName
           created Hresp.
    destruct (POST_success_inv _ _ _ _ _ _ _ _ _ _ _ _ Hresp)
      as (_ & v & Hgen & _ & _ & -> & _).
    destruct (generate_spec _ _ _ _ _ _ Hgen)
      as (attempts & rest & Htrace & _ & Hconfigs & Hwf & Hret & _).
    exists attempts, rest. rewrite Htrace, (corrections_counted _ _ _ Hwf).
    auto.
  - vm_compute. split; reflexivity.
Qed.

Lemma retries_cumulative_witness :
  exists attempts rest,
    exchanges (POST (Some (js "key")) lateSuccess 1000 2000 ramenRequest ∅)
    = flat_map attemptTrace attempts
    /\ MODEL_CONFIGS = List.map config attempts ++ rest
    /\ Forall (wellFormed (apiKey (Some (js "key"))) (buildUserPrompt (js "ラーメン")))
              attempts
    /\ 3%nat = correctionCount attempts
    /\ 3%nat = List.length (List.filter isCorrection
                 (exchanges (POST (Some (js "key")) lateSuccess 1000 2000 ramenRequest ∅))).
Proof.
  exact (proj1 retries_cumulative (Some (js "key")) lateSuccess 1000 2000 ramenRequest ∅
               _ _ _ _ _ _ (proj1 (proj2 retries_cumulative))).
Defined.

(** ** One correction, then acceptance *)

Lemma length_nonempty (c : jsstring) (n : nat) :
  List.length c = S n -> c <> [].
Proof. intros H ->. discriminate H. Qed.

(** C7. When the opening call to the first configuration returns an
    untruncated candidate of 60 characters and the correction that
    follows returns an untruncated candidate of 85 characters, the
    response is a success with the 85 characters as its text, the first
    configuration as its model and 1 as its [retries]; two requests were
    sent. *)
Theorem one_correction_accepted (API_KEY_RAW : option jsstring) (provider : Provider)
        (now createdAt : Z) (req : Request) (m : RateLimitMap) (keyword : jsstring)
        (first : ModelConfig) (others : list ModelConfig)
        (r0 r1 : GeminiResult) (c60 c85 : jsstring) :
  reachesGeneration API_KEY_RAW now req m keyword ->
  MODEL_CONFIGS = first :: others ->
  callGemini_settle
    (provider 0%nat
       (geminiRequest first (apiKey API_KEY_RAW)
          [ {| role := user; parts := buildUserPrompt keyword |} ])) = inl r0 ->
  text r0 = Some c60 ->
  List.length c60 = 60%nat ->
  Js.isStr (finishReason r0) (js "MAX_TOKENS") = false ->
  callGemini_settle
    (provider 1%nat
       (geminiRequest first (apiKey API_KEY_RAW)
          [ {| role := user; parts := buildUserPrompt keyword |};
            {| role := model; parts := c60 |};
            {| role := user; parts := getRetryPrompt 60 |} ])) = inl r1 ->
  text r1 = Some c85 ->
  List.length c85 = 85%nat ->
  Js.isStr (finishReason r1) (js "MAX_TOKENS") = false ->
  response (POST API_KEY_RAW provider now createdAt req m)
  = TriviaJson c85 keyword (js "kitakyushu") 1 (name first) createdAt
  /\ List.length (exchanges (POST API_KEY_RAW provider now createdAt req m)) = 2%nat.
Proof.
  intros Hreach Hconfigs H0 Ht0 Hl0 Hm0 H1 Ht1 Hl1 Hm1.
  rewrite (POST_generation _ _ _ _ _ _ _ Hreach).
  assert (Hne0 : c60 <> []) by (eapply length_nonempty; eassumption).
  assert (Hne1 : c85 <> []) by (eapply length_nonempty; eassumption).
  assert (Hv0 : isValidLength c60 = false) by (unfold isValidLength; rewrite Hl0; reflexivity).
  assert (Hv1 : isValidLength c85 = true) by (unfold isValidLength; rewrite Hl1; reflexivity).
  unfold generate. rewrite Hconfigs. cbn [outerLoop].
  unfold iteration, tryBlock. rewrite callGemini_eq.
  change (List.length (@nil Exchange)) with 0%nat.
  rewrite H0, Ht0, (absent_some _ Hne0), Hm0. cbn [default from_option id app].
  cbn [retryLoop]. rewrite Hv0, callGemini_eq, Hl0.
  cbn [app List.length]. rewrite H1, Ht1, (absent_some _ Hne1), Hm1.
  cbn [orb default from_option id]. rewrite Hv1. cbv beta iota zeta.
  rewrite Hv1. cbv beta iota zeta.
  assert (Hfb : useFallback (accept c85 first (track c85 (countRetry (track c60 initialVars))))
                = accept c85 first (track c85 (countRetry (track c60 initialVars)))).
  { unfold useFallback. cbn [generatedTrivia accept].
    rewrite (absent_some _ Hne1). cbn [andb]. destruct (bestCandidate _); reflexivity. }
  rewrite Hfb. cbn [generatedTrivia accept usedModel retries].
  rewrite (absent_some _ Hne1). cbn [response exchanges default from_option id].
  destruct (track_fields c85 (countRetry (track c60 initialVars))) as (_ & _ & -> & _).
  cbn [retries countRetry].
  destruct (track_fields c60 initialVars) as (_ & _ & -> & _).
  split; reflexivity.
Qed.

Lemma one_correction_accepted_witness :
  response (POST (Some (js "key")) improving 1000 2000 ramenRequest ∅)
  = TriviaJson (letters 85) (js "ラーメン") (js "kitakyushu") 1
               (js "gemini-2.0-flash") 2000
  /\ List.length
       (exchanges (POST (Some (js "key")) improving 1000 2000 ramenRequest ∅)) = 2%nat.
Proof.
  eapply (one_correction_accepted (Some (js "key")) improving 1000 2000 ramenRequest ∅
            (js "ラーメン")
            {| name := js "gemini-2.0-flash"; maxOutputTokens := 500;
               thinkingConfig := None |}
            _ _ _ (letters 60) (letters 85)).
  - exact ramenRequest_reaches.
  - reflexivity.
  - vm_compute. reflexivity.
  - reflexivity.
  - reflexivity.
  - reflexivity.
  - vm_compute. reflexivity.
  - reflexivity.
  - reflexivity.
  - reflexivity.
Defined.

(** ** Models that are not found *)







(** ** Truncated opening answers *)

Lemma track_beats (t : jsstring) (v : Vars) :
  (beats t (bestCandidate v) -> bestCandidate (track t v) = Some t)
  /\ (~ beats t (bestCandidate v) -> bestCandidate (track t v) = bestCandidate v).
Proof.
  unfold track, beats. destruct (bestCandidate v) as [[|c b]|] eqn:Hb; simpl.
  - tauto.
  - destruct (Nat.ltb_spec (S (List.length b)) (List.length t)); simpl; split; intros;
      try reflexivity; try lia. exact Hb.
  - tauto.
Qed.

Lemma track_monotone (t : jsstring) (v : Vars) :
  exists b', bestCandidate (track t v) = Some b'
             /\ (List.length t <= List.length b')%nat
             /\ (forall b, bestCandidate v = Some b ->
                           (List.length b <= List.length b')%nat)
             /\ (b' = t \/ bestCandidate v = Some b').
Proof.
  unfold track. destruct (bestCandidate v) as [[|c b]|] eqn:Hb; simpl.
  - exists t. repeat split; auto. intros b [= <-]. simpl. lia.
  - destruct (Nat.ltb_spec (S (List.length b)) (List.length t)); simpl.
    + exists t. repeat split; auto. intros b0 [= <-]. simpl. lia.
    + exists (c :: b). simpl. repeat split; auto. intros b0 [= <-]. simpl. lia.
  - exists t. repeat split; auto. intros b H. discriminate H.
Qed.

(** One configuration whose opening answer is cut off. *)
Lemma iteration_truncated (provider : Provider) (API_KEY : jsstring)
      (modelConfig : ModelConfig) (userPrompt : jsstring) (v : Vars)
      (trace : list Exchange) :
  let request :=
      geminiRequest modelConfig API_KEY [ {| role := user; parts := userPrompt |} ] in
  truncated (provider (List.length trace) request) ->
  exists v',
    iteration provider API_KEY modelConfig userPrompt v trace
    = (false, v',
       trace ++ [ {| sent := request; received := provider (List.length trace) request |} ])
    /\ retries v' = retries v
    /\ generatedTrivia v' = generatedTrivia v
    /\ usedModel v' = usedModel v
    /\ (exists e, lastError v' = Some e)
    /\ match usableText (provider (List.length trace) request) with
       | Some t => lastError v' = Some truncatedError /\ bestCandidate v' = bestCandidate (track t v)
       | None => bestCandidate v' = bestCandidate v
       end.
Proof.
  intros request (r & Hsettle & Hmax). unfold iteration, tryBlock, usableText.
  rewrite callGemini_eq. fold request. rewrite Hsettle.
  destruct (absent (text r)) eqn:Habs.
  - destruct (Js.isStr (finishReason r) (js "NOT_FOUND")) eqn:Hnf.
    + exfalso. destruct (finishReason r) as [| | | |s| |]; try discriminate Hmax.
      unfold Js.isStr, eqb in *.
      apply bool_decide_eq_true in Hmax, Hnf. subst s. vm_compute in Hnf. discriminate Hnf.
    + eexists. split; [reflexivity|]. simpl. eauto 10.
  - destruct (absent_false _ Habs) as (t & Ht & Hne). rewrite Ht, Hmax.
    cbn [default from_option id].
    destruct (track_fields t v) as (Te & Tg & Tr & Tu).
    eexists. split; [reflexivity|]. simpl. unfold truncatedError. eauto 10.
Qed.

(** All configurations answer their opening request cut off. *)
Lemma outerLoop_truncated (provider : Provider) (API_KEY userPrompt : jsstring)
      (configs : list ModelConfig) :
  forall (v : Vars) (trace : list Exchange),
    let opening i modelConfig :=
        provider (List.length trace + i)%nat
                 (geminiRequest modelConfig API_KEY
                                [ {| role := user; parts := userPrompt |} ]) in
    (forall i modelConfig,
        nth_error configs i = Some modelConfig -> truncated (opening i modelConfig)) ->
    exists v' new,
      outerLoop provider API_KEY configs userPrompt v trace = (v', trace ++ new)
      /\ List.length new = List.length configs
      /\ List.filter isCorrection new = []
      /\ retries v' = retries v
      /\ generatedTrivia v' = generatedTrivia v
      /\ usedModel v' = usedModel v
      /\ (configs <> [] \/ (exists e, lastError v = Some e) ->
          exists e, lastError v' = Some e)
      /\ (forall b', bestCandidate v' = Some b' ->
                     bestCandidate v = Some b'
                     \/ exists i modelConfig,
                         nth_error configs i = Some modelConfig
                         /\ usableText (opening i modelConfig) = Some b')
      /\ (forall i modelConfig t,
             nth_error configs i = Some modelConfig ->
             usableText (opening i modelConfig) = Some t ->
             exists b', bestCandidate v' = Some b'
                        /\ (List.length t <= List.length b')%nat)
      /\ (forall b, bestCandidate v = Some b ->
                    exists b', bestCandidate v' = Some b'
                               /\ (List.length b <= List.length b')%nat).
Proof.
  induction configs as [|modelConfig configs IH]; intros v trace opening Htrunc;
    cbn [outerLoop].
  - exists v, []. rewrite app_nil_r.
    split; [reflexivity|]. split; [reflexivity|]. split; [reflexivity|].
    split; [reflexivity|]. split; [reflexivity|]. split; [reflexivity|].
    split; [|split; [|split]].
    + intros [Hne|He]; [congruence | exact He].
    + auto.
    + intros [|i] cfg t H; discriminate H.
    + intros b Hb. exists b. auto.
  - pose proof (Htrunc 0%nat modelConfig eq_refl) as H0.
    unfold opening in H0. rewrite Nat.add_0_r in H0.
    destruct (iteration_truncated provider API_KEY modelConfig userPrompt v trace H0)
      as (v1 & -> & Hret1 & Hgen1 & Hused1 & Herr1 & Hbest1).
    set (x := {| sent := _; received := _ |}).
    assert (Hshift : forall i, (List.length (trace ++ [x]) + i = List.length trace + S i)%nat).
    { intros i. rewrite length_app. simpl. lia. }
    destruct (IH v1 (trace ++ [x])) as
        (v' & new & -> & Hlen & Hnone & Hret & Hgen & Hused & Herr & Ha & Hb & Hc).
    { intros i cfg Hi. rewrite Hshift. apply (Htrunc (S i) cfg Hi). }
    assert (Hfirst : usableText (opening 0%nat modelConfig)
                     = usableText (provider (List.length trace)
                         (geminiRequest modelConfig API_KEY
                            [ {| role := user; parts := userPrompt |} ]))).
    { unfold opening. rewrite Nat.add_0_r. reflexivity. }
    exists v', (x :: new). rewrite <- app_assoc.
    split; [reflexivity|]. split; [simpl; lia|]. split; [simpl; exact Hnone|].
    split; [congruence|]. split; [congruence|]. split; [congruence|].
    split; [|split; [|split]].
    + intros _. apply Herr. right. exact Herr1.
    + intros b' Hb'. destruct (Ha b' Hb') as [Hv1|(i & cfg & Hi & Ht)].
      * destruct (usableText (provider (List.length trace) _)) as [t|] eqn:Htext.
        -- destruct Hbest1 as [_ Hbest1]. rewrite Hbest1 in Hv1.
           destruct (track_monotone t v) as (b1 & Hb1 & _ & _ & [->|Hold]).
           ++ right. exists 0%nat, modelConfig. split; [reflexivity|].
              rewrite Hfirst. congruence.
           ++ left. congruence.
        -- left. congruence.
      * right. exists (S i), cfg. split; [exact Hi|].
        unfold opening. rewrite <- Hshift. exact Ht.
    + intros [|i] cfg t Hi Ht.
      * injection Hi as <-. rewrite Hfirst in Ht. rewrite Ht in Hbest1.
        destruct Hbest1 as [_ Hbest1].
        destruct (track_monotone t v) as (b1 & Hb1 & Hle & _).
        destruct (Hc b1) as (b' & Hb' & Hle'); [congruence|].
        exists b'. split; [exact Hb' | lia].
      * apply (Hb i cfg t Hi). unfold opening in Ht. rewrite <- Hshift in Ht. exact Ht.
    + intros b Hbv.
      assert (exists b1, bestCandidate v1 = Some b1
                         /\ (List.length b <= List.length b1)%nat) as (b1 & Hb1 & Hle).
      { destruct (usableText (provider (List.length trace) _)) as [t|].
        - destruct Hbest1 as [_ Hbest1].
          destruct (track_monotone t v) as (b1 & Hb1 & _ & Hmono & _).
          exists b1. split; [congruence | auto].
        - exists b. split; [congruence | lia]. }
      destruct (Hc b1 Hb1) as (b' & Hb' & Hle'). exists b'. split; [exact Hb' | lia].
Qed.

(** C2. When the opening answer of a configuration comes back with a
    text and the finish reason MAX_TOKENS, the orchestrator makes the text
    the fallback candidate exactly when it is strictly longer than the
    current one (or there is none), sends no correction to that
    configuration, records the truncation as the last error and goes on
    with the next configuration.  Hence when the opening answer of every
    configured model is truncated, there is one request per configuration
    and the response is either a success tagged [fallback], with 0
    retries, whose text is a longest one of the truncated texts and has at
    least 10 characters, or the generation-failed error, all truncated
    texts being shorter than 10 characters; it is never a success under
    the name of a configuration. *)
Theorem truncated_openings (provider : Provider) :
  (forall API_KEY modelConfig userPrompt v trace r t,
      callGemini_settle
        (provider (List.length trace)
                  (geminiRequest modelConfig API_KEY
                                 [ {| role := user; parts := userPrompt |} ])) = inl r ->
      text r = Some t -> t <> [] ->
      Js.isStr (finishReason r) (js "MAX_TOKENS") = true ->
      exists v' x,
        iteration provider API_KEY modelConfig userPrompt v trace
        = (false, v', trace ++ [x])
        /\ retries v' = retries v
        /\ generatedTrivia v' = generatedTrivia v
        /\ lastError v' = Some truncatedError
        /\ (beats t (bestCandidate v) -> bestCandidate v' = Some t)
        /\ (~ beats t (bestCandidate v) -> bestCandidate v' = bestCandidate v))
  /\ (forall API_KEY_RAW now createdAt req m keyword,
         reachesGeneration API_KEY_RAW now req m keyword ->
         (forall i modelConfig,
             nth_error MODEL_CONFIGS i = Some modelConfig ->
             truncated (provider i (openingRequest modelConfig (apiKey API_KEY_RAW) keyword))) ->
         let truncatedText t :=
             exists i modelConfig,
               nth_error MODEL_CONFIGS i = Some modelConfig
               /\ usableText (provider i (openingRequest modelConfig
                                            (apiKey API_KEY_RAW) keyword)) = Some t in
         List.length (exchanges (POST API_KEY_RAW provider now createdAt req m))
         = List.length MODEL_CONFIGS
         /\ List.filter isCorrection
                        (exchanges (POST API_KEY_RAW provider now createdAt req m)) = []
         /\ ((exists trivia,
                 response (POST API_KEY_RAW provider now createdAt req m)
                 = TriviaJson trivia keyword (js "kitakyushu") 0 (js "fallback") createdAt
                 /\ (10 <= List.length trivia)%nat
                 /\ truncatedText trivia
                 /\ forall t, truncatedText t -> (List.length t <= List.length trivia)%nat)
             \/ (exists e,
                    response (POST API_KEY_RAW provider now createdAt req m)
                    = generationFailed (Some e)
                    /\ forall t, truncatedText t -> (List.length t < 10)%nat))).
Proof.
  split.
  - intros API_KEY modelConfig userPrompt v trace r t Hsettle Htext Hne Hmax.
    destruct (iteration_truncated provider API_KEY modelConfig userPrompt v trace)
      as (v' & Hit & Hret & Hgen & _ & _ & Hbest).
    { exists r. auto. }
    unfold usableText in Hbest. rewrite Hsettle, Htext, (absent_some _ Hne) in Hbest.
    destruct Hbest as [Herr Hbest]. destruct (track_beats t v) as [Hyes Hno].
    exists v'. eexists. split; [exact Hit|]. rewrite Hbest. auto.
  - intros API_KEY_RAW now createdAt req m keyword Hreach Htrunc truncatedText.
    rewrite (POST_generation _ _ _ _ _ _ _ Hreach). unfold generate.
    destruct (outerLoop_truncated provider (apiKey API_KEY_RAW) (buildUserPrompt keyword)
                                  MODEL_CONFIGS initialVars [] Htrunc)
      as (v' & new & -> & Hlen & Hnone & Hret & Hgen & Hused & Herr & Ha & Hb & _).
    cbn [app exchanges response].
    split; [exact Hlen|]. split; [exact Hnone|].
    destruct (useFallback_cases v') as [[-> Hsmall]|(best & Hbest & Hten & _ & ->)].
    + right. rewrite Hgen. cbn [initialVars generatedTrivia absent].
      destruct Herr as [e He]; [left; discriminate|]. exists e. rewrite He.
      split; [reflexivity|]. intros t (i & cfg & Hi & Ht).
      destruct (Hb i cfg t Hi Ht) as (b' & Hb' & Hle).
      specialize (Hsmall Hgen b' Hb'). lia.
    + left. exists best. cbn [generatedTrivia fallback usedModel retries].
      assert (Hne : best <> []) by (intros ->; simpl in Hten; lia).
      rewrite (absent_some _ Hne), Hret. cbn [default from_option id initialVars retries].
      split; [reflexivity|]. split; [exact Hten|]. split.
      * destruct (Ha best Hbest) as [Hinit|Hfound]; [discriminate Hinit | exact Hfound].
      * intros t (i & cfg & Hi & Ht).
        destruct (Hb i cfg t Hi Ht) as (b' & Hb' & Hle). congruence.
Qed.

Lemma truncated_openings_witness :
  let truncatedText t :=
      exists i modelConfig,
        nth_error MODEL_CONFIGS i = Some modelConfig
        /\ usableText (cutOff i (openingRequest modelConfig (apiKey (Some (js "key")))
                                                (js "ラーメン"))) = Some t in
  List.length (exchanges (POST (Some (js "key")) cutOff 1000 2000 ramenRequest ∅))
  = List.length MODEL_CONFIGS
  /\ List.filter isCorrection
                 (exchanges (POST (Some (js "key")) cutOff 1000 2000 ramenRequest ∅)) = []
  /\ ((exists trivia,
          response (POST (Some (js "key")) cutOff 1000 2000 ramenRequest ∅)
          = TriviaJson trivia (js "ラーメン") (js "kitakyushu") 0 (js "fallback") 2000
          /\ (10 <= List.length trivia)%nat
          /\ truncatedText trivia
          /\ forall t, truncatedText t -> (List.length t <= List.length trivia)%nat)
      \/ (exists e,
             response (POST (Some (js "key")) cutOff 1000 2000 ramenRequest ∅)
             = generationFailed (Some e)
             /\ forall t, truncatedText t -> (List.length t < 10)%nat)).
Proof.
  apply (proj2 (truncated_openings cutOff) (Some (js "key")) 1000 2000 ramenRequest ∅
               (js "ラーメン") ramenRequest_reaches).
  intros i modelConfig _. eexists. split; [vm_compute; reflexivity | reflexivity].
Defined.

(** What the response is in that case. *)
Example cutOff_run :
  response (POST (Some (js "key")) cutOff 1000 2000 ramenRequest ∅)
  = TriviaJson (letters 12) (js "ラーメン") (js "kitakyushu") 0 (js "fallback") 2000.
Proof. vm_compute. reflexivity. Qed.

(** * Further properties of the code *)

(** ** Trimming *)

Lemma trimStart_idem (s : jsstring) : trimStart (trimStart s) = trimStart s.
Proof.
  induction s as [|c s IH]; [reflexivity|]. simpl.
  destruct (isWhite c) eqn:Hc; [exact IH|]. simpl. rewrite Hc. reflexivity.
Qed.

Lemma trimStart_nonwhite (c : N) (s : jsstring) :
  isWhite c = false -> trimStart (c :: s) = c :: s.
Proof. intros Hc. simpl. rewrite Hc. reflexivity. Qed.

Lemma trimStart_head (s : jsstring) (c : N) (r : jsstring) :
  trimStart s = c :: r -> isWhite c = false.
Proof.
  induction s as [|d s IH]; simpl; [discriminate|].
  destruct (isWhite d) eqn:Hd; [exact IH|]. intros [= <- <-]. exact Hd.
Qed.

Lemma trimStart_snoc (s : jsstring) (c : N) :
  isWhite c = false -> trimStart (s ++ [c]) = trimStart s ++ [c].
Proof.
  intros Hc. induction s as [|d s IH]; simpl; [rewrite Hc; reflexivity|].
  destruct (isWhite d); [exact IH | reflexivity].
Qed.

Lemma trimStart_app (a b : jsstring) :
  a <> [] -> trimStart a = a -> trimStart (a ++ b) = a ++ b.
Proof.
  destruct a as [|c a]; [congruence|]. intros _ Ha.
  pose proof (trimStart_head _ _ _ Ha) as Hc. simpl. rewrite Hc. reflexivity.
Qed.

Lemma trimEnd_nonwhite (c : N) (s : jsstring) :
  isWhite c = false -> trimEnd (c :: s) = c :: trimEnd s.
Proof.
  intros Hc. unfold trimEnd. simpl. rewrite trimStart_snoc by exact Hc.
  rewrite rev_app_distr. reflexivity.
Qed.

Lemma tidy_trim_fixed (s : jsstring) : tidy s -> trim s = s.
Proof.
  intros [Hs Hr]. unfold trim, trimEnd. rewrite Hs, Hr. apply rev_involutive.
Qed.

Lemma trim_tidy (s : jsstring) : tidy (trim s).
Proof.
  unfold tidy, trim. set (u := trimStart s). split.
  - assert (Hu : trimStart u = u) by apply trimStart_idem.
    destruct u as [|c u]; [reflexivity|].
    pose proof (trimStart_head _ _ _ Hu) as Hc.
    rewrite trimEnd_nonwhite by exact Hc. apply trimStart_nonwhite. exact Hc.
  - unfold trimEnd. rewrite rev_involutive. apply trimStart_idem.
Qed.

Lemma trim_idem (s : jsstring) : trim (trim s) = trim s.
Proof. apply tidy_trim_fixed, trim_tidy. Qed.

Lemma tidy_app (a b : jsstring) :
  a <> [] -> b <> [] -> tidy a -> tidy b -> tidy (a ++ b).
Proof.
  intros Ha Hb [Ha1 Ha2] [Hb1 Hb2]. split.
  - apply trimStart_app; assumption.
  - rewrite rev_app_distr. apply trimStart_app; [|exact Hb2].
    intros Hrev. apply Hb. apply (f_equal (@rev N)) in Hrev.
    rewrite rev_involutive in Hrev. exact Hrev.
Qed.

Lemma tidy_concat (ts : list jsstring) :
  Forall (fun t => t <> [] /\ tidy t) ts ->
  tidy (concat ts) /\ (ts <> [] -> concat ts <> []).
Proof.
  induction 1 as [|t ts [Hne Ht] _ [IHt IHne]]; [split; [split; reflexivity | congruence]|].
  simpl. split.
  - destruct ts as [|t' ts]; [simpl; rewrite app_nil_r; exact Ht|].
    apply tidy_app; auto; apply IHne; discriminate.
  - intros _ Happ. apply app_eq_nil in Happ as [? _]. contradiction.
Qed.

(** ** What [extractText] returns *)

Lemma collectTextParts_tidy (ps : list JsValue) :
  forall acc textParts,
    collectTextParts ps acc = Some textParts ->
    Forall (fun t => t <> [] /\ tidy t) acc ->
    Forall (fun t => t <> [] /\ tidy t) textParts.
Proof.
  induction ps as [|p ps IH]; intros acc textParts; simpl.
  - intros [= <-]. auto.
  - destruct (Js.get p (js "thought")) as [thought|]; [|discriminate].
    destruct (Js.isTrue thought); [apply IH|].
    destruct (Js.getOpt p (js "text")) as [| | | |t| |]; try apply IH.
    destruct (Nat.ltb_spec 0 (List.length (trim t))); [|apply IH].
    intros Hrun Hacc. apply (IH _ _ Hrun). apply Forall_app. split; [exact Hacc|].
    constructor; [|constructor]. split; [|apply trim_tidy].
    intros Hnil. rewrite Hnil in *. simpl in *. lia.
Qed.

(** X1. A text that [extractText] returns is never empty and has no
    white space at either end, so for the results of [callGemini] a
    falsy text is a missing text. *)
Theorem extractText_tidy :
  (forall data t, extractText data = Some t -> t <> [] /\ trim t = t)
  /\ (forall outcome r t,
         callGemini_settle outcome = inl r -> text r = Some t ->
         t <> [] /\ trim t = t /\ absent (text r) = false).
Proof.
  assert (Hextract : forall data t, extractText data = Some t -> t <> [] /\ trim t = t).
  { intros data t. unfold extractText, extractText_try.
    destruct (_ || _); [discriminate|].
    destruct (negb _); [discriminate|].
    destruct (_ || _); [discriminate|].
    destruct (Js.iterate _) as [items|]; [|discriminate].
    destruct (collectTextParts items []) as [textParts|] eqn:Hparts; [|discriminate].
    destruct (Nat.ltb_spec 0 (List.length textParts)); [|discriminate].
    intros [= <-].
    pose proof (collectTextParts_tidy _ _ _ Hparts (List.Forall_nil _)) as Htidy.
    destruct (tidy_concat _ Htidy) as [Hc Hne].
    rewrite (tidy_trim_fixed _ Hc). split.
    - apply Hne. intros ->. simpl in *. lia.
    - apply tidy_trim_fixed. exact Hc. }
  split; [exact Hextract|].
  intros outcome r t Hsettle Htext. unfold callGemini_settle in Hsettle.
  destruct outcome as [e|response]; [discriminate|].
  destruct (negb (ok response)).
  - destruct (status response =? 404); [|discriminate].
    injection Hsettle as <-. discriminate Htext.
  - destruct (bodyJson response) as [data|]; [|discriminate].
    injection Hsettle as <-. simpl in *.
    destruct (Hextract _ _ Htext) as [Hne Htrim].
    rewrite Htext, (absent_some _ Hne). auto.
Qed.

Lemma extractText_tidy_witness :
  js "小倉は焼きうどん発祥の地らしい。" <> []
  /\ trim (js "小倉は焼きうどん発祥の地らしい。") = js "小倉は焼きうどん発祥の地らしい。".
Proof.
  apply (proj1 extractText_tidy
           (responseWith [ part (true, js "考え中"); part (false, js " 小倉は焼きうどん");
                           part (false, js "発祥の地らしい。 ") ])).
  vm_compute. reflexivity.
Defined.

Lemma responseWith_extract (p : JsValue) (ps : list JsValue) :
  extractText (responseWith (p :: ps)) =
  match collectTextParts (p :: ps) [] with
  | Some textParts =>
    if (0 <? List.length textParts)%nat then Some (trim (concat textParts)) else None
  | None => None
  end.
Proof.
  unfold extractText, extractText_try, responseWith.
  change (Js.getOpt (JObj _) (js "candidates")) with
      (JArr [ JObj [ (js "content", JObj [ (js "parts", JArr (p :: ps)) ]) ] ]).
  cbn [Js.truthy negb orb Js.length List.length Js.isZero Z.of_nat Js.first].
  change (Js.getOpt (JObj _) (js "content")) with (JObj [ (js "parts", JArr (p :: ps)) ]).
  cbn [Js.truthy negb].
  change (Js.getOpt (JObj _) (js "parts")) with (JArr (p :: ps)).
  cbn [Js.truthy negb orb Js.length List.length Js.isZero Z.of_nat Js.iterate].
  unfold Z.of_nat. cbv beta iota.
  destruct (collectTextParts (p :: ps) []) as [l|]; [|reflexivity].
  destruct (0 <? List.length l)%nat; reflexivity.
Qed.

Lemma collectTextParts_visible (ps : list (bool * jsstring)) :
  forall acc,
    collectTextParts (List.map part ps) acc = Some (acc ++ visibleTexts ps).
Proof.
  unfold visibleTexts.
  induction ps as [|[thought t] ps IH]; intros acc; [simpl; rewrite app_nil_r; reflexivity|].
  cbn [List.map collectTextParts]. destruct thought.
  - change (Js.get (part (true, t)) (js "thought")) with (Some (JBool true)).
    cbn [Js.isTrue List.filter fst negb]. apply IH.
  - change (Js.get (part (false, t)) (js "thought")) with (Some JUndefined).
    change (Js.getOpt (part (false, t)) (js "text")) with (JStr t).
    cbn [Js.isTrue List.filter fst snd negb List.map].
    destruct (0 <? List.length (trim t))%nat; [|apply IH].
    rewrite IH, <- app_assoc. reflexivity.
Qed.

Lemma visibleTexts_tidy (ps : list (bool * jsstring)) :
  Forall (fun t => t <> [] /\ tidy t) (visibleTexts ps).
Proof.
  unfold visibleTexts. apply List.Forall_forall. intros t Ht.
  apply filter_In in Ht as [Hin Hlen].
  apply in_map_iff in Hin as (p & <- & _). split; [|apply trim_tidy].
  intros Hnil. rewrite Hnil in Hlen. discriminate Hlen.
Qed.

(** X2. For a response whose first candidate carries text parts, some
    of them marked as thoughts, the extracted text is the concatenation,
    without separator, of the trimmed texts of the parts that are not
    thoughts, blank ones left out; it is null when none is left. *)
Theorem extractText_parts (ps : list (bool * jsstring)) :
  extractText (responseWith (List.map part ps)) =
  match visibleTexts ps with
  | [] => None
  | ts => Some (concat ts)
  end.
Proof.
  destruct ps as [|p ps].
  - reflexivity.
  - cbn [List.map]. rewrite responseWith_extract.
    change (part p :: List.map part ps) with (List.map part (p :: ps)).
    rewrite collectTextParts_visible. cbn [app].
    pose proof (visibleTexts_tidy (p :: ps)) as Htidy.
    destruct (visibleTexts (p :: ps)) as [|t ts]; [reflexivity|].
    cbn [List.length Nat.ltb Nat.leb].
    rewrite (tidy_trim_fixed _ (proj1 (tidy_concat _ Htidy))). reflexivity.
Qed.

Lemma collectTextParts_null (before after : list JsValue) :
  forall acc, collectTextParts (before ++ JNull :: after) acc = None.
Proof.
  induction before as [|p before IH]; intros acc; [reflexivity|].
  cbn [app collectTextParts].
  destruct (Js.get p (js "thought")) as [thought|]; [|reflexivity].
  destruct (Js.isTrue thought); [apply IH|].
  destruct (Js.getOpt p (js "text")); try apply IH.
  destruct (_ <? _)%nat; apply IH.
Qed.

(** X3. One [null] among the parts makes the extracted text null,
    whatever the other parts carry: the TypeError is swallowed by the
    [catch]. *)
Theorem extractText_null_part (before after : list JsValue) :
  extractText (responseWith (before ++ JNull :: after)) = None.
Proof.
  destruct before as [|p before].
  - cbn [app]. rewrite responseWith_extract. reflexivity.
  - cbn [app]. rewrite responseWith_extract.
    change (p :: before ++ JNull :: after) with ((p :: before) ++ JNull :: after).
    rewrite collectTextParts_null. reflexivity.
Qed.

(** ** Failures of the provider *)

Lemma status_digits (n : nat) :
  (100 <= n < 1000)%nat -> List.length (ofNat n) = 3%nat.
Proof.
  intros Hn.
  assert (Hall : forallb (fun k => (List.length (ofNat k) =? 3)%nat) (seq 100 900) = true)
    by (vm_compute; reflexivity).
  rewrite forallb_forall in Hall. apply Nat.eqb_eq, Hall, in_seq. lia.
Qed.

(** X4. For a response with a status from 300 to 599 other than 404,
    [callGemini] throws an error whose message starts with [HTTP], the
    status and a colon, and carries at most the first 200 characters of
    the body: the message has at most 210 characters. *)
Theorem callGemini_error_bounded (response : HttpResponse) :
  300 <= status response <= 599 -> status response <> 404 ->
  exists message,
    callGemini_settle (Responded response) = inr (Error message)
    /\ message = js "HTTP " ++ ofZ (status response) ++ js ": "
                 ++ firstn 200 (bodyText response)
    /\ (List.length message <= 210)%nat
    /\ (List.length message <= 10 + List.length (bodyText response))%nat.
Proof.
  intros Hstatus H404. unfold callGemini_settle, ok.
  destruct (Z.leb_spec (status response) 299); [lia|].
  rewrite andb_false_r. cbn [negb].
  destruct (Z.eqb_spec (status response) 404); [contradiction|].
  eexists. split; [reflexivity|]. split; [reflexivity|].
  rewrite !length_app, length_firstn. unfold ofZ.
  destruct (Z.ltb_spec (status response) 0); [lia|].
  rewrite status_digits by lia.
  change (List.length (js "HTTP ")) with 5%nat. change (List.length (js ": ")) with 2%nat.
  lia.
Qed.

Lemma callGemini_error_bounded_witness :
  exists message,
    callGemini_settle
      (Responded {| status := 503; bodyText := letters 500; bodyJson := None |})
    = inr (Error message)
    /\ message = js "HTTP " ++ ofZ 503 ++ js ": " ++ firstn 200 (letters 500)
    /\ (List.length message <= 210)%nat
    /\ (List.length message <= 10 + List.length (letters 500))%nat.
Proof.
  apply (callGemini_error_bounded
           {| status := 503; bodyText := letters 500; bodyJson := None |}).
  - simpl. lia.
  - simpl. discriminate.
Defined.

(** ** The rate limiter under arbitrary use *)

Lemma isRateLimited_bounded (ip : jsstring) (now : Z) (m : RateLimitMap) :
  (forall ip' l, m !! ip' = Some l -> (List.length l <= 10)%nat) ->
  forall ip' l, snd (isRateLimited ip now m) !! ip' = Some l -> (List.length l <= 10)%nat.
Proof.
  intros Hm ip' l. rewrite isRateLimited_eq. cbv zeta.
  pose proof (recentAt_length now (default [] (m !! ip))) as Hrecent.
  destruct (Nat.leb_spec 10 (List.length (recentAt now (default [] (m !! ip)))));
    cbn [snd]; rewrite lookup_insert; case_decide.
  - intros [= <-]. destruct (m !! ip) as [l0|] eqn:Hl0; simpl in *; [|lia].
    specialize (Hm _ _ Hl0). lia.
  - apply Hm.
  - intros [= <-]. rewrite length_app. simpl. lia.
  - apply Hm.
Qed.

Lemma sweep_lookup (now : Z) (m : RateLimitMap) (ip : jsstring) :
  sweep now m !! ip =
  match m !! ip with
  | Some l => match recentAt now l with [] => None | recent => Some recent end
  | None => None
  end.
Proof.
  unfold sweep. rewrite lookup_omap. destruct (m !! ip) as [l|]; [|reflexivity].
  simpl. unfold sweepEntry. fold (recentAt now l).
  destruct (recentAt now l); reflexivity.
Qed.

(** X5. Whatever checks and sweeps happen, for whatever clients and at
    whatever clock readings, the map that started empty never holds more
    than ten timestamps for a client. *)
Theorem rateLimitMap_bounded (events : list LimiterEvent) (ip : jsstring) (l : list Z) :
  afterEvents events ∅ !! ip = Some l -> (List.length l <= 10)%nat.
Proof.
  assert (Hgen : forall m,
             (forall ip' l', m !! ip' = Some l' -> (List.length l' <= 10)%nat) ->
             forall ip' l', afterEvents events m !! ip' = Some l' ->
                            (List.length l' <= 10)%nat).
  { induction events as [|[ip0 now|now] events IH]; intros m Hm; cbn [afterEvents].
    - exact Hm.
    - apply IH. apply isRateLimited_bounded. exact Hm.
    - apply IH. intros ip' l'. rewrite sweep_lookup.
      destruct (m !! ip') as [l0|] eqn:Hl0; [|discriminate].
      pose proof (recentAt_length now l0) as Hle. specialize (Hm _ _ Hl0).
      destruct (recentAt now l0); [discriminate|]. intros [= <-]. lia. }
  apply Hgen. intros ip' l'. rewrite lookup_empty. discriminate.
Qed.

Lemma rateLimitMap_bounded_witness :
  (List.length [5; 7]%Z <= 10)%nat.
Proof.
  apply (rateLimitMap_bounded
           [ Checked (js "a") 1; Checked (js "a") 5; Checked (js "b") 6;
             Swept 60002; Checked (js "a") 7 ] (js "a")).
  vm_compute. reflexivity.
Defined.

(** X6. Whatever the map holds, of the calls a client makes at clock
    readings that lie within one span of 60 seconds, at most ten are
    admitted. *)
Theorem at_most_ten_admissions (ip : jsstring) (t1 : Z) (times : list Z)
        (m : RateLimitMap) :
  Forall (fun t => t1 <= t < t1 + 60000) times ->
  (admitted (fst (admissions ip times m)) <= 10)%nat.
Proof.
  intros Htimes.
  enough (admitted (fst (admissions ip times m))
          <= 10 - liveSince t1 (default [] (m !! ip)))%nat by lia.
  revert m. induction Htimes as [|t times Ht _ IH]; intros m;
    [unfold admitted; simpl; lia|].
  cbn [admissions].
  destruct (admission_entry ip m t) as [Hfst Hsnd].
  destruct (isRateLimited ip t m) as [limited m1]. cbn [fst snd] in Hfst, Hsnd.
  specialize (IH m1). destruct (admissions ip times m1) as [ds m2].
  cbn [fst] in *. rewrite Hsnd in IH. cbn [default from_option id] in IH.
  pose proof (liveSince_le t1 (recentAt t (default [] (m !! ip)))) as Hle.
  rewrite liveSince_recentAt in Hle by exact Ht.
  unfold admitted in *. cbn [List.filter]. subst limited.
  destruct (Nat.leb_spec 10 (List.length (recentAt t (default [] (m !! ip)))));
    cbn [negb List.length].
  - rewrite liveSince_recentAt in IH by exact Ht. exact IH.
  - rewrite liveSince_snoc, liveSince_recentAt in IH by exact Ht. lia.
Qed.

Lemma at_most_ten_admissions_witness :
  (admitted (fst (admissions (js "a") [10; 20; 5; 59999; 30]%Z crowded)) <= 10)%nat.
Proof.
  apply (at_most_ten_admissions (js "a") 0%Z).
  repeat (constructor; [lia|]). constructor.
Defined.

(** X7. The sweep keeps, for every client, exactly the timestamps less
    than 60 seconds old, and drops the client when none is left: no
    entry of the swept map is empty or holds an older timestamp. *)
Theorem sweep_entries (now : Z) (m : RateLimitMap) (ip : jsstring) :
  default [] (sweep now m !! ip) = recentAt now (default [] (m !! ip))
  /\ sweep now m !! ip <> Some []
  /\ (forall l, sweep now m !! ip = Some l -> Forall (fun t => now - t < 60000) l)
  /\ (sweep now m !! ip = None <-> recentAt now (default [] (m !! ip)) = []).
Proof.
  rewrite sweep_lookup. destruct (m !! ip) as [l0|]; cbn [default from_option id].
  2:{ repeat split; auto; discriminate. }
  assert (Hrecent : Forall (fun t => now - t < 60000) (recentAt now l0)).
  { apply List.Forall_forall. intros t Ht. apply filter_In in Ht as [_ Ht].
    apply Z.ltb_lt. exact Ht. }
  destruct (recentAt now l0) as [|t recent]; cbn [default from_option id].
  - repeat split; auto; discriminate.
  - split; [reflexivity|]. split; [discriminate|]. split.
    + intros l [= <-]. exact Hrecent.
    + split; discriminate.
Qed.

Lemma admissions_entry_only (ip : jsstring) (times : list Z) :
  forall m1 m2 : RateLimitMap,
    default [] (m1 !! ip) = default [] (m2 !! ip) ->
    fst (admissions ip times m1) = fst (admissions ip times m2).
Proof.
  induction times as [|now times IH]; intros m1 m2 Hsame; [reflexivity|].
  cbn [admissions].
  destruct (admission_entry ip m1 now) as [Hd1 He1].
  destruct (admission_entry ip m2 now) as [Hd2 He2].
  rewrite Hsame in Hd1, He1. rewrite <- Hd2 in Hd1. rewrite <- He2 in He1.
  destruct (isRateLimited ip now m1) as [d1 m1'].
  destruct (isRateLimited ip now m2) as [d2 m2']. cbn [fst snd] in *.
  specialize (IH m1' m2'). rewrite He1 in IH. specialize (IH eq_refl).
  destruct (admissions ip times m1') as [ds1 ?].
  destruct (admissions ip times m2') as [ds2 ?]. cbn [fst] in *.
  congruence.
Qed.

(** X8. The periodic sweep changes no later decision of the limiter:
    the checks of a client that follow a sweep are decided as they would
    have been without it. *)
Theorem sweep_transparent (swept now : Z) (later : list Z) (m : RateLimitMap)
        (ip : jsstring) :
  swept <= now ->
  fst (admissions ip (now :: later) (sweep swept m))
  = fst (admissions ip (now :: later) m).
Proof.
  intros Hle. cbn [admissions].
  destruct (admission_entry ip (sweep swept m) now) as [Hd1 He1].
  destruct (admission_entry ip m now) as [Hd2 He2].
  rewrite sweep_entry, recentAt_recentAt in Hd1, He1 by exact Hle.
  rewrite <- Hd2 in Hd1. rewrite <- He2 in He1.
  destruct (isRateLimited ip now (sweep swept m)) as [d1 m1'].
  destruct (isRateLimited ip now m) as [d2 m2']. cbn [fst snd] in *.
  assert (Hlater : fst (admissions ip later m1') = fst (admissions ip later m2'))
    by (apply admissions_entry_only; rewrite He1; reflexivity).
  destruct (admissions ip later m1') as [ds1 ?].
  destruct (admissions ip later m2') as [ds2 ?]. cbn [fst] in *.
  congruence.
Qed.

Lemma sweep_transparent_witness :
  fst (admissions (js "unknown") [70000; 70001] (sweep 65000 crowded))
  = fst (admissions (js "unknown") [70000; 70001] crowded).
Proof. apply sweep_transparent. lia. Defined.

(** ** The client address *)

Lemma trimStart_incl (s : jsstring) (c : N) : In c (trimStart s) -> In c s.
Proof.
  induction s as [|d s IH]; simpl; [auto|].
  destruct (isWhite d); [auto | simpl; auto].
Qed.

Lemma trim_incl (s : jsstring) (c : N) : In c (trim s) -> In c s.
Proof.
  unfold trim, trimEnd. intros H. rewrite <- in_rev in H.
  apply trimStart_incl in H. rewrite <- in_rev in H.
  apply trimStart_incl. exact H.
Qed.

Lemma trimStart_keeps (s : jsstring) (c : N) :
  In c s -> isWhite c = false -> In c (trimStart s).
Proof.
  intros Hin Hc. induction s as [|d s IH]; [destruct Hin|]. simpl.
  destruct (isWhite d) eqn:Hd.
  - destruct Hin as [->|Hin]; [congruence | auto].
  - exact Hin.
Qed.

Lemma hasInk_trim (s : jsstring) : hasInk s <-> trim s <> [].
Proof.
  split.
  - intros (c & Hin & Hc) Hnil.
    assert (Hkept : In c (trim s)).
    { unfold trim, trimEnd. rewrite <- in_rev.
      apply trimStart_keeps; [|exact Hc]. rewrite <- in_rev.
      apply trimStart_keeps; assumption. }
    rewrite Hnil in Hkept. destruct Hkept.
  - intros Hne. destruct (trim s) as [|c r] eqn:Htrim; [congruence|].
    exists c. split.
    + apply trim_incl. rewrite Htrim. left. reflexivity.
    + destruct (trim_tidy s) as [Hstart _]. rewrite Htrim in Hstart.
      exact (trimStart_head _ _ _ Hstart).
Qed.





(** ** The handler on every input *)

Lemma apiKey_usable (API_KEY_RAW : option jsstring) :
  apiKey API_KEY_RAW <> [] <-> exists k, API_KEY_RAW = Some k /\ hasInk k.
Proof.
  unfold apiKey. destruct API_KEY_RAW as [[|c k]|]; cbn [absent default from_option id].
  - split; [congruence|]. intros (k & [= <-] & (c & [] & _)).
  - rewrite <- hasInk_trim. split; [eauto|]. intros (k' & [= <-] & Hink). exact Hink.
  - split; [congruence|]. intros (k & Hk & _). discriminate Hk.
Qed.

(** X10. The handler answers [config_error] (500) exactly when the
    configured key is missing or has nothing but white space in it; it
    then leaves the rate-limit map as it was, contacts no provider and
    logs nothing. *)
Theorem config_error_iff (API_KEY_RAW : option jsstring) (provider : Provider)
        (now createdAt : Z) (req : Request) (m : RateLimitMap) :
  (errorCode (response (POST API_KEY_RAW provider now createdAt req m))
   = Some (js "config_error")
   <-> ~ exists k, API_KEY_RAW = Some k /\ hasInk k)
  /\ ((~ exists k, API_KEY_RAW = Some k /\ hasInk k) ->
      POST API_KEY_RAW provider now createdAt req m =
      {| response := ErrorJson 500 (js "config_error")
                       (js "APIキーが設定されていません。") None;
         rateLimitMapAfter := m; exchanges := []; logged := None |}).
Proof.
  rewrite <- apiKey_usable.
  assert (Hno : ~ apiKey API_KEY_RAW <> [] ->
                POST API_KEY_RAW provider now createdAt req m =
                {| response := ErrorJson 500 (js "config_error")
                                 (js "APIキーが設定されていません。") None;
                   rateLimitMapAfter := m; exchanges := []; logged := None |}).
  { intros Hkey. apply POST_no_key. destruct (apiKey API_KEY_RAW); [reflexivity|].
    destruct Hkey. discriminate. }
  split; [|exact Hno]. split.
  - intros Hcode Hkey. unfold POST in Hcode. rewrite (absent_some _ Hkey) in Hcode.
    destruct (isRateLimited _ _ _) as [[|] m']; [vm_compute in Hcode; discriminate|].
    destruct (readKeyword req) as [keyword|e]; [|vm_compute in Hcode; discriminate].
    unfold respond in Hcode.
    destruct (absent (Some keyword)); [vm_compute in Hcode; discriminate|].
    destruct (_ <? _)%nat; [vm_compute in Hcode; discriminate|].
    destruct (generate _ _ _ _) as [v trace].
    destruct (absent (generatedTrivia v)); cbn [response errorCode] in Hcode;
      [vm_compute in Hcode|]; discriminate.
  - intros Hkey. rewrite (Hno Hkey). reflexivity.
Qed.

Lemma config_error_iff_witness :
  POST (Some (js "  ")) silent 100 100 ramenRequest crowded =
  {| response := ErrorJson 500 (js "config_error")
                   (js "APIキーが設定されていません。") None;
     rateLimitMapAfter := crowded; exchanges := []; logged := None |}.
Proof.
  apply (proj2 (config_error_iff (Some (js "  ")) silent 100 100 ramenRequest crowded)).
  intros (k & [= <-] & (c & Hin & Hc)).
  vm_compute in Hin. destruct Hin as [<-|[<-|[]]]; discriminate Hc.
Defined.

(** X11. For a request that has a key and is admitted: when the body is
    not JSON, is [null], or carries a keyword that is truthy but not a
    string, the answer is the 500 server error and not a validation
    error; when the keyword is missing or falsy, the answer is the 400
    that asks for a word.  Either way no provider is contacted, nothing
    is logged and the admission stays recorded. *)
Theorem malformed_body (API_KEY_RAW : option jsstring) (provider : Provider)
        (now createdAt : Z) (req : Request) (m : RateLimitMap) :
  apiKey API_KEY_RAW <> [] ->
  fst (isRateLimited (clientAddress req) now m) = false ->
  let served error :=
      POST API_KEY_RAW provider now createdAt req m =
      {| response := error;
         rateLimitMapAfter := snd (isRateLimited (clientAddress req) now m);
         exchanges := []; logged := None |} in
  (json req = None -> served (serverError JsonSyntaxError))
  /\ (json req = Some JNull -> served (serverError TypeError))
  /\ (forall body k,
         json req = Some body -> Js.get body (js "keyword") = Some k ->
         Js.truthy k = true -> (forall s, k <> JStr s) ->
         served (serverError TypeError))
  /\ (forall body k,
         json req = Some body -> Js.get body (js "keyword") = Some k ->
         Js.truthy k = false ->
         served (ErrorJson 400 (js "validation_error") (js "単語を入れてください。") None)).
Proof.
  intros Hkey Hlim served. unfold served.
  rewrite (POST_admitted _ _ _ _ _ _ Hkey Hlim). unfold readKeyword.
  split; [|split; [|split]].
  - intros ->. reflexivity.
  - intros ->. reflexivity.
  - intros body k -> -> Htruthy Hnot. rewrite Htruthy.
    destruct k as [| | | |s| |]; try reflexivity. destruct (Hnot s eq_refl).
  - intros body k -> -> ->. reflexivity.
Qed.

Lemma malformed_body_witness :
  POST (Some (js "key")) silent 100 100
       {| forwardedFor := None; json := Some (JObj [ (js "keyword", JNum 42) ]) |} ∅ =
  {| response := serverError TypeError;
     rateLimitMapAfter := snd (isRateLimited (js "unknown") 100 ∅);
     exchanges := []; logged := None |}.
Proof.
  assert (Hkey : apiKey (Some (js "key")) <> []) by (vm_compute; discriminate).
  assert (Hlim : fst (isRateLimited
                        (clientAddress
                           {| forwardedFor := None;
                              json := Some (JObj [ (js "keyword", JNum 42) ]) |})
                        100 ∅) = false) by (vm_compute; reflexivity).
  apply (proj1 (proj2 (proj2
           (malformed_body (Some (js "key")) silent 100 100
              {| forwardedFor := None; json := Some (JObj [ (js "keyword", JNum 42) ]) |}
              ∅ Hkey Hlim)))
           (JObj [ (js "keyword", JNum 42) ]) (JNum 42)).
  - reflexivity.
  - reflexivity.
  - reflexivity.
  - discriminate.
Defined.

(** X12. The keyword is handed to [logKeyword] exactly when the answer
    is a success, and it is the keyword the success echoes: non-empty,
    at most 30 characters, without white space at either end.  No error
    answer logs anything. *)
Theorem logged_iff_success (API_KEY_RAW : option jsstring) (provider : Provider)
        (now createdAt : Z) (req : Request) (m : RateLimitMap) :
  logged (POST API_KEY_RAW provider now createdAt req m)
  = echoedKeyword (response (POST API_KEY_RAW provider now createdAt req m))
  /\ (forall keyword,
         logged (POST API_KEY_RAW provider now createdAt req m) = Some keyword ->
         keyword <> [] /\ (List.length keyword <= 30)%nat /\ trim keyword = keyword).
Proof.
  unfold POST. destruct (absent (Some (apiKey API_KEY_RAW))); [split; [reflexivity | discriminate]|].
  destruct (isRateLimited _ _ _) as [[|] m']; [split; [reflexivity | discriminate]|].
  destruct (readKeyword req) as [keyword|e] eqn:Hread; [|split; [reflexivity | discriminate]].
  assert (Htrim : trim keyword = keyword).
  { unfold readKeyword in Hread. destruct (json req) as [body|]; [|discriminate].
    destruct (Js.get body (js "keyword")) as [k|]; [|discriminate].
    destruct (if Js.truthy k then k else JStr []); try discriminate.
    injection Hread as <-. apply trim_idem. }
  unfold respond.
  destruct (absent (Some keyword)) eqn:Habs; [split; [reflexivity | discriminate]|].
  destruct (Nat.ltb_spec 30 (List.length keyword)); [split; [reflexivity | discriminate]|].
  destruct (generate _ _ _ _) as [v trace].
  destruct (absent (generatedTrivia v)); [split; [reflexivity | discriminate]|].
  split; [reflexivity|]. cbn [logged]. intros k [= <-].
  destruct (absent_false _ Habs) as (k & [= <-] & Hne). auto.
Qed.

Lemma logged_iff_success_witness :
  js "ラーメン" <> [] /\ (List.length (js "ラーメン") <= 30)%nat
  /\ trim (js "ラーメン") = js "ラーメン".
Proof.
  apply (proj2 (logged_iff_success (Some (js "key")) improving 1000 2000 ramenRequest ∅)).
  vm_compute. reflexivity.
Defined.

(** Exchanges mean that the request reached the orchestrator. *)
Lemma contacted_reaches (API_KEY_RAW : option jsstring) (provider : Provider)
      (now createdAt : Z) (req : Request) (m : RateLimitMap) :
  exchanges (POST API_KEY_RAW provider now createdAt req m) <> [] ->
  exists keyword, reachesGeneration API_KEY_RAW now req m keyword.
Proof.
  unfold reachesGeneration, POST.
  destruct (absent (Some (apiKey API_KEY_RAW))) eqn:Hkey; [cbn; congruence|].
  destruct (absent_false _ Hkey) as (key & [= <-] & Hne).
  destruct (isRateLimited _ _ _) as [[|] m'] eqn:Hlim; [cbn; congruence|].
  destruct (readKeyword req) as [keyword|e] eqn:Hread; [|cbn; congruence].
  unfold respond.
  destruct (absent (Some keyword)) eqn:Habs; [cbn; congruence|].
  destruct (Nat.ltb_spec 30 (List.length keyword)); [cbn; congruence|].
  destruct (absent_false _ Habs) as (k & [= <-] & Hk).
  intros _. exists keyword. auto.
Qed.

(** X13. A call of the handler changes the rate-limit map at most in
    the entry of the calling client, and it contacts the provider only
    for a request that has a key, is admitted and carries a keyword of 1
    to 30 characters. *)
Theorem handler_footprint (API_KEY_RAW : option jsstring) (provider : Provider)
        (now createdAt : Z) (req : Request) (m : RateLimitMap) :
  (forall ip, ip <> clientAddress req ->
              rateLimitMapAfter (POST API_KEY_RAW provider now createdAt req m) !! ip
              = m !! ip)
  /\ (exchanges (POST API_KEY_RAW provider now createdAt req m) <> [] ->
      exists keyword, reachesGeneration API_KEY_RAW now req m keyword).
Proof.
  split; [|apply contacted_reaches].
  assert (Hframe : forall ip, ip <> clientAddress req ->
             snd (isRateLimited (clientAddress req) now m) !! ip = m !! ip).
  { intros ip Hip. rewrite isRateLimited_eq. cbv zeta.
    destruct (_ <=? _)%nat; cbn [snd]; apply lookup_insert_ne; congruence. }
  unfold POST.
  destruct (absent (Some (apiKey API_KEY_RAW))); [reflexivity|].
  destruct (isRateLimited _ _ _) as [[|] m']; cbn [snd] in Hframe; [exact Hframe|].
  destruct (readKeyword req) as [keyword|e]; [|exact Hframe].
  destruct (respond _ _ _ _ _) as [[r trace] lg]. exact Hframe.
Qed.

Lemma handler_footprint_witness :
  rateLimitMapAfter (POST (Some (js "key")) improving 1000 2000 ramenRequest crowded)
  !! js "unknown" = crowded !! js "unknown".
Proof.
  apply (proj1 (handler_footprint (Some (js "key")) improving 1000 2000 ramenRequest crowded)).
  vm_compute. discriminate.
Defined.

(** ** What is sent to the provider *)

Lemma chain_dialogue (userPrompt : jsstring) (new : list Exchange) :
  forall x,
    dialogue userPrompt (contents (sent x)) -> chain x new ->
    Forall (fun y => dialogue userPrompt (contents (sent y))) new.
Proof.
  induction new as [|y new IH]; intros x Hx Hchain; [constructor|].
  destruct Hchain as [(c & _ & Hinvalid & Heq) Hrest].
  assert (Hy : dialogue userPrompt (contents (sent y)))
    by (rewrite Heq; constructor; assumption).
  constructor; [exact Hy | exact (IH y Hy Hrest)].
Qed.

Lemma chain_lengths (new : list Exchange) :
  forall x k y,
    chain x new -> nth_error new k = Some y ->
    List.length (contents (sent y))
    = (List.length (contents (sent x)) + 2 * S k)%nat.
Proof.
  induction new as [|z new IH]; intros x k y Hchain Hk; [destruct k; discriminate Hk|].
  destruct Hchain as [(c & _ & _ & Heq) Hrest]. destruct k as [|k].
  - injection Hk as <-. rewrite Heq, length_app. simpl. lia.
  - simpl in Hk. rewrite (IH z k y Hrest Hk), Heq, length_app. simpl. lia.
Qed.

Lemma dialogue_shape (userPrompt : jsstring) (messages : list Message) :
  dialogue userPrompt messages ->
  hd_error messages = Some {| role := user; parts := userPrompt |}
  /\ (exists before last, messages = before ++ [last] /\ role last = user)
  /\ Nat.Odd (List.length messages).
Proof.
  induction 1 as [|messages c _ (Hhd & _ & Hodd) Hinvalid].
  - split; [reflexivity|]. split; [exists [], {| role := user; parts := userPrompt |}; auto|].
    exists 0%nat. reflexivity.
  - split; [|split].
    + destruct messages; [discriminate Hhd | exact Hhd].
    + exists (messages ++ [ {| role := model; parts := c |} ]),
             {| role := user; parts := getRetryPrompt (List.length c) |}.
      rewrite <- app_assoc. auto.
    + destruct Hodd as [n Hn]. exists (S n). rewrite length_app, Hn. simpl. lia.
Qed.

(** X14. Every request the handler sends to the provider is built for
    one of the configured models with the trimmed key and the system
    prompt; its conversation opens with the user prompt for the keyword,
    goes on in pairs of an out-of-range candidate (model turn) and the
    correction prompt for its length (user turn), ends with a user turn
    and has 1, 3, 5 or 7 turns. *)
Theorem requests_sent (API_KEY_RAW : option jsstring) (provider : Provider)
        (now createdAt : Z) (req : Request) (m : RateLimitMap) (x : Exchange) :
  In x (exchanges (POST API_KEY_RAW provider now createdAt req m)) ->
  exists keyword modelConfig,
    readKeyword req = inl keyword
    /\ In modelConfig MODEL_CONFIGS
    /\ sent x = geminiRequest modelConfig (apiKey API_KEY_RAW) (contents (sent x))
    /\ systemInstruction (sent x) = SYSTEM_PROMPT
    /\ dialogue (buildUserPrompt keyword) (contents (sent x))
    /\ hd_error (contents (sent x))
       = Some {| role := user; parts := buildUserPrompt keyword |}
    /\ (exists before last, contents (sent x) = before ++ [last] /\ role last = user)
    /\ Nat.Odd (List.length (contents (sent x)))
    /\ (List.length (contents (sent x)) <= 7)%nat.
Proof.
  intros Hin.
  destruct (contacted_reaches API_KEY_RAW provider now createdAt req m)
    as (keyword & Hreach); [intros Hnil; rewrite Hnil in Hin; destruct Hin|].
  rewrite (POST_generation _ _ _ _ _ _ _ Hreach) in Hin.
  destruct (generate _ _ _ _) as [v trace] eqn:Hgen. cbn [exchanges] in Hin.
  destruct (generate_spec _ _ _ _ _ _ Hgen)
    as (attempts & rest & -> & _ & Hconfigs & Hwf & _).
  apply in_flat_map in Hin as (a & Ha & Hx).
  rewrite List.Forall_forall in Hwf. destruct (Hwf a Ha) as (Hopen & Hchain & Hlen & Hall).
  assert (Hcfg : In (config a) MODEL_CONFIGS).
  { rewrite Hconfigs. apply in_or_app. left. apply in_map. exact Ha. }
  assert (Hfirst : dialogue (buildUserPrompt keyword) (contents (sent (opening a))))
    by (rewrite Hopen; constructor).
  assert (Hfacts : sent x = geminiRequest (config a) (apiKey API_KEY_RAW) (contents (sent x))
                   /\ dialogue (buildUserPrompt keyword) (contents (sent x))
                   /\ (List.length (contents (sent x)) <= 7)%nat).
  { destruct Hx as [<-|Hx].
    - split; [rewrite Hopen; reflexivity|]. split; [exact Hfirst|].
      rewrite Hopen. simpl. lia.
    - split; [|split].
      + rewrite List.Forall_forall in Hall. exact (Hall x Hx).
      + pose proof (chain_dialogue _ _ _ Hfirst Hchain) as Hd.
        rewrite List.Forall_forall in Hd. exact (Hd x Hx).
      + apply In_nth_error in Hx as (k & Hk).
        rewrite (chain_lengths _ _ _ _ Hchain Hk), Hopen. simpl.
        assert (k < List.length (corrections a))%nat
          by (apply nth_error_Some; congruence).
        lia. }
  destruct Hfacts as (Hsent & Hdialogue & Hseven).
  destruct (dialogue_shape _ _ Hdialogue) as (Hhd & Hlast & Hodd).
  exists keyword, (config a).
  destruct Hreach as (_ & _ & Hread & _).
  repeat split; auto. rewrite Hsent. reflexivity.
Qed.

Lemma requests_sent_witness :
  exists keyword modelConfig,
    let x := {| sent := geminiRequest
                          {| name := js "gemini-2.0-flash"; maxOutputTokens := 500;
                             thinkingConfig := None |}
                          (js "key")
                          [ {| role := user; parts := buildUserPrompt (js "ラーメン") |} ];
                received := answer (letters 60) (js "STOP") |} in
    readKeyword ramenRequest = inl keyword
    /\ In modelConfig MODEL_CONFIGS
    /\ sent x = geminiRequest modelConfig (apiKey (Some (js "key"))) (contents (sent x))
    /\ systemInstruction (sent x) = SYSTEM_PROMPT
    /\ dialogue (buildUserPrompt keyword) (contents (sent x))
    /\ hd_error (contents (sent x))
       = Some {| role := user; parts := buildUserPrompt keyword |}
    /\ (exists before last, contents (sent x) = before ++ [last] /\ role last = user)
    /\ Nat.Odd (List.length (contents (sent x)))
    /\ (List.length (contents (sent x)) <= 7)%nat.
Proof.
  apply (requests_sent (Some (js "key")) improving 1000 2000 ramenRequest ∅).
  vm_compute. left. reflexivity.
Defined.

(** ** The fallback candidate *)

Lemma keepsBest_refl (best : option jsstring) : keepsBest best best [].
Proof.
  split; [|split].
  - intros t Ht. left. exact Ht.
  - intros x t [].
  - intros t Ht. exists t. auto.
Qed.

Lemma keepsBest_trans (b0 b1 b2 : option jsstring) (new1 new2 : list Exchange) :
  keepsBest b0 b1 new1 -> keepsBest b1 b2 new2 -> keepsBest b0 b2 (new1 ++ new2).
Proof.
  intros (Hfrom1 & Hall1 & Hmono1) (Hfrom2 & Hall2 & Hmono2). split; [|split].
  - intros t Ht. destruct (Hfrom2 t Ht) as [H1|(x & Hx & Hc)].
    + destruct (Hfrom1 t H1) as [H0|(x & Hx & Hc)]; [left; exact H0|].
      right. exists x. split; [apply in_or_app; left; exact Hx | exact Hc].
    + right. exists x. split; [apply in_or_app; right; exact Hx | exact Hc].
  - intros x t Hx Hc. apply in_app_or in Hx as [Hx|Hx].
    + destruct (Hall1 x t Hx Hc) as (t1 & H1 & Hle1).
      destruct (Hmono2 t1 H1) as (t2 & H2 & Hle2). exists t2. split; [exact H2 | lia].
    + exact (Hall2 x t Hx Hc).
  - intros t Ht. destruct (Hmono1 t Ht) as (t1 & H1 & Hle1).
    destruct (Hmono2 t1 H1) as (t2 & H2 & Hle2). exists t2. split; [exact H2 | lia].
Qed.

Lemma keepsBest_none (best : option jsstring) (x : Exchange) :
  candidateOf x = None -> keepsBest best best [x].
Proof.
  intros Hnone. split; [|split].
  - intros t Ht. left. exact Ht.
  - intros y t [<-|[]] Hc. congruence.
  - intros t Ht. exists t. auto.
Qed.

Lemma keepsBest_track (x : Exchange) (t : jsstring) (v : Vars) :
  candidateOf x = Some t ->
  keepsBest (bestCandidate v) (bestCandidate (track t v)) [x].
Proof.
  intros Hc. unfold track.
  destruct (bestCandidate v) as [b|] eqn:Hb.
  - destruct (absent (Some b)) eqn:Habs; cbn [orb].
    + cbn [bestCandidate]. split; [|split].
      * intros t' [= <-]. right. exists x. split; [left; reflexivity | exact Hc].
      * intros y t' [<-|[]] Hy. exists t. split; [reflexivity|].
        rewrite Hc in Hy. injection Hy as <-. lia.
      * intros t' [= <-]. exists t. split; [reflexivity|].
        destruct b; [simpl; lia | discriminate Habs].
    + destruct (Nat.ltb_spec (List.length b) (List.length t)).
      * cbn [bestCandidate]. split; [|split].
        -- intros t' [= <-]. right. exists x. split; [left; reflexivity | exact Hc].
        -- intros y t' [<-|[]] Hy. exists t. split; [reflexivity|].
           rewrite Hc in Hy. injection Hy as <-. lia.
        -- intros t' [= <-]. exists t. split; [reflexivity | lia].
      * rewrite Hb. split; [|split].
        -- intros t' Ht'. left. exact Ht'.
        -- intros y t' [<-|[]] Hy. exists b. split; [reflexivity|].
           rewrite Hc in Hy. injection Hy as <-. lia.
        -- intros t' Ht'. exists t'. auto.
  - cbn [absent orb bestCandidate]. split; [|split].
    + intros t' [= <-]. right. exists x. split; [left; reflexivity | exact Hc].
    + intros y t' [<-|[]] Hy. exists t. split; [reflexivity|].
      rewrite Hc in Hy. injection Hy as <-. lia.
    + intros t' Ht'. discriminate Ht'.
Qed.

Lemma retryLoop_best (provider : Provider) (API_KEY : jsstring) (remaining : nat)
      (modelConfig : ModelConfig) :
  forall (messages : list Message) (candidate : jsstring) (v : Vars)
         (trace : list Exchange) res v' trace',
    retryLoop provider API_KEY remaining modelConfig messages candidate v trace
    = (res, v', trace') ->
    exists new,
      trace' = trace ++ new
      /\ keepsBest (bestCandidate v) (bestCandidate v') new.
Proof.
  induction remaining as [|remaining IH];
    intros messages candidate v trace res v' trace' Hrun; cbn [retryLoop] in Hrun.
  { injection Hrun as <- <- <-. exists []. rewrite app_nil_r.
    split; [reflexivity | apply keepsBest_refl]. }
  destruct (isValidLength candidate).
  { injection Hrun as <- <- <-. exists []. rewrite app_nil_r.
    split; [reflexivity | apply keepsBest_refl]. }
  cbv zeta in Hrun. rewrite callGemini_eq in Hrun.
  set (messages' := messages ++ _) in *.
  set (request := geminiRequest modelConfig API_KEY messages') in *.
  set (x := {| sent := request; received := provider (List.length trace) request |}) in *.
  assert (Hcorr : isCorrection x = true).
  { unfold isCorrection, x, request, messages', geminiRequest. cbn [sent contents].
    rewrite length_app. apply Nat.ltb_lt. simpl. lia. }
  destruct (callGemini_settle (provider (List.length trace) request))
    as [r|e] eqn:Hsettle.
  2:{ injection Hrun as <- <- <-. exists [x]. split; [reflexivity|].
      apply (keepsBest_none (bestCandidate v) x).
      unfold candidateOf, settled. cbn [received x]. rewrite Hsettle. reflexivity. }
  destruct (absent (text r)) eqn:Habs; cbn [orb] in Hrun.
  { injection Hrun as <- <- <-. exists [x]. split; [reflexivity|].
    apply (keepsBest_none (bestCandidate v) x).
    unfold candidateOf, settled. cbn [received x]. rewrite Hsettle, Habs. reflexivity. }
  destruct (Js.isStr (finishReason r) (js "MAX_TOKENS")) eqn:Hmax.
  { injection Hrun as <- <- <-. exists [x]. split; [reflexivity|].
    apply (keepsBest_none (bestCandidate v) x).
    unfold candidateOf, settled. cbn [received x].
    rewrite Hsettle, Habs, Hcorr, Hmax. reflexivity. }
  destruct (absent_false _ Habs) as (c & Hc & Hne).
  rewrite Hc in Hrun. cbn [default from_option id] in Hrun.
  destruct (IH _ _ _ _ _ _ _ Hrun) as (new & -> & Hbest).
  exists (x :: new). rewrite <- app_assoc. split; [reflexivity|].
  assert (Hcand : candidateOf x = Some c).
  { unfold candidateOf, settled. cbn [received x].
    rewrite Hsettle, Habs, Hcorr, Hmax. exact Hc. }
  exact (keepsBest_trans _ _ _ [x] new
           (keepsBest_track x c (countRetry v) Hcand) Hbest).
Qed.

Lemma iteration_best (provider : Provider) (API_KEY : jsstring)
      (modelConfig : ModelConfig) (userPrompt : jsstring) (v : Vars)
      (trace : list Exchange) (b : bool) (v' : Vars) (trace' : list Exchange) :
  iteration provider API_KEY modelConfig userPrompt v trace = (b, v', trace') ->
  exists new,
    trace' = trace ++ new
    /\ keepsBest (bestCandidate v) (bestCandidate v') new.
Proof.
  intros Hrun. unfold iteration, tryBlock in Hrun.
  rewrite callGemini_eq in Hrun.
  set (messages := [ {| role := user; parts := userPrompt |} ]) in *.
  set (request := geminiRequest modelConfig API_KEY messages) in *.
  set (x := {| sent := request; received := provider (List.length trace) request |}) in *.
  assert (Hopen : isCorrection x = false) by reflexivity.
  destruct (callGemini_settle (provider (List.length trace) request))
    as [r|e] eqn:Hsettle.
  2:{ injection Hrun as <- <- <-. exists [x]. split; [reflexivity|].
      apply (keepsBest_none (bestCandidate v) x).
      unfold candidateOf, settled. cbn [received x]. rewrite Hsettle. reflexivity. }
  assert (Hnone : absent (text r) = true -> candidateOf x = None).
  { intros Habs. unfold candidateOf, settled. cbn [received x].
    rewrite Hsettle, Habs. reflexivity. }
  destruct (absent (text r)) eqn:Habs.
  { destruct (Js.isStr (finishReason r) (js "NOT_FOUND"));
      injection Hrun as <- <- <-; exists [x]; (split; [reflexivity|]);
      apply (keepsBest_none (bestCandidate v) x); auto. }
  destruct (absent_false _ Habs) as (c & Hc & Hne).
  rewrite Hc in Hrun. cbn [default from_option id] in Hrun.
  assert (Hcand : candidateOf x = Some c).
  { unfold candidateOf, settled. cbn [received x].
    rewrite Hsettle, Habs, Hopen. exact Hc. }
  pose proof (keepsBest_track x c v Hcand) as Hfirst.
  destruct (Js.isStr (finishReason r) (js "MAX_TOKENS")).
  { injection Hrun as <- <- <-. exists [x]. split; [reflexivity | exact Hfirst]. }
  destruct (retryLoop _ _ _ _ _ _ _ _) as [[res v1] trace1] eqn:Hloop.
  destruct (retryLoop_best _ _ _ _ _ _ _ _ _ _ _ Hloop) as (new & -> & Hbest).
  pose proof (keepsBest_trans _ _ _ [x] new Hfirst Hbest) as Hboth.
  destruct res as [c1|e].
  - destruct (isValidLength c1); injection Hrun as <- <- <-;
      exists (x :: new); rewrite <- app_assoc; (split; [reflexivity | exact Hboth]).
  - injection Hrun as <- <- <-.
    exists (x :: new). rewrite <- app_assoc. split; [reflexivity | exact Hboth].
Qed.

Lemma outerLoop_best (provider : Provider) (API_KEY userPrompt : jsstring)
      (configs : list ModelConfig) :
  forall (v : Vars) (trace : list Exchange) v' trace',
    outerLoop provider API_KEY configs userPrompt v trace = (v', trace') ->
    exists new,
      trace' = trace ++ new
      /\ keepsBest (bestCandidate v) (bestCandidate v') new.
Proof.
  induction configs as [|modelConfig configs IH]; intros v trace v' trace' Hrun;
    cbn [outerLoop] in Hrun.
  - injection Hrun as <- <-. exists []. rewrite app_nil_r.
    split; [reflexivity | apply keepsBest_refl].
  - destruct (iteration _ _ _ _ _ _) as [[b v1] trace1] eqn:Hit.
    destruct (iteration_best _ _ _ _ _ _ _ _ _ Hit) as (new1 & -> & Hbest1).
    destruct b.
    + injection Hrun as <- <-. exists new1. auto.
    + destruct (IH _ _ _ _ Hrun) as (new2 & -> & Hbest2).
      exists (new1 ++ new2). rewrite app_assoc. split; [reflexivity|].
      exact (keepsBest_trans _ _ _ _ _ Hbest1 Hbest2).
Qed.

(** The fallback decision of a run, in terms of its exchanges. *)
Lemma generate_best (provider : Provider) (API_KEY : jsstring)
      (configs : list ModelConfig) (keyword : jsstring) (v : Vars)
      (trace : list Exchange) :
  generate provider API_KEY configs keyword = (v, trace) ->
  keepsBest None (bestCandidate v) trace
  /\ ((exists modelConfig c,
          In modelConfig configs /\ usedModel v = name modelConfig
          /\ generatedTrivia v = Some c /\ isValidLength c = true)
      \/ (generatedTrivia v = None
          /\ forall best, bestCandidate v = Some best -> (List.length best < 10)%nat)
      \/ (exists best, generatedTrivia v = Some best /\ bestCandidate v = Some best
                       /\ (10 <= List.length best)%nat)).
Proof.
  unfold generate.
  destruct (outerLoop _ _ _ _ _ _) as [v1 trace1] eqn:Hloop. intros [= <- <-].
  destruct (outerLoop_best _ _ _ _ _ _ _ _ Hloop) as (new & Htrace & Hbest).
  simpl in Htrace. subst trace1.
  destruct (outerLoop_spec _ _ _ _ _ _ _ _ Hloop)
    as (attempts & rest & _ & _ & Hconfigs & _ & _ & Hend).
  destruct (useFallback_cases v1) as [[-> Hshort]|(best & Hb & Hlen & _ & ->)].
  - split; [exact Hbest|].
    destruct Hend as [(_ & Hgen & _)|(earlier & a & c & -> & Hgen & Hvalid & Hused & _)].
    + right. left. simpl in Hgen. auto.
    + left. exists (config a), c. split; [|auto].
      rewrite Hconfigs, map_app. apply in_or_app. left. apply in_or_app. right.
      left. reflexivity.
  - split; [exact Hbest|]. right. right. exists best. auto.
Qed.

Lemma configured_names (modelConfig : ModelConfig) :
  In modelConfig MODEL_CONFIGS -> name modelConfig <> js "fallback".
Proof.
  intros [<-|[<-|[<-|[]]]]; vm_compute; discriminate.
Qed.

(** X15. When the response names the model fallback, its text is one of
    the candidates of the run (the text of an opening answer, or of a
    correction that was not cut off), it has at least ten characters, and
    no candidate of the run is longer. *)
Theorem fallback_is_longest (API_KEY_RAW : option jsstring) (provider : Provider)
        (now createdAt : Z) (req : Request) (m : RateLimitMap)
        trivia keyword mode n created :
  response (POST API_KEY_RAW provider now createdAt req m)
  = TriviaJson trivia keyword mode n (js "fallback") created ->
  (10 <= List.length trivia)%nat
  /\ (exists x, In x (exchanges (POST API_KEY_RAW provider now createdAt req m))
                /\ candidateOf x = Some trivia)
  /\ (forall x t, In x (exchanges (POST API_KEY_RAW provider now createdAt req m)) ->
                  candidateOf x = Some t ->
                  (List.length t <= List.length trivia)%nat).
Proof.
  intros Hresp.
  destruct (POST_success_inv _ _ _ _ _ _ _ _ _ _ _ _ Hresp)
    as (_ & v & Hgen & Htrivia & _ & _ & Hused).
  destruct (generate_best _ _ _ _ _ _ Hgen)
    as ((Hfrom & Hall & _)
        & [(c & _ & Hc & Hname & _)|[(Hnone & _)|(best & Hb & Hbest & Hlen)]]).
  - exfalso. apply (configured_names c Hc). congruence.
  - congruence.
  - assert (best = trivia) by congruence. subst best. split; [exact Hlen|]. split.
    + destruct (Hfrom trivia Hbest) as [Hnever|Hx]; [discriminate Hnever | exact Hx].
    + intros x t Hx Ht. destruct (Hall x t Hx Ht) as (t' & Ht' & Hle).
      assert (t' = trivia) by congruence. subst t'. exact Hle.
Qed.

Lemma fallback_is_longest_witness :
  (10 <= List.length (letters 12))%nat
  /\ (exists x, In x (exchanges (POST (Some (js "key")) stubborn 1000 2000 ramenRequest ∅))
                /\ candidateOf x = Some (letters 12))
  /\ (forall x t, In x (exchanges (POST (Some (js "key")) stubborn 1000 2000 ramenRequest ∅)) ->
                  candidateOf x = Some t ->
                  (List.length t <= List.length (letters 12))%nat).
Proof.
  apply (fallback_is_longest (Some (js "key")) stubborn 1000 2000 ramenRequest ∅
           (letters 12) (js "ラーメン") (js "kitakyushu") 9%nat 2000).
  vm_compute. reflexivity.
Defined.

(** X16. When the request ends in the generation-failed error, every
    candidate of the run was shorter than ten characters. *)
Theorem failure_candidates_short (API_KEY_RAW : option jsstring) (provider : Provider)
        (now createdAt : Z) (req : Request) (m : RateLimitMap)
        (x : Exchange) (t : jsstring) :
  errorCode (response (POST API_KEY_RAW provider now createdAt req m))
  = Some (js "generation_failed") ->
  In x (exchanges (POST API_KEY_RAW provider now createdAt req m)) ->
  candidateOf x = Some t ->
  (List.length t < 10)%nat.
Proof.
  intros Hcode Hx Ht.
  destruct (contacted_reaches API_KEY_RAW provider now createdAt req m)
    as (keyword & Hreach); [intros Hnil; rewrite Hnil in Hx; destruct Hx|].
  rewrite (POST_generation _ _ _ _ _ _ _ Hreach) in Hcode, Hx.
  destruct (generate _ _ _ _) as [v trace] eqn:Hgen. cbn [exchanges response] in *.
  destruct (absent (generatedTrivia v)) eqn:Habs; [|discriminate Hcode].
  destruct (generate_best _ _ _ _ _ _ Hgen)
    as ((_ & Hall & _)
        & [(c & t0 & _ & _ & Ht0 & Hvalid)|[(_ & Hshort)|(best & Hb & _ & Hlen)]]).
  - rewrite Ht0, (absent_some t0 (valid_nonempty t0 Hvalid)) in Habs. discriminate.
  - destruct (Hall x t Hx Ht) as (t' & Ht' & Hle). specialize (Hshort t' Ht'). lia.
  - rewrite Hb in Habs. destruct best; [simpl in Hlen; lia | discriminate Habs].
Qed.

Lemma failure_candidates_short_witness :
  (List.length (letters 5) < 10)%nat.
Proof.
  apply (failure_candidates_short (Some (js "key")) terse 1000 2000 ramenRequest ∅
           {| sent := geminiRequest
                        {| name := js "gemini-2.0-flash"; maxOutputTokens := 500;
                           thinkingConfig := None |}
                        (js "key")
                        [ {| role := user; parts := buildUserPrompt (js "ラーメン") |} ];
              received := answer (letters 5) (js "STOP") |}).
  - vm_compute. reflexivity.
  - vm_compute. left. reflexivity.
  - vm_compute. reflexivity.
Defined.

(** ** The first usable answer ends the run *)

Lemma yields_fun (x : Exchange) (c c' : jsstring) :
  yields x c -> yields x c' -> c = c'.
Proof.
  intros (r & Hr & Ht & _) (r' & Hr' & Ht' & _). congruence.
Qed.

Lemma chain_invalid (new : list Exchange) :
  forall x0 before y after,
    chain x0 new -> x0 :: new = before ++ y :: after -> after <> [] ->
    exists c, yields y c /\ isValidLength c = false.
Proof.
  induction new as [|y1 new IH]; intros x0 before y after Hchain Heq Hafter.
  - destruct before as [|b before]; [injection Heq as <- <-; congruence|].
    destruct before; discriminate Heq.
  - destruct Hchain as [(c & Hy & Hinvalid & _) Hrest].
    destruct before as [|b before].
    + injection Heq as <- _. exists c. auto.
    + injection Heq as <- Heq. exact (IH y1 before y after Hrest Heq Hafter).
Qed.

Lemma last_app_cons {A} (l new : list A) (x d : A) :
  List.last (l ++ x :: new) d = List.last new x.
Proof.
  induction l as [|a l IH]; [apply last_cons_default|].
  simpl. destruct (l ++ x :: new) eqn:Heq; [destruct l; discriminate Heq|].
  exact IH.
Qed.

(** An iteration that does not leave the loop did not end on an
    in-range candidate. *)
Lemma iteration_last (provider : Provider) (API_KEY : jsstring)
      (modelConfig : ModelConfig) (userPrompt : jsstring) (v : Vars)
      (trace : list Exchange) (v' : Vars) (trace' : list Exchange)
      (d : Exchange) (c : jsstring) :
  iteration provider API_KEY modelConfig userPrompt v trace = (false, v', trace') ->
  yields (List.last trace' d) c -> isValidLength c = false.
Proof.
  intros Hrun. unfold iteration, tryBlock in Hrun.
  rewrite callGemini_eq in Hrun.
  set (messages := [ {| role := user; parts := userPrompt |} ]) in *.
  set (request := geminiRequest modelConfig API_KEY messages) in *.
  set (x := {| sent := request; received := provider (List.length trace) request |}) in *.
  destruct (callGemini_settle (provider (List.length trace) request))
    as [r|e] eqn:Hsettle.
  2:{ injection Hrun as <- <-. rewrite last_app_cons. cbn [List.last].
      intros (r & Hr & _). unfold settled in Hr. cbn [received x] in Hr. congruence. }
  destruct (absent (text r)) eqn:Habs.
  { assert (Hno : yields x c -> isValidLength c = false).
    { intros (r' & Hr' & Ht & Hne & _). unfold settled in Hr'. cbn [received x] in Hr'.
      assert (r' = r) by congruence. subst r'.
      rewrite Ht, (absent_some c Hne) in Habs. discriminate. }
    destruct (Js.isStr (finishReason r) (js "NOT_FOUND"));
      injection Hrun as <- <-; rewrite last_app_cons; exact Hno. }
  destruct (absent_false _ Habs) as (c0 & Hc0 & Hne0).
  rewrite Hc0 in Hrun. cbn [default from_option id] in Hrun.
  destruct (Js.isStr (finishReason r) (js "MAX_TOKENS")) eqn:Hmax.
  { injection Hrun as <- <-. rewrite last_app_cons. cbn [List.last].
    intros (r' & Hr' & _ & _ & Hfin). unfold settled in Hr'. cbn [received x] in Hr'.
    assert (r' = r) by congruence. subst r'. congruence. }
  assert (Hy : yields x c0).
  { exists r. unfold settled. cbn [received x]. auto. }
  destruct (retryLoop _ _ _ _ _ _ _ _) as [[res v1] trace1] eqn:Hloop.
  destruct (retryLoop_spec provider API_KEY _ _ _ _ _ _ x _ _ _ eq_refl Hy Hloop)
    as (new & -> & _ & _ & _ & _ & _ & _ & _ & _ & Hres).
  rewrite <- app_assoc in Hrun. cbn [app] in Hrun.
  destruct res as [c1|e].
  - destruct (isValidLength c1) eqn:Hvalid; [discriminate Hrun|].
    injection Hrun as <- <-. rewrite last_app_cons. intros Hlast.
    destruct Hres as [Hc1|(_ & new0 & w & -> & Hnothing & _)].
    + rewrite (yields_fun _ _ _ Hlast Hc1). exact Hvalid.
    + rewrite last_app_cons in Hlast. cbn [List.last] in Hlast.
      destruct (Hnothing c Hlast).
  - injection Hrun as <- <-. rewrite last_app_cons. intros Hlast.
    destruct Hres as (new0 & w & -> & Hw).
    rewrite last_app_cons in Hlast. cbn [List.last] in Hlast.
    destruct Hlast as (r' & Hr' & _). congruence.
Qed.

Lemma iteration_valid (provider : Provider) (API_KEY : jsstring)
      (modelConfig : ModelConfig) (userPrompt : jsstring) (v : Vars)
      (trace : list Exchange) (b : bool) (v' : Vars) (trace' : list Exchange) :
  iteration provider API_KEY modelConfig userPrompt v trace = (b, v', trace') ->
  exists new,
    trace' = trace ++ new
    /\ forall before y after c,
        new = before ++ y :: after -> yields y c -> isValidLength c = true ->
        after = [] /\ b = true /\ generatedTrivia v' = Some c.
Proof.
  intros Hrun.
  destruct (iteration_spec provider API_KEY _ _ _ _ _ _ _ Hrun)
    as (x0 & new0 & -> & _ & _ & Hchain & _ & _ & _ & Hb & _).
  exists (x0 :: new0). split; [reflexivity|].
  intros before y after c Heq Hy Hvalid.
  assert (Hafter : after = []).
  { destruct after as [|a after]; [reflexivity|]. exfalso.
    destruct (chain_invalid _ _ _ _ _ Hchain Heq) as (c' & Hy' & Hinvalid);
      [discriminate|].
    rewrite (yields_fun _ _ _ Hy Hy') in Hvalid. congruence. }
  subst after. split; [reflexivity|].
  assert (Hlast : List.last new0 x0 = y).
  { rewrite <- (last_cons_default x0 x0), Heq, last_app_cons. reflexivity. }
  destruct b.
  - destruct Hb as (c0 & Hgen & _ & _ & Hy0). rewrite Hlast in Hy0.
    rewrite (yields_fun _ _ _ Hy Hy0). auto.
  - exfalso.
    assert (Hinvalid : isValidLength c = false).
    { apply (iteration_last _ _ _ _ _ _ _ _ x0 c Hrun).
      rewrite last_app_cons, Hlast. exact Hy. }
    congruence.
Qed.

Lemma outerLoop_valid (provider : Provider) (API_KEY userPrompt : jsstring)
      (configs : list ModelConfig) :
  forall (v : Vars) (trace : list Exchange) v' trace',
    outerLoop provider API_KEY configs userPrompt v trace = (v', trace') ->
    exists new,
      trace' = trace ++ new
      /\ forall before y after c,
          new = before ++ y :: after -> yields y c -> isValidLength c = true ->
          after = [] /\ generatedTrivia v' = Some c.
Proof.
  induction configs as [|modelConfig configs IH]; intros v trace v' trace' Hrun;
    cbn [outerLoop] in Hrun.
  - injection Hrun as <- <-. exists []. rewrite app_nil_r. split; [reflexivity|].
    intros [|b before] y after c Heq; discriminate Heq.
  - destruct (iteration _ _ _ _ _ _) as [[b v1] trace1] eqn:Hit.
    destruct (iteration_valid _ _ _ _ _ _ _ _ _ Hit) as (new1 & -> & Hfirst).
    destruct b.
    + injection Hrun as <- <-. exists new1. split; [reflexivity|].
      intros before y after c Heq Hy Hvalid.
      destruct (Hfirst before y after c Heq Hy Hvalid) as (Hafter & _ & Hgen). auto.
    + destruct (IH _ _ _ _ Hrun) as (new2 & -> & Hrest).
      exists (new1 ++ new2). rewrite app_assoc. split; [reflexivity|].
      intros before y after c Heq Hy Hvalid.
      apply List.app_eq_app in Heq as (l & [[Hnew1 Hright]|[Hbefore Hnew2]]).
      * destruct l as [|y' l].
        -- simpl in Hright. symmetry in Hright.
           exact (Hrest [] y after c Hright Hy Hvalid).
        -- injection Hright as <- Hafter.
           destruct (Hfirst before y l c Hnew1 Hy Hvalid) as (_ & Hb & _).
           discriminate Hb.
      * exact (Hrest l y after c Hnew2 Hy Hvalid).
Qed.

(** X17. The first answer of the provider that carries an in-range text
    and is not cut off ends the run: no request follows it, and the
    response is a success with exactly that text, under the name of one
    of the configured models. *)
Theorem first_valid_wins (API_KEY_RAW : option jsstring) (provider : Provider)
        (now createdAt : Z) (req : Request) (m : RateLimitMap)
        (before after : list Exchange) (x : Exchange) (c : jsstring) :
  exchanges (POST API_KEY_RAW provider now createdAt req m) = before ++ x :: after ->
  yields x c ->
  isValidLength c = true ->
  after = []
  /\ exists keyword n modelConfig,
      In modelConfig MODEL_CONFIGS
      /\ response (POST API_KEY_RAW provider now createdAt req m)
         = TriviaJson c keyword (js "kitakyushu") n (name modelConfig) createdAt.
Proof.
  intros Heq Hy Hvalid.
  destruct (contacted_reaches API_KEY_RAW provider now createdAt req m)
    as (keyword & Hreach); [rewrite Heq; destruct before; discriminate|].
  rewrite (POST_generation _ _ _ _ _ _ _ Hreach) in Heq |- *.
  destruct (generate _ _ _ _) as [v trace] eqn:Hgen. cbn [exchanges response] in *.
  unfold generate in Hgen.
  destruct (outerLoop _ _ _ _ _ _) as [v1 trace1] eqn:Hloop.
  injection Hgen as <- <-.
  destruct (outerLoop_valid _ _ _ _ _ _ _ _ Hloop) as (new & Htrace & Hstop).
  simpl in Htrace. rewrite Htrace in Heq.
  destruct (Hstop before x after c Heq Hy Hvalid) as (Hafter & Hgen1).
  split; [exact Hafter|].
  assert (Hnonempty : absent (generatedTrivia v1) = false)
    by (rewrite Hgen1; apply absent_some, valid_nonempty, Hvalid).
  destruct (useFallback_cases v1) as [[Hsame _]|(best & _ & _ & Habs & _)];
    [|congruence].
  rewrite Hsame, Hnonempty, Hgen1. cbn [default from_option id].
  destruct (outerLoop_spec _ _ _ _ _ _ _ _ Hloop)
    as (attempts & rest & _ & _ & Hconfigs & _ & _ & Hend).
  destruct Hend as [(_ & Hgen0 & _)|(earlier & a & c0 & -> & _ & _ & Hused & _)].
  - simpl in Hgen0. congruence.
  - exists keyword, (retries v1), (config a). rewrite Hused. split; [|reflexivity].
    rewrite Hconfigs, map_app. apply in_or_app. left. apply in_or_app. right.
    left. reflexivity.
Qed.

Lemma first_valid_wins_witness :
  @nil Exchange = []
  /\ exists keyword n modelConfig,
      In modelConfig MODEL_CONFIGS
      /\ response (POST (Some (js "key")) ready 1000 2000 ramenRequest ∅)
         = TriviaJson (letters 80) keyword (js "kitakyushu") n (name modelConfig) 2000.
Proof.
  apply (first_valid_wins (Some (js "key")) ready 1000 2000 ramenRequest ∅ []
           [] {| sent := openingRequest
                           {| name := js "gemini-2.0-flash"; maxOutputTokens := 500;
                              thinkingConfig := None |}
                           (js "key") (js "ラーメン");
                 received := answer (letters 80) (js "STOP") |}).
  - vm_compute. reflexivity.
  - eexists. vm_compute. repeat split; discriminate.
  - reflexivity.
Defined.

(** ** Failures without details *)

Lemma iteration_quiet (provider : Provider) (API_KEY : jsstring)
      (modelConfig : ModelConfig) (userPrompt : jsstring) (v : Vars)
      (trace : list Exchange) (v' : Vars) (trace' : list Exchange) :
  iteration provider API_KEY modelConfig userPrompt v trace = (false, v', trace') ->
  lastError v' = None ->
  v' = v
  /\ exists x, trace' = trace ++ [x]
               /\ sent x = geminiRequest modelConfig API_KEY
                                         [ {| role := user; parts := userPrompt |} ]
               /\ passedOver x.
Proof.
  intros Hrun Hquiet. unfold iteration, tryBlock in Hrun.
  rewrite callGemini_eq in Hrun.
  set (messages := [ {| role := user; parts := userPrompt |} ]) in *.
  set (request := geminiRequest modelConfig API_KEY messages) in *.
  set (x := {| sent := request; received := provider (List.length trace) request |}) in *.
  destruct (callGemini_settle (provider (List.length trace) request))
    as [r|e] eqn:Hsettle.
  2:{ injection Hrun as <- <-. discriminate Hquiet. }
  destruct (absent (text r)) eqn:Habs.
  { destruct (Js.isStr (finishReason r) (js "NOT_FOUND")) eqn:Hnf;
      injection Hrun as <- <-; [|discriminate Hquiet].
    split; [reflexivity|]. exists x. split; [reflexivity|]. split; [reflexivity|].
    exists r. unfold settled. cbn [received x]. auto. }
  destruct (Js.isStr (finishReason r) (js "MAX_TOKENS")).
  { injection Hrun as <- <-. discriminate Hquiet. }
  destruct (retryLoop _ _ _ _ _ _ _ _) as [[[c1|e] v1] trace1].
  - destruct (isValidLength c1); [discriminate Hrun|].
    injection Hrun as <- <-. discriminate Hquiet.
  - injection Hrun as <- <-. discriminate Hquiet.
Qed.

Lemma outerLoop_quiet (provider : Provider) (API_KEY userPrompt : jsstring)
      (configs : list ModelConfig) :
  forall (v : Vars) (trace : list Exchange) v' trace',
    outerLoop provider API_KEY configs userPrompt v trace = (v', trace') ->
    lastError v' = None ->
    absent (generatedTrivia v') = true ->
    v' = v
    /\ exists new,
        trace' = trace ++ new
        /\ List.map sent new
           = List.map (fun modelConfig =>
                         geminiRequest modelConfig API_KEY
                                       [ {| role := user; parts := userPrompt |} ])
                      configs
        /\ Forall passedOver new.
Proof.
  induction configs as [|modelConfig configs IH]; intros v trace v' trace' Hrun Hquiet Hnone;
    cbn [outerLoop] in Hrun.
  - injection Hrun as <- <-. split; [reflexivity|]. exists []. rewrite app_nil_r.
    repeat split; constructor.
  - destruct (iteration _ _ _ _ _ _) as [[b v1] trace1] eqn:Hit. destruct b.
    + exfalso. injection Hrun as <- <-.
      destruct (iteration_spec provider API_KEY _ _ _ _ _ _ _ Hit)
        as (x0 & new0 & _ & _ & _ & _ & _ & _ & _ & (c & Hc & Hvalid & _) & _).
      rewrite Hc, (absent_some c (valid_nonempty c Hvalid)) in Hnone. discriminate.
    + destruct (IH _ _ _ _ Hrun Hquiet Hnone) as (-> & new & -> & Hsent & Hall).
      destruct (iteration_quiet _ _ _ _ _ _ _ _ Hit Hquiet)
        as (-> & x & -> & Hx & Hpassed).
      split; [reflexivity|]. exists (x :: new). rewrite <- app_assoc.
      split; [reflexivity|]. split; [simpl; rewrite Hx, Hsent; reflexivity|].
      constructor; assumption.
Qed.

(** X18. A generation-failed error without details means that nothing
    went wrong and nothing was produced: the handler sent exactly one
    opening request to each configured model, in order, and each answer
    was passed over (no text, finish reason NOT_FOUND). *)
Theorem failure_without_details (API_KEY_RAW : option jsstring) (provider : Provider)
        (now createdAt : Z) (req : Request) (m : RateLimitMap) :
  response (POST API_KEY_RAW provider now createdAt req m) = generationFailed None ->
  exists keyword,
    readKeyword req = inl keyword
    /\ List.map sent (exchanges (POST API_KEY_RAW provider now createdAt req m))
       = List.map (fun modelConfig =>
                     openingRequest modelConfig (apiKey API_KEY_RAW) keyword)
                  MODEL_CONFIGS
    /\ Forall passedOver (exchanges (POST API_KEY_RAW provider now createdAt req m)).
Proof.
  unfold POST, generationFailed.
  destruct (absent (Some (apiKey API_KEY_RAW))) eqn:Hkey;
    [intros Hresp; cbn [response] in Hresp; injection Hresp as Hcode _;
     vm_compute in Hcode; discriminate Hcode|].
  destruct (isRateLimited _ _ _) as [[|] m'] eqn:Hlim; [discriminate|].
  destruct (readKeyword req) as [keyword|error] eqn:Hread; [|discriminate].
  unfold respond.
  destruct (absent (Some keyword)) eqn:Hkw; [discriminate|].
  destruct (30 <? List.length keyword)%nat eqn:Hlen; [discriminate|].
  destruct (generate _ _ _ _) as [v trace] eqn:Hgen.
  destruct (absent (generatedTrivia v)) eqn:Habs; [|discriminate].
  cbn [response exchanges]. intros Hresp. injection Hresp as Hquiet.
  exists keyword. split; [reflexivity|].
  unfold generate in Hgen.
  destruct (outerLoop _ _ _ _ _ _) as [v1 trace1] eqn:Hloop.
  injection Hgen as <- <-.
  destruct (useFallback_cases v1) as [[Hsame _]|(best & _ & Hten & _ & Hfb)].
  - rewrite Hsame in *.
    destruct (outerLoop_quiet _ _ _ _ _ _ _ _ Hloop Hquiet Habs)
      as (_ & new & -> & Hsent & Hall).
    auto.
  - rewrite Hfb in Habs. cbn [generatedTrivia fallback] in Habs.
    destruct best; [simpl in Hten; lia | discriminate Habs].
Qed.

Lemma failure_without_details_witness :
  exists keyword,
    readKeyword ramenRequest = inl keyword
    /\ List.map sent (exchanges (POST (Some (js "key")) (fun _ _ => notFound)
                                      1000 2000 ramenRequest ∅))
       = List.map (fun modelConfig =>
                     openingRequest modelConfig (apiKey (Some (js "key"))) keyword)
                  MODEL_CONFIGS
    /\ Forall passedOver (exchanges (POST (Some (js "key")) (fun _ _ => notFound)
                                          1000 2000 ramenRequest ∅)).
Proof.
  apply (failure_without_details (Some (js "key")) (fun _ _ => notFound)
                                 1000 2000 ramenRequest ∅).
  vm_compute. reflexivity.
Defined.

(** ** The responses of the handler *)

(** The handler answers in one of seven ways. *)
Lemma POST_cases (API_KEY_RAW : option jsstring) (provider : Provider)
      (now createdAt : Z) (req : Request) (m : RateLimitMap) :
  let r := response (POST API_KEY_RAW provider now createdAt req m) in
  r = ErrorJson 500 (js "config_error") (js "APIキーが設定されていません。") None
  \/ r = ErrorJson 429 (js "rate_limited")
                   (js "ちょっと落ち着いて、もう一口。（1分あたりの上限に達しました）") None
  \/ (exists e, readKeyword req = inr e /\ r = serverError e)
  \/ (readKeyword req = inl []
      /\ r = ErrorJson 400 (js "validation_error") (js "単語を入れてください。") None)
  \/ (exists k, readKeyword req = inl k /\ (30 < List.length k)%nat
                /\ r = ErrorJson 400 (js "validation_error")
                                 (js "30文字以内で入力してください。") None)
  \/ (exists k v trace,
         reachesGeneration API_KEY_RAW now req m k
         /\ generate provider (apiKey API_KEY_RAW) MODEL_CONFIGS k = (v, trace)
         /\ ((absent (generatedTrivia v) = true /\ r = generationFailed (lastError v))
             \/ (exists t, generatedTrivia v = Some t /\ t <> []
                           /\ r = TriviaJson t k (js "kitakyushu") (retries v)
                                             (usedModel v) createdAt))).
Proof.
  unfold POST.
  destruct (absent (Some (apiKey API_KEY_RAW))) eqn:Hkey; [left; reflexivity|].
  destruct (isRateLimited _ _ _) as [[|] m'] eqn:Hlim; [right; left; reflexivity|].
  destruct (readKeyword req) as [k|e] eqn:Hread;
    [|right; right; left; exists e; auto].
  unfold respond.
  destruct (absent (Some k)) eqn:Hk.
  { destruct k; [|discriminate Hk]. right; right; right; left. auto. }
  destruct (Nat.ltb_spec 30 (List.length k)).
  { right; right; right; right; left. exists k. auto. }
  right; right; right; right; right.
  destruct (generate _ _ _ _) as [v trace] eqn:Hgen. exists k, v, trace.
  destruct (absent_false _ Hkey) as (key & [= <-] & Hne).
  destruct (absent_false _ Hk) as (k' & [= <-] & Hkne).
  split; [repeat split; auto; rewrite Hlim; reflexivity|]. split; [exact Hgen|].
  destruct (absent (generatedTrivia v)) eqn:Habs; [left; auto|].
  right. destruct (absent_false _ Habs) as (t & Ht & Htne).
  exists t. rewrite Ht. auto.
Qed.

(** X19. Every response of the handler has one of a few shapes.  An
    error has a non-empty message, a status outside 200 to 299 and one
    of four codes, each with its status; only generation failures carry
    details.  A success carries a non-empty text, the trimmed keyword of
    the request (1 to 30 characters), the mode kitakyushu, at most nine
    retries and the name of a configured model or fallback. *)
Theorem response_shapes (API_KEY_RAW : option jsstring) (provider : Provider)
        (now createdAt : Z) (req : Request) (m : RateLimitMap) :
  match response (POST API_KEY_RAW provider now createdAt req m) with
  | ErrorJson httpStatus code message details =>
    message <> []
    /\ (httpStatus < 200 \/ 299 < httpStatus)
    /\ In (httpStatus, code)
          [ (500, js "config_error"); (429, js "rate_limited");
            (400, js "validation_error"); (500, js "generation_failed") ]
    /\ (details <> None -> code = js "generation_failed")
  | TriviaJson trivia keyword mode n usedName created =>
    trivia <> []
    /\ readKeyword req = inl keyword
    /\ keyword <> [] /\ (List.length keyword <= 30)%nat
    /\ mode = js "kitakyushu"
    /\ (n <= 9)%nat
    /\ (usedName = js "fallback"
        \/ exists modelConfig, In modelConfig MODEL_CONFIGS /\ usedName = name modelConfig)
    /\ created = createdAt
  end.
Proof.
  destruct (POST_cases API_KEY_RAW provider now createdAt req m)
    as [->|[->|[(e & _ & ->)|[(_ & ->)|[(k & _ & _ & ->)|(k & v & trace & Hreach & Hgen & Hr)]]]]].
  - split; [vm_compute; discriminate|]. split; [lia|]. split; [left; reflexivity|].
    intros H; congruence.
  - split; [vm_compute; discriminate|]. split; [lia|].
    split; [right; left; reflexivity|]. intros H; congruence.
  - unfold serverError. split; [vm_compute; discriminate|]. split; [lia|].
    split; [do 3 right; left; reflexivity | reflexivity].
  - split; [vm_compute; discriminate|]. split; [lia|].
    split; [do 2 right; left; reflexivity|]. intros H; congruence.
  - split; [vm_compute; discriminate|]. split; [lia|].
    split; [do 2 right; left; reflexivity|]. intros H; congruence.
  - destruct Hr as [(_ & ->)|(t & Ht & Htne & ->)].
    + unfold generationFailed. split; [vm_compute; discriminate|]. split; [lia|].
      split; [do 3 right; left; reflexivity | reflexivity].
    + destruct Hreach as (_ & _ & Hread & Hne & Hlen).
      destruct (generate_spec _ _ _ _ _ _ Hgen)
        as (attempts & rest & _ & _ & Hconfigs & Hwf & Hret & Hend).
      repeat split; auto.
      * rewrite Hret.
        pose proof (correctionCount_bound _ _ _ Hwf) as Hbound.
        assert (List.length attempts <= 3)%nat; [|lia].
        apply (f_equal (@List.length ModelConfig)) in Hconfigs.
        rewrite length_app, length_map in Hconfigs. simpl in Hconfigs. lia.
      * destruct Hend as [(earlier & a & c & -> & _ & _ & Hused & _)
                         |(_ & [Hnone|(best & _ & _ & Hused)])].
        -- right. exists (config a). split; [|exact Hused].
           rewrite Hconfigs, map_app. apply in_or_app. left. apply in_or_app. right.
           left. reflexivity.
        -- congruence.
        -- left. exact Hused.
Qed.

(** ** The page and the handler *)

Lemma client_body_keyword (forwarded : option jsstring) (k nonce : jsstring) :
  k <> [] ->
  readKeyword {| forwardedFor := forwarded;
                 json := Some (JObj [ (js "keyword", JStr k); (js "nonce", JStr nonce) ]) |}
  = inl (trim k).
Proof.
  intros Hk. unfold readKeyword. cbn [json Js.get].
  assert (Hfield : Js.field (js "keyword")
                            [ (js "keyword", JStr k); (js "nonce", JStr nonce) ] = JStr k)
    by (vm_compute; reflexivity).
  rewrite Hfield. destruct k; [congruence | reflexivity].
Qed.

(** X20. What the page posts, the handler accepts: the body is read as
    the trimmed input, which has 1 to 30 characters, so the handler never
    answers it with a validation error; and an item the page shows
    carries that keyword and a non-empty text, and heads the history. *)
Theorem page_request_accepted (API_KEY_RAW : option jsstring) (provider : Provider)
        (now createdAt : Z) (forwarded : option jsstring) (m : RateLimitMap)
        (typed : jsstring) (clock : Z) (history : list Page.TriviaItem)
        (body : JsValue) :
  fst (Page.generateTrivia (handler API_KEY_RAW provider now createdAt forwarded m)
                           typed clock history) = Some body ->
  let req := {| forwardedFor := forwarded; json := Some body |} in
  readKeyword req = inl (trim typed)
  /\ trim typed <> [] /\ (List.length (trim typed) <= 30)%nat
  /\ errorCode (response (POST API_KEY_RAW provider now createdAt req m))
     <> Some (js "validation_error")
  /\ forall item shownHistory,
      snd (Page.generateTrivia (handler API_KEY_RAW provider now createdAt forwarded m)
                               typed clock history)
      = Page.Success item shownHistory ->
      Page.keyword item = trim typed
      /\ Page.trivia item <> []
      /\ hd_error shownHistory = Some item.
Proof.
  unfold Page.generateTrivia.
  destruct (absent (Some (trim typed))) eqn:Habs; [discriminate|].
  destruct (Nat.ltb_spec 30 (List.length (trim typed))); [discriminate|].
  destruct (absent_false _ Habs) as (k & [= <-] & Hne).
  set (sentBody := JObj _).
  assert (Hread : readKeyword {| forwardedFor := forwarded; json := Some sentBody |}
                  = inl (trim typed)).
  { unfold sentBody. rewrite client_body_keyword by exact Hne. rewrite trim_idem.
    reflexivity. }
  intros Hsent.
  assert (Hbody : body = sentBody).
  { destruct (handler _ _ _ _ _ _ sentBody) as [[? ? ? ?|? ? ? ? ? ?]|];
      cbn [fst] in Hsent; congruence. }
  subst body. clear Hsent. cbv zeta. unfold handler.
  pose proof (POST_cases API_KEY_RAW provider now createdAt
                         {| forwardedFor := forwarded; json := Some sentBody |} m)
    as Hcases.
  cbv zeta in Hcases.
  destruct (response _) as [st code message details|t kw mode n usedName created];
    cbn [snd]; (split; [exact Hread|]);
    (split; [exact Hne|]); (split; [assumption|]).
  - split; [|intros item h Hshown; discriminate Hshown].
    cbn [errorCode]. intros [= Hcode].
    destruct Hcases as [Hr|[Hr|[(e & He & Hr)|[(Hk & Hr)|[(k & Hk & Hlong & Hr)|(k & v & trace & _ & _ & [(_ & Hr)|(t & _ & _ & Hr)])]]]]].
    + injection Hr as _ Hc _ _. rewrite Hcode in Hc. vm_compute in Hc. discriminate Hc.
    + injection Hr as _ Hc _ _. rewrite Hcode in Hc. vm_compute in Hc. discriminate Hc.
    + congruence.
    + rewrite Hread in Hk. injection Hk as Hk. congruence.
    + rewrite Hread in Hk. injection Hk as <-. lia.
    + unfold generationFailed in Hr. injection Hr as _ Hc _ _.
      rewrite Hcode in Hc. vm_compute in Hc. discriminate Hc.
    + discriminate Hr.
  - split; [cbn [errorCode]; discriminate|].
    intros item h [= <- <-]. cbn [Page.keyword Page.trivia].
    destruct Hcases as [Hr|[Hr|[(e & _ & Hr)|[(_ & Hr)|[(k & _ & _ & Hr)|(k & v & trace & Hreach & _ & [(_ & Hr)|(t' & _ & Hne' & Hr)])]]]]];
      try discriminate Hr.
    destruct Hreach as (_ & _ & Hread' & _).
    assert (Hkw : kw = k)
      by exact (f_equal (fun r => default kw (echoedKeyword r)) Hr).
    assert (Ht : t = t')
      by exact (f_equal (fun r => match r with
                                  | TriviaJson x _ _ _ _ _ => x
                                  | ErrorJson _ _ _ _ => t
                                  end) Hr).
    subst kw t. rewrite Hread in Hread'. injection Hread' as <-.
    split; [reflexivity|]. split; [exact Hne'|]. reflexivity.
Qed.

Lemma page_request_accepted_witness :
  let body := JObj [ (js "keyword", JStr (js "ラーメン")); (js "nonce", JStr (js "5")) ] in
  let req := {| forwardedFor := None; json := Some body |} in
  readKeyword req = inl (trim (js " ラーメン "))
  /\ trim (js " ラーメン ") <> [] /\ (List.length (trim (js " ラーメン ")) <= 30)%nat
  /\ errorCode (response (POST (Some (js "key")) ready 1000 2000 req ∅))
     <> Some (js "validation_error")
  /\ forall item shownHistory,
      snd (Page.generateTrivia (handler (Some (js "key")) ready 1000 2000 None ∅)
                               (js " ラーメン ") 5 [])
      = Page.Success item shownHistory ->
      Page.keyword item = trim (js " ラーメン ")
      /\ Page.trivia item <> []
      /\ hd_error shownHistory = Some item.
Proof.
  apply (page_request_accepted (Some (js "key")) ready 1000 2000 None ∅
                               (js " ラーメン ") 5 []).
  vm_compute. reflexivity.
Defined.

(** X21. What the page refuses, the handler would refuse in the same
    words: when the page posts nothing, it shows a message, and a request
    with the input as its keyword that gets as far as the validation is
    answered with status 400, code validation_error and that message,
    without a call of the provider. *)
Theorem page_refusal_matches (fetch : JsValue -> option ApiResponse)
        (typed : jsstring) (clock : Z) (history : list Page.TriviaItem) :
  fst (Page.generateTrivia fetch typed clock history) = None ->
  exists message,
    snd (Page.generateTrivia fetch typed clock history) = Page.Failure message
    /\ forall API_KEY_RAW provider now createdAt forwarded m,
        apiKey API_KEY_RAW <> [] ->
        fst (isRateLimited
               (clientAddress {| forwardedFor := forwarded;
                                 json := Some (JObj [ (js "keyword", JStr typed) ]) |})
               now m) = false ->
        let outcome :=
            POST API_KEY_RAW provider now createdAt
                 {| forwardedFor := forwarded;
                    json := Some (JObj [ (js "keyword", JStr typed) ]) |} m in
        response outcome = ErrorJson 400 (js "validation_error") message None
        /\ exchanges outcome = [].
Proof.
  unfold Page.generateTrivia.
  assert (Hread : forall forwarded,
             readKeyword {| forwardedFor := forwarded;
                            json := Some (JObj [ (js "keyword", JStr typed) ]) |}
             = inl (trim typed)).
  { intros forwarded. unfold readKeyword. cbn [json Js.get].
    assert (Hfield : Js.field (js "keyword") [ (js "keyword", JStr typed) ] = JStr typed)
      by (vm_compute; reflexivity).
    rewrite Hfield. destruct typed; reflexivity. }
  destruct (absent (Some (trim typed))) eqn:Habs.
  - intros _. eexists. split; [reflexivity|].
    intros API_KEY_RAW provider now createdAt forwarded m Hkey Hlim.
    cbv zeta. rewrite POST_admitted by assumption. rewrite Hread.
    unfold respond. rewrite Habs. auto.
  - destruct (Nat.ltb_spec 30 (List.length (trim typed))) as [Hlong|Hshort].
    + intros _. eexists. split; [reflexivity|].
      intros API_KEY_RAW provider now createdAt forwarded m Hkey Hlim.
      cbv zeta. rewrite POST_admitted by assumption. rewrite Hread.
      unfold respond. rewrite Habs.
      destruct (Nat.ltb_spec 30 (List.length (trim typed))); [auto | lia].
    + destruct (fetch _) as [[? ? ? ?|? ? ? ? ? ?]|]; discriminate.
Qed.

Lemma page_refusal_matches_witness :
  exists message,
    snd (Page.generateTrivia (fun _ => None) (js "   ") 5 []) = Page.Failure message
    /\ forall API_KEY_RAW provider now createdAt forwarded m,
        apiKey API_KEY_RAW <> [] ->
        fst (isRateLimited
               (clientAddress {| forwardedFor := forwarded;
                                 json := Some (JObj [ (js "keyword", JStr (js "   ")) ]) |})
               now m) = false ->
        let outcome :=
            POST API_KEY_RAW provider now createdAt
                 {| forwardedFor := forwarded;
                    json := Some (JObj [ (js "keyword", JStr (js "   ")) ]) |} m in
        response outcome = ErrorJson 400 (js "validation_error") message None
        /\ exchanges outcome = [].
Proof.
  apply (page_refusal_matches (fun _ => None) (js "   ") 5 []).
  vm_compute. reflexivity.
Defined.

(** ** The history of the page *)

Lemma firstn_sublist {A} (n : nat) (l : list A) : firstn n l `sublist_of` l.
Proof.
  revert n. induction l as [|a l IH]; intros [|n]; simpl; try constructor.
  - apply sublist_nil_l.
  - apply IH.
Qed.

Lemma filter_sublist {A} (f : A -> bool) (l : list A) : List.filter f l `sublist_of` l.
Proof.
  induction l as [|a l IH]; simpl; [constructor|].
  destruct (f a); constructor; exact IH.
Qed.


Lemma entries_sublist (l k : list Page.TriviaItem) :
  l `sublist_of` k -> entries l `sublist_of` entries k.
Proof. induction 1; simpl; constructor; assumption. Qed.

Lemma entries_filtered (item : Page.TriviaItem) (history : list Page.TriviaItem) :
  ~ In (Page.keyword item, Page.trivia item)
       (entries (List.filter
                   (fun h => negb (eqb (Page.keyword h) (Page.keyword item)
                                   && eqb (Page.trivia h) (Page.trivia item)))
                   history)).
Proof.
  unfold entries. rewrite in_map_iff. intros (h & Heq & Hin).
  apply filter_In in Hin as [_ Hkeep]. injection Heq as Hk Ht.
  unfold eqb in Hkeep. rewrite !bool_decide_eq_true_2 in Hkeep by assumption.
  discriminate Hkeep.
Qed.

(** One addition to the history: what the invariant needs. *)
Lemma newHistory_step (item : Page.TriviaItem) (history : list Page.TriviaItem) :
  hd_error (Page.newHistory item history) = Some item
  /\ (List.length (Page.newHistory item history) <= 10)%nat
  /\ (NoDup (entries history) -> NoDup (entries (Page.newHistory item history))).
Proof.
  unfold Page.newHistory, Page.MAX_HISTORY.
  set (others := List.filter _ history).
  change (firstn 10 (item :: others)) with (item :: firstn 9 others).
  split; [reflexivity|]. split.
  { cbn [List.length]. pose proof (firstn_le_length 9 others). lia. }
  intros Hnodup.
  assert (Hall : NoDup (entries (item :: others))).
  { cbn [entries List.map]. constructor.
    - rewrite list_elem_of_In. apply entries_filtered.
    - exact (sublist_NoDup _ _ Hnodup (entries_sublist _ _ (filter_sublist _ _))). }
  refine (sublist_NoDup _ _ Hall (entries_sublist _ _ _)).
  constructor. apply firstn_sublist.
Qed.


(** X23. Starting from an empty history, whatever items are shown one
    after the other, the history never has more than ten entries, never
    has two entries with the same keyword and text, and the item shown
    last comes first. *)
Theorem history_invariant (items : list Page.TriviaItem) :
  (List.length (historyAfter items []) <= 10)%nat
  /\ NoDup (entries (historyAfter items []))
  /\ hd_error (historyAfter items []) = List.last (List.map Some items) None.
Proof.
  assert (Hgen : forall history,
             (List.length history <= 10)%nat -> NoDup (entries history) ->
             (List.length (historyAfter items history) <= 10)%nat
             /\ NoDup (entries (historyAfter items history))
             /\ hd_error (historyAfter items history)
                = List.last (List.map Some items) (hd_error history)).
  { induction items as [|item items IH]; intros history Hlen Hnodup.
    - simpl. auto.
    - destruct (newHistory_step item history) as (Hhd & Hten & Hkeep).
      destruct (IH (Page.newHistory item history) Hten (Hkeep Hnodup))
        as (H1 & H2 & H3).
      cbn [historyAfter List.map]. split; [exact H1|]. split; [exact H2|].
      rewrite H3, Hhd. symmetry. apply last_cons_default. }
  destruct (Hgen []) as (H1 & H2 & H3); [simpl; lia | constructor|]. auto.
Qed.

(** ** The admin login *)

Lemma digit_values (i : N) :
  (i < 64)%N -> digitValue (Buffer.digit i) = i /\ (Buffer.digit i =? 61)%N = false.
Proof.
  intros Hi.
  assert (Hall : forallb (fun i => (digitValue (Buffer.digit i) =? i)%N
                                   && negb (Buffer.digit i =? 61)%N)
                         (List.map N.of_nat (seq 0 64)) = true)
    by (vm_compute; reflexivity).
  rewrite forallb_forall in Hall.
  specialize (Hall i). rewrite andb_true_iff, N.eqb_eq, negb_true_iff in Hall.
  apply Hall. apply in_map_iff. exists (N.to_nat i).
  split; [apply N2Nat.id | apply in_seq; lia].
Qed.

Lemma base64_decode_encode (bytes : list N) :
  Forall (fun b => (b < 256)%N) bytes -> base64_decode (Buffer.base64 bytes) = bytes.
Proof.
  assert (Hgen : forall n bytes,
             (List.length bytes <= n)%nat -> Forall (fun b => (b < 256)%N) bytes ->
             base64_decode (Buffer.base64 bytes) = bytes).
  { clear bytes. induction n as [|n IH]; intros bytes Hlen Hbytes.
    { destruct bytes; [reflexivity | simpl in Hlen; lia]. }
    destruct bytes as [|a [|b [|c rest]]]; [reflexivity| | |].
    - apply Forall_cons_1 in Hbytes as [Ha _].
      cbn [Buffer.base64 base64_decode]. cbv zeta.
      destruct (digit_values (a / 4)%N) as [-> _]; [apply N.Div0.div_lt_upper_bound; lia|].
      destruct (digit_values ((a mod 4) * 16)%N) as [-> _];
        [pose proof (N.mod_upper_bound a 4); lia|].
      change (61 =? 61)%N with true. cbv iota. f_equal.
      pose proof (N.div_mod a 4). pose proof (N.mod_upper_bound a 4).
      rewrite N.div_mul by lia. lia.
    - apply Forall_cons_1 in Hbytes as [Ha Hbytes].
      apply Forall_cons_1 in Hbytes as [Hb _].
      cbn [Buffer.base64 base64_decode]. cbv zeta.
      pose proof (N.div_mod a 4). pose proof (N.mod_upper_bound a 4).
      pose proof (N.div_mod b 16). pose proof (N.mod_upper_bound b 16).
      assert (b / 16 < 16)%N by (apply N.Div0.div_lt_upper_bound; lia).
      destruct (digit_values (a / 4)%N) as [-> _]; [apply N.Div0.div_lt_upper_bound; lia|].
      destruct (digit_values ((a mod 4) * 16 + b / 16)%N) as [-> _]; [lia|].
      destruct (digit_values ((b mod 16) * 4)%N) as [-> ->]; [lia|].
      change (61 =? 61)%N with true. cbv iota.
      assert (Hq16 : (((a mod 4) * 16 + b / 16) / 16 = a mod 4)%N).
      { rewrite N.add_comm, N.div_add by lia. rewrite N.div_small by lia. reflexivity. }
      assert (Hr16 : (((a mod 4) * 16 + b / 16) mod 16 = b / 16)%N).
      { rewrite N.add_comm, N.Div0.mod_add. apply N.mod_small. lia. }
      rewrite Hq16, Hr16, N.div_mul by lia. f_equal; [lia|]. f_equal. lia.
    - apply Forall_cons_1 in Hbytes as [Ha Hbytes].
      apply Forall_cons_1 in Hbytes as [Hb Hbytes].
      apply Forall_cons_1 in Hbytes as [Hc Hbytes].
      cbn [Buffer.base64 base64_decode]. cbv zeta.
      pose proof (N.div_mod a 4). pose proof (N.mod_upper_bound a 4).
      pose proof (N.div_mod b 16). pose proof (N.mod_upper_bound b 16).
      pose proof (N.div_mod c 64). pose proof (N.mod_upper_bound c 64).
      assert (b / 16 < 16)%N by (apply N.Div0.div_lt_upper_bound; lia).
      assert (c / 64 < 4)%N by (apply N.Div0.div_lt_upper_bound; lia).
      destruct (digit_values (a / 4)%N) as [-> _]; [apply N.Div0.div_lt_upper_bound; lia|].
      destruct (digit_values ((a mod 4) * 16 + b / 16)%N) as [-> _]; [lia|].
      destruct (digit_values ((b mod 16) * 4 + c / 64)%N) as [-> ->]; [lia|].
      destruct (digit_values (c mod 64)%N) as [-> ->]; [lia|].
      cbv iota.
      assert (Hq16 : (((a mod 4) * 16 + b / 16) / 16 = a mod 4)%N).
      { rewrite N.add_comm, N.div_add by lia. rewrite N.div_small by lia. reflexivity. }
      assert (Hr16 : (((a mod 4) * 16 + b / 16) mod 16 = b / 16)%N).
      { rewrite N.add_comm, N.Div0.mod_add. apply N.mod_small. lia. }
      assert (Hq4 : (((b mod 16) * 4 + c / 64) / 4 = b mod 16)%N).
      { rewrite N.add_comm, N.div_add by lia. rewrite N.div_small by lia. reflexivity. }
      assert (Hr4 : (((b mod 16) * 4 + c / 64) mod 4 = c / 64)%N).
      { rewrite N.add_comm, N.Div0.mod_add. apply N.mod_small. lia. }
      rewrite Hq16, Hr16, Hq4, Hr4.
      rewrite (IH rest) by (simpl in Hlen; auto; lia).
      f_equal; [lia|]. f_equal; [lia|]. f_equal. lia. }
  apply (Hgen (List.length bytes)). lia.
Qed.

Lemma utf8_encode_bytes (cp : N) :
  (cp < 1114112)%N -> Forall (fun b => (b < 256)%N) (Buffer.utf8_encode cp).
Proof.
  intros Hcp. unfold Buffer.utf8_encode.
  destruct (N.ltb_spec cp 128); [repeat constructor; lia|].
  pose proof (N.mod_upper_bound cp 64).
  pose proof (N.mod_upper_bound (cp / 64) 64).
  pose proof (N.mod_upper_bound (cp / 4096) 64).
  destruct (N.ltb_spec cp 2048).
  { assert (cp / 64 < 32)%N by (apply N.Div0.div_lt_upper_bound; lia).
    repeat constructor; lia. }
  destruct (N.ltb_spec cp 65536).
  { assert (cp / 4096 < 16)%N by (apply N.Div0.div_lt_upper_bound; lia).
    repeat constructor; lia. }
  assert (cp / 262144 < 8)%N by (apply N.Div0.div_lt_upper_bound; lia).
  repeat constructor; lia.
Qed.

Lemma codePoints_range (s : jsstring) :
  Forall (fun c => (c < 65536)%N) s ->
  Forall (fun cp => (cp < 1114112)%N) (Buffer.codePoints s).
Proof.
  assert (Hgen : forall n s,
             (List.length s <= n)%nat -> Forall (fun c => (c < 65536)%N) s ->
             Forall (fun cp => (cp < 1114112)%N) (Buffer.codePoints s)).
  { clear s. induction n as [|n IH]; intros s Hlen Hs.
    { destruct s; [constructor | simpl in Hlen; lia]. }
    destruct s as [|c r]; [constructor|].
    apply Forall_cons_1 in Hs as [Hc Hr]. simpl in Hlen.
    cbn [Buffer.codePoints]. cbv zeta.
    destruct ((55296 <=? c)%N && (c <=? 56319)%N) eqn:Hhigh.
    - apply andb_true_iff in Hhigh as [H1 H2]. apply N.leb_le in H1, H2.
      destruct r as [|d r']; [repeat constructor; lia|].
      destruct ((56320 <=? d)%N && (d <=? 57343)%N) eqn:Hlow.
      + apply andb_true_iff in Hlow as [H3 H4]. apply N.leb_le in H3, H4.
        apply Forall_cons_1 in Hr as [Hd Hr']. simpl in Hlen.
        constructor; [lia | apply IH; [lia | exact Hr']].
      + constructor; [lia | apply IH; [lia | exact Hr]].
    - destruct ((56320 <=? c)%N && (c <=? 57343)%N);
        (constructor; [lia | apply IH; [lia | exact Hr]]). }
  apply (Hgen (List.length s)). lia.
Qed.

Lemma from_bytes (s : jsstring) :
  Forall (fun c => (c < 65536)%N) s -> Forall (fun b => (b < 256)%N) (Buffer.from s).
Proof.
  intros Hs. unfold Buffer.from. apply List.Forall_flat_map.
  eapply List.Forall_impl; [|apply codePoints_range, Hs].
  intros cp Hcp. apply utf8_encode_bytes, Hcp.
Qed.

Lemma base64_nonempty (bytes : list N) : bytes <> [] -> Buffer.base64 bytes <> [].
Proof. destruct bytes as [|a [|b [|c rest]]]; [congruence| | |]; discriminate. Qed.

Lemma tokenText_from (password : jsstring) (now : Z) :
  Buffer.from (tokenText password now) <> [].
Proof.
  unfold tokenText.
  change (js "admin:") with ([97; 100; 109; 105; 110; 58]%N : jsstring).
  discriminate.
Qed.

(** X24. The login answers 200 exactly when the body is readable, the
    password is configured and not empty, and the body carries that very
    string as its password; it sets the cookie exactly then.  A body that
    cannot be read is answered with 400 first, whatever the
    configuration. *)
Theorem login_decision (ADMIN_PASSWORD NODE_ENV : option jsstring) (now : Z)
        (json : option JsValue) :
  (Login.status (Login.POST ADMIN_PASSWORD NODE_ENV now json) = 200
   <-> exists data password,
       json = Some data
       /\ Js.get data (js "password") = Some (JStr password)
       /\ ADMIN_PASSWORD = Some password
       /\ password <> [])
  /\ (Login.cookie (Login.POST ADMIN_PASSWORD NODE_ENV now json) <> None
      <-> Login.status (Login.POST ADMIN_PASSWORD NODE_ENV now json) = 200)
  /\ (Login.status (Login.POST ADMIN_PASSWORD NODE_ENV now json) = 400
      <-> json = None \/ json = Some JNull \/ json = Some JUndefined)
  /\ In (Login.status (Login.POST ADMIN_PASSWORD NODE_ENV now json)) [200; 400; 401; 500].
Proof.
  unfold Login.POST.
  destruct json as [data|].
  2:{ cbn [Login.status Login.cookie]. split; [|split; [|split]].
      - split; [discriminate | intros (data & pw & H & _); discriminate H].
      - split; [congruence | discriminate].
      - split; auto.
      - right; left; reflexivity. }
  destruct (Js.get data (js "password")) as [password|] eqn:Hget.
  2:{ assert (Hdata : data = JNull \/ data = JUndefined)
        by (destruct data; try discriminate Hget; auto).
      cbn [Login.status Login.cookie]. split; [|split; [|split]].
      - split; [discriminate | intros (d & pw & [= <-] & H & _); congruence].
      - split; [congruence | discriminate].
      - split; [intros _; destruct Hdata as [->| ->]; auto | reflexivity].
      - right; left; reflexivity. }
  assert (Hnot400 : ~ (Some data = None \/ Some data = Some JNull
                      \/ Some data = Some JUndefined)).
  { intros [H|[[= ->]|[= ->]]]; discriminate. }
  destruct (absent ADMIN_PASSWORD) eqn:Habs.
  { cbn [Login.status Login.cookie]. split; [|split; [|split]].
    - split; [discriminate|].
      intros (d & pw & _ & _ & -> & Hne). rewrite (absent_some pw Hne) in Habs.
      discriminate.
    - split; [congruence | discriminate].
    - split; [discriminate | intros H; destruct (Hnot400 H)].
    - do 3 right; left; reflexivity. }
  destruct (absent_false _ Habs) as (pw & -> & Hne). cbn [default from_option id].
  destruct (Js.isStr password pw) eqn:Hstr; cbn [negb].
  - assert (password = JStr pw).
    { destruct password; try discriminate Hstr. unfold Js.isStr, eqb in Hstr.
      apply bool_decide_eq_true_1 in Hstr. congruence. }
    subst password. cbn [Login.status Login.cookie]. split; [|split; [|split]].
    + split; [|reflexivity]. intros _. exists data, pw. auto.
    + split; [reflexivity | discriminate].
    + split; [discriminate | intros H; destruct (Hnot400 H)].
    + left; reflexivity.
  - cbn [Login.status Login.cookie]. split; [|split; [|split]].
    + split; [discriminate|].
      intros (d & pw' & [= <-] & Hget' & [= <-] & _).
      rewrite Hget in Hget'. injection Hget' as ->.
      unfold Js.isStr, eqb in Hstr. rewrite bool_decide_eq_true_2 in Hstr by reflexivity.
      discriminate.
    + split; [congruence | discriminate].
    + split; [discriminate | intros H; destruct (Hnot400 H)].
    + do 2 right; left; reflexivity.
Qed.

Lemma units_check (s : jsstring) :
  forallb (fun u => (u <? 65536)%N) s = true -> Forall (fun u => (u < 65536)%N) s.
Proof.
  rewrite forallb_forall, List.Forall_forall. intros H u Hu.
  apply N.ltb_lt, H, Hu.
Qed.

Lemma utf8_decode_units (bs : list N) :
  Forall (fun b => (b < 128)%N) bs -> utf8_decode bs = bs.
Proof.
  induction 1 as [|b bs Hb _ IH]; [reflexivity|].
  cbn [utf8_decode]. cbv zeta. apply N.ltb_lt in Hb. rewrite Hb, IH. reflexivity.
Qed.

Lemma js_ascii (t : string) :
  Forall (fun b => (b < 128)%N) (List.map N_of_ascii (list_ascii_of_string t)) ->
  Forall (fun u => (u < 65536)%N) (js t).
Proof.
  intros Hascii. unfold js. rewrite utf8_decode_units by exact Hascii.
  induction Hascii as [|b bs Hb _ IH]; [constructor|].
  cbn [flat_map]. unfold utf16_units at 1.
  destruct (N.ltb_spec b 65536); [|lia]. constructor; [lia | exact IH].
Qed.

Lemma digits_ascii (d : Decimal.uint) :
  Forall (fun b => (b < 128)%N)
         (List.map N_of_ascii (list_ascii_of_string (NilEmpty.string_of_uint d))).
Proof.
  induction d; cbn [NilEmpty.string_of_uint list_ascii_of_string List.map];
    constructor; try exact IHd; vm_compute; reflexivity.
Qed.

Lemma ofNat_units (n : nat) : Forall (fun u => (u < 65536)%N) (ofNat n).
Proof.
  unfold ofNat, NilZero.string_of_uint.
  destruct (Nat.to_uint n) eqn:Hn;
    try (rewrite <- Hn; apply js_ascii, digits_ascii).
  apply units_check. vm_compute. reflexivity.
Qed.

Lemma ofZ_units (z : Z) : Forall (fun u => (u < 65536)%N) (ofZ z).
Proof.
  unfold ofZ. destruct (z <? 0); [|apply ofNat_units].
  apply Forall_app_2; [apply units_check; vm_compute; reflexivity | apply ofNat_units].
Qed.

(** X25. The cookie a login sets is named admin_token, lasts a day,
    and its value is not a digest: reading it as Base64 gives back the
    bytes of admin:<password>:<time>, the configured password included.
    The value is not empty, so the statistics route takes the holder for
    authenticated. *)
Theorem login_token (ADMIN_PASSWORD NODE_ENV : option jsstring) (now : Z)
        (json : option JsValue) (c : Login.Cookie) :
  Forall (fun u => (u < 65536)%N) (default [] ADMIN_PASSWORD) ->
  Login.cookie (Login.POST ADMIN_PASSWORD NODE_ENV now json) = Some c ->
  exists password,
    ADMIN_PASSWORD = Some password
    /\ Login.name c = js "admin_token"
    /\ Login.maxAge c = 86400
    /\ base64_decode (Login.value c) = Buffer.from (tokenText password now)
    /\ Login.value c <> []
    /\ Stats.isAuthenticated (Some (Login.value c)) = true.
Proof.
  intros Hunits. unfold Login.POST.
  destruct json as [data|]; [|discriminate].
  destruct (Js.get data (js "password")) as [password|]; [|discriminate].
  destruct (absent ADMIN_PASSWORD) eqn:Habs; [discriminate|].
  destruct (absent_false _ Habs) as (pw & -> & Hne).
  change (default [] (Some pw)) with pw in *.
  destruct (Js.isStr password pw); [|discriminate].
  change (js "admin:" ++ pw ++ js ":" ++ ofZ now) with (tokenText pw now).
  assert (Hvalue : Buffer.base64 (Buffer.from (tokenText pw now)) <> [])
    by apply base64_nonempty, tokenText_from.
  assert (Hback : base64_decode (Buffer.base64 (Buffer.from (tokenText pw now)))
                  = Buffer.from (tokenText pw now)).
  { apply base64_decode_encode, from_bytes. unfold tokenText.
    apply Forall_app_2; [apply units_check; vm_compute; reflexivity|].
    apply Forall_app_2; [exact Hunits|].
    apply Forall_app_2; [apply units_check; vm_compute; reflexivity | apply ofZ_units]. }
  set (token := Buffer.base64 _) in *.
  intros Hcookie. exists pw.
  assert (Hc : c = {| Login.name := js "admin_token"; Login.value := token;
                      Login.httpOnly := true;
                      Login.secure := match NODE_ENV with
                                      | Some env => eqb env (js "production")
                                      | None => false
                                      end;
                      Login.sameSite := js "strict"; Login.maxAge := 60 * 60 * 24;
                      Login.path := js "/" |})
    by (symmetry; exact (f_equal (fun o => default c o) Hcookie)).
  rewrite Hc. cbn [Login.name Login.maxAge Login.value].
  split; [reflexivity|]. split; [reflexivity|]. split; [reflexivity|].
  split; [exact Hback|]. split; [exact Hvalue|].
  unfold Stats.isAuthenticated. rewrite absent_some by exact Hvalue. reflexivity.
Qed.

Lemma login_token_witness :
  let c := {| Login.name := js "admin_token";
              Login.value := Buffer.base64 (Buffer.from (tokenText (js "secret") 5));
              Login.httpOnly := true; Login.secure := false;
              Login.sameSite := js "strict"; Login.maxAge := 86400;
              Login.path := js "/" |} in
  exists password,
    Some (js "secret") = Some password
    /\ Login.name c = js "admin_token"
    /\ Login.maxAge c = 86400
    /\ base64_decode (Login.value c) = Buffer.from (tokenText password 5)
    /\ Login.value c <> []
    /\ Stats.isAuthenticated (Some (Login.value c)) = true.
Proof.
  apply (login_token (Some (js "secret")) None 5
                     (Some (JObj [ (js "password", JStr (js "secret")) ]))).
  - apply units_check. vm_compute. reflexivity.
  - vm_compute. reflexivity.
Defined.

(** X26. The statistics route answers 401 exactly when the request has
    no admin_token cookie or an empty one: any other value is accepted,
    whoever set it.  An accepted request is answered from the readers,
    with a period that is never empty (all when none is given) and a
    genre that is absent rather than empty. *)
Theorem stats_access (token periodParam genreParam : option jsstring)
        (fetchStats : jsstring -> option jsstring -> option (JsValue * JsValue * JsValue)) :
  (Stats.GET token periodParam genreParam fetchStats = Stats.Unauthorized
   <-> token = None \/ token = Some [])
  /\ (forall ranking trend genres period currentGenre,
        Stats.GET token periodParam genreParam fetchStats
        = Stats.Statistics ranking trend genres period currentGenre ->
        period <> [] /\ currentGenre <> Some []
        /\ (periodParam = None \/ periodParam = Some [] -> period = js "all")
        /\ fetchStats period currentGenre = Some (ranking, trend, genres)).
Proof.
  unfold Stats.GET, Stats.isAuthenticated.
  set (period := if absent periodParam then js "all" else default [] periodParam).
  set (genre := if absent genreParam then None else genreParam).
  assert (Hperiod : period <> []).
  { unfold period. destruct (absent periodParam) eqn:Hp; [vm_compute; discriminate|].
    destruct (absent_false _ Hp) as (p & -> & Hne). exact Hne. }
  assert (Hgenre : absent genre = false \/ genre = None).
  { unfold genre. destruct (absent genreParam) eqn:Hg; auto. }
  assert (Hcurrent : (if absent genre then None else genre) = genre).
  { destruct Hgenre as [->| ->]; reflexivity. }
  rewrite Hcurrent.
  destruct token as [[|u token]|]; cbn [absent negb].
  - split; [split; auto|]. intros ? ? ? ? ? H. discriminate H.
  - split.
    + split; [|intros [H|H]; discriminate H].
      destruct (fetchStats period genre) as [[[? ?] ?]|]; discriminate.
    + intros ranking trend genres p g.
      destruct (fetchStats period genre) as [[[r t] gs]|] eqn:Hfetch; [|discriminate].
      intros [= <- <- <- <- <-]. split; [exact Hperiod|]. split.
      * destruct Hgenre as [Habs| ->]; [|discriminate].
        intros Hg. rewrite Hg in Habs. discriminate Habs.
      * split; [|exact Hfetch].
        unfold period. intros [->| ->]; reflexivity.
  - split; [split; auto|]. intros ? ? ? ? ? H. discriminate H.
Qed.

(** X27. From the admin page, a login succeeds exactly when the
    password typed is the configured one and not empty; every other
    answer of the route, the one for a missing configuration included,
    is shown as a wrong password. *)
Theorem admin_login (ADMIN_PASSWORD NODE_ENV : option jsstring) (now : Z)
        (password : jsstring) :
  (AdminPage.handleLogin (loginRoute ADMIN_PASSWORD NODE_ENV now) password
   = AdminPage.Authenticated
   <-> ADMIN_PASSWORD = Some password /\ password <> [])
  /\ (AdminPage.handleLogin (loginRoute ADMIN_PASSWORD NODE_ENV now) password
      <> AdminPage.Authenticated ->
      AdminPage.handleLogin (loginRoute ADMIN_PASSWORD NODE_ENV now) password
      = AdminPage.LoginError (js "パスワードが違います")).
Proof.
  unfold AdminPage.handleLogin, loginRoute, Login.POST.
  set (body := JObj [ (js "password", JStr password) ]).
  assert (Hget : Js.get body (js "password") = Some (JStr password))
    by (vm_compute; reflexivity).
  rewrite Hget.
  destruct (absent ADMIN_PASSWORD) eqn:Habs.
  { cbn [Login.status Z.leb Z.compare Pos.compare Pos.compare_cont andb].
    split; [|reflexivity]. split; [discriminate|].
    intros [-> Hne]. rewrite (absent_some _ Hne) in Habs. discriminate Habs. }
  destruct (absent_false _ Habs) as (pw & -> & Hne).
  change (default [] (Some pw)) with pw.
  unfold Js.isStr, eqb. destruct (bool_decide (password = pw)) eqn:Hsame; cbn [negb].
  - apply bool_decide_eq_true_1 in Hsame. subst pw.
    cbn [Login.status Z.leb Z.compare Pos.compare Pos.compare_cont andb].
    split; [|congruence]. split; auto.
  - apply bool_decide_eq_false_1 in Hsame.
    cbn [Login.status Z.leb Z.compare Pos.compare Pos.compare_cont andb].
    split; [|reflexivity]. split; [discriminate|].
    intros [[= ->] _]. congruence.
Qed.

Lemma admin_login_witness :
  AdminPage.handleLogin (loginRoute None None 5) (js "secret")
  = AdminPage.LoginError (js "パスワードが違います").
Proof.
  apply (proj2 (admin_login None None 5 (js "secret"))).
  vm_compute. discriminate.
Defined.

(** ** The keyword log *)

(** X28. Every success of the handler is counted under the keyword it
    echoes: the keyword handed to the log is already trimmed and not
    empty, so with Redis configured the pipeline is the full one, with
    that keyword as the member of every ranking. *)
Theorem success_is_counted (API_KEY_RAW : option jsstring) (provider : Provider)
        (now createdAt : Z) (req : Request) (m : RateLimitMap)
        (env : Redis.Env) (classifyGenre : jsstring -> jsstring) (date : jsstring)
        trivia keyword mode n usedName created :
  response (POST API_KEY_RAW provider now createdAt req m)
  = TriviaJson trivia keyword mode n usedName created ->
  Redis.getRedis env = true ->
  logged (POST API_KEY_RAW provider now createdAt req m) = Some keyword
  /\ Redis.logKeyword env classifyGenre date keyword
     = [ Redis.zincrby (js "keywords:all") 1 keyword;
         Redis.zincrby (js "keywords:daily:" ++ date) 1 keyword;
         Redis.expire (js "keywords:daily:" ++ date) 2678400;
         Redis.zincrby (js "keywords:genre:" ++ classifyGenre keyword) 1 keyword;
         Redis.incr (js "stats:daily:" ++ date);
         Redis.expire (js "stats:daily:" ++ date) 2678400;
         Redis.hset (js "keywords:genres") keyword (classifyGenre keyword) ].
Proof.
  intros Hresp Hredis.
  destruct (POST_success_inv _ _ _ _ _ _ _ _ _ _ _ _ Hresp)
    as (Hreach & v & Hgen & Htrivia & Hne & _).
  pose proof Hreach as (_ & _ & Hread & Hkw & _).
  assert (Htrim : trim keyword = keyword).
  { unfold readKeyword in Hread.
    destruct (json req) as [body|]; [|discriminate Hread].
    destruct (Js.get body (js "keyword")) as [k|]; [|discriminate Hread].
    destruct (if Js.truthy k then k else JStr []); try discriminate Hread.
    injection Hread as <-. apply trim_idem. }
  split.
  - rewrite (POST_generation _ _ _ _ _ _ _ Hreach) in Hresp |- *.
    rewrite Hgen in Hresp |- *. cbn [logged response] in *.
    destruct (absent (generatedTrivia v)); [discriminate Hresp | reflexivity].
  - unfold Redis.logKeyword. rewrite Hredis, Htrim, (absent_some _ Hkw).
    reflexivity.
Qed.

Lemma success_is_counted_witness :
  logged (POST (Some (js "key")) ready 1000 2000 ramenRequest ∅) = Some (js "ラーメン")
  /\ Redis.logKeyword
       {| Redis.UPSTASH_REDIS_REST_URL := None;
          Redis.KV_REST_API_URL := Some (js "https://kv.example");
          Redis.UPSTASH_REDIS_REST_TOKEN := Some (js "token");
          Redis.KV_REST_API_TOKEN := None |}
       (fun _ => js "食べ物") (js "2026-01-01") (js "ラーメン")
     = [ Redis.zincrby (js "keywords:all") 1 (js "ラーメン");
         Redis.zincrby (js "keywords:daily:" ++ js "2026-01-01") 1 (js "ラーメン");
         Redis.expire (js "keywords:daily:" ++ js "2026-01-01") 2678400;
         Redis.zincrby (js "keywords:genre:" ++ js "食べ物") 1 (js "ラーメン");
         Redis.incr (js "stats:daily:" ++ js "2026-01-01");
         Redis.expire (js "stats:daily:" ++ js "2026-01-01") 2678400;
         Redis.hset (js "keywords:genres") (js "ラーメン") (js "食べ物") ].
Proof.
  apply (success_is_counted (Some (js "key")) ready 1000 2000 ramenRequest ∅
           _ (fun _ => js "食べ物") (js "2026-01-01")
           (letters 80) (js "ラーメン") (js "kitakyushu") 0%nat
           (js "gemini-2.0-flash") 2000).
  - vm_compute. reflexivity.
  - vm_compute. reflexivity.
Defined.

(** X29. The reader of sorted-set replies pairs each member with the
    score that follows it, in order; a reply of odd length gives a last
    entry whose score is the conversion of [undefined]. *)
Theorem parseZrangeResult_pairs (String : JsValue -> jsstring)
        (Number : JsValue -> JsValue) (pairs : list (JsValue * JsValue))
        (last : JsValue) :
  Redis.parseZrangeResult String Number (flatReply pairs)
  = List.map (fun p => {| Redis.member := String (fst p);
                          Redis.score := Number (snd p) |}) pairs
  /\ Redis.parseZrangeResult String Number (flatReply pairs ++ [last])
     = List.map (fun p => {| Redis.member := String (fst p);
                             Redis.score := Number (snd p) |}) pairs
       ++ [ {| Redis.member := String last; Redis.score := Number JUndefined |} ].
Proof.
  unfold flatReply. induction pairs as [|[m sc] pairs [IH1 IH2]]; [split; reflexivity|].
  cbn [flat_map fst snd app List.map Redis.parseZrangeResult].
  rewrite IH1, IH2. split; reflexivity.
Qed.
